(** * Pumpkin watchdog: a shallow embedding of [watchdog.py]

    The development follows the source file top-down: the exceptions, the
    stream model used by the placeholder responder, the variable-length
    integer codec, the handshake handler, the deadlock checker, and the
    supervisor loop ([wait_for_process_or_signal] and [binary_runner]).
    Python integers are unbounded, so they are modelled by [Z]; bytes are
    integers in [0, 255]. *)

From Stdlib Require Import ZArith List String Ascii Bool Lia.
From stdpp Require Import base option list strings gmap pretty.

Local Open Scope Z_scope.

(** ** Exceptions *)

(** The reasons an [MCException] is raised with; the numbers of the
    "Bad packet length" message are kept as data instead of text. *)
Inductive mc_error : Type :=
  | VarIntTooBig
  | ServerAddressTooBig
  | BadPacketLength (real_packet_length packet_length : Z).

Inductive exn : Type :=
  | MCException (reason : mc_error)
  | IndexError
  | ValueError
  | OSError
  | RuntimeError
  | TimeoutError
  | SubprocessError
  | CancelledError.

Inductive result (A : Type) : Type :=
  | Ok (a : A)
  | Raise (e : exn).
Arguments Ok {A} a.
Arguments Raise {A} e.

(** ** asyncio streams *)

Module Stream.

(** A [StreamReader]: the bytes already buffered, and the chunks the
    transport will still hand over with [feed_data], in order, before
    [feed_eof]. *)
Record StreamReader : Type := mkReader {
  buffer : list Z;
  feed : list (list Z)
}.

(** A [StreamWriter]: everything written so far, whether [close] was
    called, and whether the connection is lost by the time the handler
    awaits [drain]. *)
Record StreamWriter : Type := mkWriter {
  written : list Z;
  closed : bool;
  connection_lost : bool
}.

Definition fresh_writer : StreamWriter := mkWriter [] false false.

(** [feed_data] with an empty payload wakes nobody up, so a reader waiting
    for data sees the next non-empty chunk, or the end of the stream. *)
Fixpoint wait_for_data (chunks : list (list Z)) : StreamReader :=
  match chunks with
  | [] => mkReader [] []
  | [] :: chunks' => wait_for_data chunks'
  | (b :: bs) :: chunks' => mkReader (b :: bs) chunks'
  end.

(** [await reader.read(n)]: nothing for [n = 0]; everything up to the end
    of the stream for a negative [n]; otherwise wait once when the buffer
    is empty, then return at most [n] buffered bytes. *)
Definition read (n : Z) (r : StreamReader) : list Z * StreamReader :=
  if n =? 0 then ([], r)
  else if n <? 0 then (buffer r ++ concat (feed r), mkReader [] [])
  else
    let r' := match buffer r with
              | [] => wait_for_data (feed r)
              | _ :: _ => r
              end in
    (take (Z.to_nat n) (buffer r'),
     mkReader (drop (Z.to_nat n) (buffer r')) (feed r')).

Definition write (data : list Z) (w : StreamWriter) : StreamWriter :=
  mkWriter (written w ++ data) (closed w) (connection_lost w).

Definition close (w : StreamWriter) : StreamWriter :=
  mkWriter (written w) true (connection_lost w).

(** All the bytes a reader will ever deliver. *)
Definition pending (r : StreamReader) : list Z :=
  buffer r ++ concat (feed r).

End Stream.
Import Stream.

(** ** The variable-length integer codec *)

(** [mc_read_var_int]: the loop state is [value], [position] and
    [bytes_read]; [fuel] bounds the number of iterations. *)
Fixpoint mc_read_var_int_loop (fuel : nat) (value position bytes_read : Z)
    (reader : StreamReader) : option (result (Z * Z) * StreamReader) :=
  match fuel with
  | O => None
  | S fuel' =>
      let '(data, reader) := read 1 reader in
      match data with
      | [] => Some (Raise IndexError, reader)
      | current_byte :: _ =>
          let bytes_read := bytes_read + 1 in
          let value :=
            Z.lor value (Z.shiftl (Z.land current_byte 0x7F) position) in
          if Z.land current_byte 0x80 =? 0
          then Some (Ok (value, bytes_read), reader)
          else
            let position := position + 7 in
            if 32 <=? position
            then Some (Raise (MCException VarIntTooBig), reader)
            else mc_read_var_int_loop fuel' value position bytes_read reader
      end
  end.

(** Five iterations are all the loop can make: the fifth continuation byte
    brings [position] to 35 ([mc_read_var_int_loop_fuel] below), so the
    default branch is never taken. *)
Definition mc_read_var_int (reader : StreamReader)
    : result (Z * Z) * StreamReader :=
  match mc_read_var_int_loop 5 0 0 0 reader with
  | Some out => out
  | None => (Raise (MCException VarIntTooBig), reader)
  end.

(** [mc_var_int_length]: [None] when the fuel runs out. *)
Fixpoint mc_var_int_length_loop (fuel : nat) (length num : Z) : option Z :=
  match fuel with
  | O => None
  | S fuel' =>
      let length := length + 1 in
      if Z.land num (Z.lnot 0x7F) =? 0 then Some length
      else mc_var_int_length_loop fuel' length (Z.shiftr num 7)
  end.

(** [mc_write_var_int]: [None] when the fuel runs out. *)
Fixpoint mc_write_var_int_loop (fuel : nat) (num : Z) (writer : StreamWriter)
    : option StreamWriter :=
  match fuel with
  | O => None
  | S fuel' =>
      if Z.land num (Z.lnot 0x7F) =? 0 then Some (write [num] writer)
      else
        mc_write_var_int_loop fuel' (Z.shiftr num 7)
          (write [Z.lor (Z.land num 0x7F) 0x80] writer)
  end.

(** A non-negative number needs one iteration per started group of seven
    bits, which [S (log2 num)] covers ([mc_write_var_int_total] below); on
    a negative number the Python loops never end, and no amount of fuel
    gives a result ([mc_write_var_int_negative]). *)
Definition var_int_fuel (num : Z) : nat := S (Z.to_nat (Z.log2 num)).

Definition mc_var_int_length (num : Z) : option Z :=
  mc_var_int_length_loop (var_int_fuel num) 0 num.

Definition mc_write_var_int (num : Z) (writer : StreamWriter)
    : option StreamWriter :=
  mc_write_var_int_loop (var_int_fuel num) num writer.

(** The bytes [mc_write_var_int] sends for [num] on a fresh writer. *)
Definition var_int_bytes (num : Z) : option (list Z) :=
  written <$> mc_write_var_int num fresh_writer.

(** ** A state and exception monad

    [M St A] is a computation over a state [St] that returns an [A], raises
    an exception, or ([None]) does not terminate within its fuel. *)

Definition M (St A : Type) : Type := St -> option (result A * St).

Definition ret {St A} (a : A) : M St A := fun s => Some (Ok a, s).

Definition raise {St A} (e : exn) : M St A := fun s => Some (Raise e, s).

Definition bind {St A B} (m : M St A) (k : A -> M St B) : M St B :=
  fun s =>
    match m s with
    | None => None
    | Some (Ok a, s') => k a s'
    | Some (Raise e, s') => Some (Raise e, s')
    end.

(** [try: m except e if catches e: handler e]. *)
Definition try_except {St A} (m : M St A) (catches : exn -> bool)
    (handler : exn -> M St A) : M St A :=
  fun s =>
    match m s with
    | Some (Raise e, s') => if catches e then handler e s' else Some (Raise e, s')
    | other => other
    end.

(** [try: m finally: cleanup]; an exception of the cleanup replaces the
    outcome of [m]. *)
Definition try_finally {St A} (m : M St A) (cleanup : M St unit) : M St A :=
  fun s =>
    match m s with
    | None => None
    | Some (out, s') =>
        match cleanup s' with
        | None => None
        | Some (Ok _, s'') => Some (out, s'')
        | Some (Raise e, s'') => Some (Raise e, s'')
        end
    end.

Definition get {St} : M St St := fun s => Some (Ok s, s).
Definition modify {St} (f : St -> St) : M St unit := fun s => Some (Ok tt, f s).
Definition diverge {St A} : M St A := fun _ => None.

Notation "x <- c1 ;; c2" := (bind c1 (fun x => c2))
  (at level 100, c1 at next level, right associativity).
Notation "c1 ;; c2" := (bind c1 (fun _ => c2))
  (at level 100, right associativity).

(** The classes named in the [except] clauses of the source.
    [CancelledError] derives from [BaseException], not from [Exception]. *)
Definition is_Exception (e : exn) : bool :=
  match e with CancelledError => false | _ => true end.
Definition is_SubprocessError (e : exn) : bool :=
  match e with SubprocessError => true | _ => false end.
Definition is_CancelledError (e : exn) : bool :=
  match e with CancelledError => true | _ => false end.

(** ** The placeholder responder: [handle_mc] *)

(** The two shapes of [data] handed to [json.dumps]: the bare
    [{"text": ...}], and the full status object, whose only varying parts
    are the echoed protocol number and the description text. *)
Inductive mc_data : Type :=
  | TextData (text : string)
  | StatusData (protocol : Z) (text : string).

(** One accepted connection: its two streams and what the handler printed
    from its [except] clause. *)
Record connection : Type := mkConn {
  conn_reader : StreamReader;
  conn_writer : StreamWriter;
  conn_printed : list exn
}.

Definition await_read (n : Z) : M connection (list Z) :=
  fun c =>
    let '(data, r) := read n (conn_reader c) in
    Some (Ok data, mkConn r (conn_writer c) (conn_printed c)).

Definition await_mc_read_var_int : M connection (Z * Z) :=
  fun c =>
    let '(out, r) := mc_read_var_int (conn_reader c) in
    Some (out, mkConn r (conn_writer c) (conn_printed c)).

Definition on_writer (f : StreamWriter -> option StreamWriter)
    : M connection unit :=
  fun c =>
    match f (conn_writer c) with
    | None => None
    | Some w => Some (Ok tt, mkConn (conn_reader c) w (conn_printed c))
    end.

(** [await writer.drain()]: on a lost connection it raises
    [ConnectionResetError], which is an [OSError]. *)
Definition await_drain : M connection unit :=
  fun c =>
    if connection_lost (conn_writer c) then Some (Raise OSError, c)
    else Some (Ok tt, c).

Definition print_exn (e : exn) : M connection unit :=
  modify (fun c =>
    mkConn (conn_reader c) (conn_writer c) (conn_printed c ++ [e])).

Definition from_option {St A} (o : option A) : M St A :=
  match o with
  | Some a => ret a
  | None => diverge
  end.

(** [str.encode()] and [len] of a string of ASCII characters, which is
    what [json.dumps] returns: one byte for each character. *)
Definition str_encode (s : string) : list Z :=
  map (fun a => Z.of_N (N_of_ascii a)) (list_ascii_of_string s).
Definition str_len (s : string) : Z := Z.of_nat (String.length s).

Section HandleMC.

(** [json.dumps] is left abstract: the handler only needs its length and
    its bytes. *)
Variable json_dumps : mc_data -> string.

(** [current_error] is the one-element list [message] of
    [minecraft_runner]; its content is taken as fixed while one
    connection is handled. *)
Definition handle_mc (current_error : string) : M connection unit :=
  try_finally
    (try_except
       (packet <- await_mc_read_var_int ;;
        let packet_length := fst packet in
        packet <- await_mc_read_var_int ;;
        let '(packet_id, id_bytes) := packet in
        let data := TextData current_error in
        data <-
          (if packet_id =? 0 then
             protocol_version <- await_mc_read_var_int ;;
             server_address_length <- await_mc_read_var_int ;;
             if 255 <? fst server_address_length
             then raise (MCException ServerAddressTooBig)
             else
               await_read (fst server_address_length) ;;
               await_read 2 ;;
               next_state <- await_mc_read_var_int ;;
               let real_packet_length :=
                 id_bytes + snd protocol_version
                 + snd server_address_length + fst server_address_length
                 + 2 + snd next_state in
               if negb (real_packet_length =? packet_length)
               then raise (MCException
                             (BadPacketLength real_packet_length packet_length))
               else if fst next_state =? 1 then
                 await_read 2 ;;
                 ret (StatusData (fst protocol_version) current_error)
               else ret data
           else ret data) ;;
        let data_string := json_dumps data in
        packet_id_length <- from_option (mc_var_int_length 0) ;;
        data_prefix_length <-
          from_option (mc_var_int_length (str_len data_string)) ;;
        on_writer (mc_write_var_int
                     (packet_id_length + data_prefix_length
                      + str_len data_string)) ;;
        on_writer (mc_write_var_int 0) ;;
        on_writer (mc_write_var_int (str_len data_string)) ;;
        on_writer (fun w => Some (write (str_encode data_string) w)) ;;
        await_drain)
       is_Exception
       (fun e => print_exn e))
    (on_writer (fun w => Some (close w))).

End HandleMC.

(** ** Python strings and paths

    The strings the program handles are modelled for ASCII characters: a
    Python [str] of code points below 128 is the string of these
    characters. *)

Module Py.

(** [s.startswith(prefix)]. *)
Definition startswith (s prefix : string) : bool := String.prefix prefix s.

(** [s.replace(old, new)] for a non-empty [old]: every occurrence, left to
    right, without overlap. *)
Fixpoint replace_loop (fuel : nat) (old new s : string) : string :=
  match fuel with
  | O => s
  | S fuel' =>
      if String.prefix old s
      then new +:+ replace_loop fuel' old new
                     (String.substring (String.length old)
                        (String.length s - String.length old) s)
      else match s with
           | EmptyString => EmptyString
           | String c s' => String c (replace_loop fuel' old new s')
           end
  end.
Definition replace (s old new : string) : string :=
  replace_loop (S (String.length s)) old new s.

Definition is_digit (c : ascii) : bool :=
  let n := N_of_ascii c in ((48 <=? n) && (n <=? 57))%N.

(** The ASCII white space of [str.strip] and [int]: the code points 9 to
    13, 28 to 31 and 32. *)
Definition is_space (c : ascii) : bool :=
  let n := N_of_ascii c in
  ((9 <=? n) && (n <=? 13) || (28 <=? n) && (n <=? 31) || (n =? 32))%N.

Fixpoint lstrip (s : string) : string :=
  match s with
  | String c s' => if is_space c then lstrip s' else s
  | EmptyString => EmptyString
  end.

Fixpoint rstrip (s : string) : string :=
  match s with
  | String c s' =>
      match rstrip s' with
      | EmptyString => if is_space c then EmptyString else String c EmptyString
      | t => String c t
      end
  | EmptyString => EmptyString
  end.

(** The digits of an integer literal: at least one digit, and single
    underscores only between digits. [acc] is the value read so far,
    [after_digit] tells whether the previous character was a digit. *)
Fixpoint digits (acc : Z) (after_digit : bool) (s : string) : option Z :=
  match s with
  | EmptyString => if after_digit then Some acc else None
  | String c s' =>
      if is_digit c
      then digits (10 * acc + (Z.of_N (N_of_ascii c) - 48)) true s'
      else if (Ascii.eqb c "_" && after_digit)%bool
      then match s' with
           | String d _ => if is_digit d then digits acc false s' else None
           | EmptyString => None
           end
      else None
  end.

(** [int(s)] in base ten on a string of ASCII characters; [None] stands
    for the [ValueError]. Outside ASCII, [int] also reads the decimal digits
    and skips the white space of other scripts, which this definition does
    not: what is proved of a [ValueError] is stated for ASCII strings. *)
Definition int (s : string) : option Z :=
  match lstrip (rstrip s) with
  | String "-" s' => Z.opp <$> digits 0 false s'
  | String "+" s' => digits 0 false s'
  | s' => digits 0 false s'
  end.

(** [str(n)], as used by an f-string. *)
Definition str (n : Z) : string := pretty n.

(** [os.path.join(a, b)] on a POSIX system. *)
Definition path_join (a b : string) : string :=
  if String.prefix "/" b then b
  else if (String.eqb a "" || String.eqb
             (String.substring (String.length a - 1) 1 a) "/")%bool
  then a +:+ b
  else a +:+ "/" +:+ b.

(** [max(xs, default=d)]. *)
Definition max_default (xs : list Z) (d : Z) : Z :=
  match xs with
  | [] => d
  | x :: xs' => fold_left Z.max xs' x
  end.

End Py.

(** ** The shared state of the supervisor side *)

(** An element of [commit_wrapper], a [List[Union[str, int]]]. *)
Inductive pyval : Type :=
  | PStr (s : string)
  | PInt (n : Z).

#[global] Instance pyval_eq_dec : EqDecision pyval.
Proof. solve_decision. Defined.

(** What the supervisor and the watchdog do to the outside, in order.
    [print] calls are not recorded. *)
Inductive event : Type :=
  | Put (message : option string)       (* [mc_queue.put]; [None]: stop *)
  | Sleep (seconds : Z)                 (* [asyncio.sleep] *)
  | Chdir (path : string)
  | Command (cmd : string) (rustflags : option string)
  | Acquire                             (* [mc_lock.acquire] *)
  | Release                             (* [mc_lock.release] *)
  | OpenW (path : string)               (* [open(path, "w")] *)
  | StartBinary (path : string) (pid : Z)
  | SendSigint                          (* [proc.send_signal(signal.SIGINT)] *)
  | Kill                                (* [proc.kill()] *)
  | AwaitExit (timeout : option Z)      (* waiting for [proc_task] *)
  | ProbeSent (data : list Z)
  | ProbeWait (timeout : Z)             (* [wait_for(reader.read(4096), timeout)] *)
  | ProbeClosed.

(** [commit_wrapper] is [revision id, attempt count, display name, error,
    child pid]; [can_access_mc] is a one-element list. [mc_lock] tells
    whether the supervisor holds the lock. [log_dirs] maps a directory to
    the names of its entries. [commands_run] counts the external commands
    started so far. *)
Record world : Type := mkWorld {
  commit_wrapper : list pyval;
  can_access_mc : list bool;
  mc_lock : bool;
  update_queue : list string;
  log_dirs : gmap string (gset string);
  commands_run : nat;
  events : list event
}.

Definition set_commit_wrapper (f : list pyval -> list pyval) (w : world) : world :=
  mkWorld (f (commit_wrapper w)) (can_access_mc w) (mc_lock w) (update_queue w)
    (log_dirs w) (commands_run w) (events w).
Definition set_can_access_mc (f : list bool -> list bool) (w : world) : world :=
  mkWorld (commit_wrapper w) (f (can_access_mc w)) (mc_lock w) (update_queue w)
    (log_dirs w) (commands_run w) (events w).
Definition set_mc_lock (b : bool) (w : world) : world :=
  mkWorld (commit_wrapper w) (can_access_mc w) b (update_queue w)
    (log_dirs w) (commands_run w) (events w).
Definition set_update_queue (f : list string -> list string) (w : world) : world :=
  mkWorld (commit_wrapper w) (can_access_mc w) (mc_lock w) (f (update_queue w))
    (log_dirs w) (commands_run w) (events w).
Definition set_log_dirs
    (f : gmap string (gset string) -> gmap string (gset string)) (w : world) : world :=
  mkWorld (commit_wrapper w) (can_access_mc w) (mc_lock w) (update_queue w)
    (f (log_dirs w)) (commands_run w) (events w).
Definition set_commands_run (n : nat) (w : world) : world :=
  mkWorld (commit_wrapper w) (can_access_mc w) (mc_lock w) (update_queue w)
    (log_dirs w) n (events w).
Definition add_event (e : event) (w : world) : world :=
  mkWorld (commit_wrapper w) (can_access_mc w) (mc_lock w) (update_queue w)
    (log_dirs w) (commands_run w) (events w ++ [e]).

(** The state [async_main] starts the tasks in. *)
Definition initial_world : world :=
  mkWorld [PStr "0"; PInt 0; PStr "default"; PStr ""; PStr ""] [false] false []
    ∅ 0 [].

Definition emit (e : event) : M world unit := modify (add_event e).
Definition sleep (seconds : Z) : M world unit := emit (Sleep seconds).
Definition mc_queue_put (message : option string) : M world unit :=
  emit (Put message).

(** [commit_wrapper[i]] and [commit_wrapper[i] = v]; out of range both
    raise [IndexError]. *)
Definition cw_get (i : nat) : M world pyval :=
  fun w =>
    match commit_wrapper w !! i with
    | Some v => Some (Ok v, w)
    | None => Some (Raise IndexError, w)
    end.
Definition cw_set (i : nat) (v : pyval) : M world unit :=
  fun w =>
    if (i <? length (commit_wrapper w))%nat
    then Some (Ok tt, set_commit_wrapper <[i := v]> w)
    else Some (Raise IndexError, w).

Definition get_can_access_mc : M world bool :=
  fun w =>
    match can_access_mc w !! 0%nat with
    | Some b => Some (Ok b, w)
    | None => Some (Raise IndexError, w)
    end.
Definition put_can_access_mc (b : bool) : M world unit :=
  fun w =>
    if (0 <? length (can_access_mc w))%nat
    then Some (Ok tt, set_can_access_mc <[0%nat := b]> w)
    else Some (Raise IndexError, w).

(** ** The deadlock checker *)

Definition deadlock_indicator : string := "Deadlock detected!".
Definition probe_bytes : list Z := [6; 0; 0; 0; 0; 0; 1; 1; 0].

Inductive probe_reply : Type :=
  | Replied (data : list Z)   (* [reader.read(4096)] returned within 10 s *)
  | NoReply                   (* [asyncio.TimeoutError] *)
  | ReadFailed.               (* the read raised, e.g. a connection reset *)

(** What one probe meets: whether the connection opens, how the read ends,
    and what the other tasks did to the shared state while the checker was
    suspended between sending the probe and the end of the read. *)
Record probe_env : Type := mkProbe {
  probe_connects : bool;
  probe_reply_of : probe_reply;
  meanwhile : world -> world
}.

Definition is_TimeoutError (e : exn) : bool :=
  match e with TimeoutError => true | _ => false end.

(** [await asyncio.wait_for(reader.read(4096), 10)]. *)
Definition await_probe_reply (p : probe_env) : M world unit :=
  emit (ProbeWait 10) ;;
  modify (meanwhile p) ;;
  match probe_reply_of p with
  | Replied _ => ret tt
  | NoReply => raise TimeoutError
  | ReadFailed => raise OSError
  end.

(** One turn of the [while True] loop of [deadlock_checker]. *)
Definition deadlock_checker_iteration (p : probe_env) : M world unit :=
  sleep 600 ;;
  believed_running <- get_can_access_mc ;;
  if negb believed_running then ret tt
  else
    try_except
      ((if probe_connects p then ret tt else raise OSError) ;;
       emit (ProbeSent probe_bytes) ;;
       try_finally
         (try_except
            (await_probe_reply p ;;
             error <- cw_get 3 ;;
             if decide (error = PStr deadlock_indicator)
             then cw_set 3 (PStr "")
             else ret tt)
            is_TimeoutError
            (fun _ =>
               still_running <- get_can_access_mc ;;
               if still_running
               then cw_set 3 (PStr deadlock_indicator)
               else ret tt))
         (emit ProbeClosed))
      is_Exception
      (fun _ => ret tt).

(** ** The environment of the supervisor *)

(** How a graceful stop ends: the child exits within the 120 seconds; or
    the wait times out; or the supervisor task itself is cancelled while it
    waits. *)
Inductive stop_outcome : Type :=
  | ExitedInTime (return_code : Z)
  | TimedOut
  | StopCancelled.

(** What one launch of the binary meets. The [pushed_] fields are the
    revision ids the webhook puts on the update queue while the supervisor
    is suspended at the corresponding place. *)
Record launch_env : Type := mkLaunch {
  launch_pid : Z;
  pushed_while_running : list string;
  exit_while_running : option Z;
  cancelled_while_running : bool;
  pushed_while_stopping : list string;
  stop : stop_outcome;
  pushed_while_rebuilding : list string
}.

(** The outside world: the exit status and the output lines of the n-th
    external command, the entries of [plugins_dir] with their [is_dir]
    flag, and the fate of each launch, by value of [total_counter]. *)
Record environment : Type := mkEnv {
  cmd_exit : nat -> Z;
  cmd_stdout : nat -> list string;
  plugin_entries : list (string * bool);
  launches : Z -> launch_env
}.

(** The local variables of [binary_runner] that live across iterations. *)
Record locals : Type := mkLocals {
  commit : string;
  commit_name : string;
  try_counter : Z;
  total_counter : Z
}.

(** The texts the supervisor stores in [commit_wrapper[3]]. *)
Definition msg_died : string :=
  "The PumpkinMC binary died for an unknown reason! Check the logs!".
Definition msg_update_repo (new_commit : string) : string :=
  "Unable to update the local repo to " +:+ new_commit.
Definition msg_update_plugins : string := "Unable to update the plugin repos!".
Definition msg_update_rust (new_commit : string) : string :=
  "Unable to update rust for new commit " +:+ new_commit.
Definition msg_build_plugins : string := "Unable to build plugins".
Definition msg_build_commit (new_commit : string) : string :=
  "Unable to build commit " +:+ new_commit.
Definition msg_failed_to_start : string := "The PumpkinMC binary failed to start!".

(** ** The file system under [log_dir] *)

(** [os.makedirs(path, exist_ok=True)]. *)
Definition makedirs (path : string) : M world unit :=
  modify (set_log_dirs (fun fs =>
    match fs !! path with
    | Some _ => fs
    | None => <[path := ∅]> fs
    end)).

(** [os.scandir(path)], as the list of entry names. *)
Definition scandir (path : string) : M world (list string) :=
  fun w =>
    match log_dirs w !! path with
    | Some names => Some (Ok (elements names), w)
    | None => Some (Raise OSError, w)
    end.

(** [open(os.path.join(dir, name), "w")]: the directory has to exist. *)
Definition open_w (dir name : string) : M world unit :=
  fun w =>
    match log_dirs w !! dir with
    | Some names =>
        Some (Ok tt, add_event (OpenW (Py.path_join dir name))
                       (set_log_dirs <[dir := {[name]} ∪ names]> w))
    | None => Some (Raise OSError, w)
    end.

(** The last component of [get_log_file_path]. *)
Definition log_file_name (counter : Z) (is_stderr : bool) : string :=
  (if is_stderr then "stderr" else "stdout") +:+ "_" +:+ Py.str counter +:+ ".txt".

Definition get_log_file_path (log_dir commit : string) (counter : Z)
    (is_stderr : bool) : string :=
  Py.path_join (Py.path_join log_dir commit) (log_file_name counter is_stderr).

(** [for x in xs: body x], stopping at the first exception. *)
Fixpoint for_each {St A} (xs : list A) (body : A -> M St unit) : M St unit :=
  match xs with
  | [] => ret tt
  | x :: xs' => body x ;; for_each xs' body
  end.

(** [await asyncio.gather] of the tasks, with the tasks run one after the other
    in list order: every task runs to its end, and the first exception, if
    any, is raised afterwards. This is what [asyncio.gather] does for no
    task and for one task. With two tasks or more the event loop interleaves
    their commands, and an exception is raised as soon as one task fails,
    while the others go on in the background; the order of the commands of
    different tasks and the moment of the exception are then not those of
    this definition. What is proved of the order of the events of a whole
    run is therefore stated for at most one entry in the plugin
    directory. *)
Fixpoint gather_from {St} (first : option exn) (tasks : list (M St unit))
    : M St unit :=
  match tasks with
  | [] => match first with
          | None => ret tt
          | Some e => raise e
          end
  | task :: tasks' =>
      fun s =>
        match task s with
        | None => None
        | Some (Ok _, s') => gather_from first tasks' s'
        | Some (Raise e, s') =>
            gather_from (Some (default e first)) tasks' s'
        end
  end.
Definition gather {St} (tasks : list (M St unit)) : M St unit :=
  gather_from None tasks.

(** [while True: try: body; break; except SubprocessError: handler]. *)
Fixpoint retry_until_success {A} (fuel : nat) (body : M world A)
    (handler : M world unit) : M world A :=
  match fuel with
  | O => diverge
  | S fuel' =>
      try_except body is_SubprocessError
        (fun _ => handler ;; retry_until_success fuel' body handler)
  end.

(** The queue loop at the end of [wait_for_process_or_signal]. *)
Fixpoint drain (new_commit : string) (queue : list string) : string :=
  match queue with
  | [] => new_commit
  | next :: queue' => drain next queue'
  end.

(** ** The supervisor: build steps, [wait_for_process_or_signal],
    [binary_runner] *)

Section Supervisor.

Variable env : environment.
Variables repo_dir plugins_dir log_dir : string.

(** [run_command]: the command runs to its end; a non-zero exit status
    raises [SubprocessError]. *)
Definition run_command (cmd : string) (rustflags : option string)
    : M world unit :=
  fun w =>
    let n := commands_run w in
    let w' := add_event (Command cmd rustflags) (set_commands_run (S n) w) in
    if cmd_exit env n =? 0 then Some (Ok tt, w')
    else Some (Raise SubprocessError, w').

(** [os.scandir(plugins_dir)], as (path, is_dir) pairs. *)
Definition scandir_plugins : list (string * bool) :=
  map (fun entry => (Py.path_join plugins_dir (fst entry), snd entry))
    (plugin_entries env).

(** [os.chdir]: it fails on an entry of [plugins_dir] that is a plain
    file. *)
Definition chdir (path : string) : M world unit :=
  if decide ((path, false) ∈ scandir_plugins) then raise OSError
  else emit (Chdir path).

Definition update_rust : M world unit := run_command "rustup update" None.

Definition update_git_repo (repo_dir : string) : M world unit :=
  chdir repo_dir ;;
  run_command "git reset --hard" None ;;
  run_command "git pull origin master" None.

Definition clean_current_directory : M world unit :=
  run_command "cargo clean" None.


(** The coroutines are created after every [os.chdir] has been made. *)
Definition clean_binary : M world unit :=
  chdir repo_dir ;;
  clean_current_directory ;;
  for_each scandir_plugins (fun path => chdir (fst path)) ;;
  gather (map (fun _ => clean_current_directory) scandir_plugins).

Definition build_repo (repo_dir : string) (target_native : bool)
    : M world unit :=
  chdir repo_dir ;;
  run_command "cargo build --release"
    (if target_native then Some "-C target-cpu=native" else None).

(** The creation of [repo_dir/plugins] and the moving of the built
    artifacts into it touch neither the state nor the events recorded
    here, and cannot raise [SubprocessError]; they are left out. *)
Definition build_plugins : M world unit :=
  let build_tasks :=
    map (fun entry => build_repo (fst entry) false)
      (filter (fun entry => snd entry = true) scandir_plugins) in
  match build_tasks with
  | [] => ret tt
  | _ :: _ => gather build_tasks
  end.

Definition git_log_command : string :=
  let quote := String (Ascii.ascii_of_nat 34) EmptyString in
  let newline := String (Ascii.ascii_of_nat 10) EmptyString in
  "git log -n 1 --pretty=format:" +:+ quote +:+ "%H" +:+ newline +:+ "%s" +:+ quote.

Definition get_repo_description (repo_dir : string)
    : M world (list string) :=
  chdir repo_dir ;;
  fun w =>
    let n := commands_run w in
    let w' := add_event (Command git_log_command None)
                (set_commands_run (S n) w) in
    if cmd_exit env n =? 0 then Some (Ok (cmd_stdout env n), w')
    else Some (Raise SubprocessError, w').

(** [commit, commit_name = ...]: anything but two lines is a
    [ValueError]. *)
Definition unpack2 (lines : list string) : M world (string * string) :=
  match lines with
  | [a; b] => ret (a, b)
  | _ => raise ValueError
  end.

Definition start_binary (binary_path : string) (l : launch_env)
    : M world Z :=
  emit (StartBinary binary_path (launch_pid l)) ;;
  ret (launch_pid l).

(** The supervisor takes the lock once the placeholder has released it;
    taking it twice would block for ever, releasing it when it is not
    held raises [RuntimeError]. *)
Definition mc_lock_acquire : M world unit :=
  fun w =>
    if mc_lock w then None
    else Some (Ok tt, add_event Acquire (set_mc_lock true w)).
Definition mc_lock_release : M world unit :=
  fun w =>
    if mc_lock w then Some (Ok tt, add_event Release (set_mc_lock false w))
    else Some (Raise RuntimeError, w).

Definition webhook_pushes (revisions : list string) : M world unit :=
  modify (set_update_queue (fun q => q ++ revisions)).

(** [await asyncio.wait_for(proc_task, 120)]. *)
Definition await_exit_within (l : launch_env) : M world (option Z) :=
  emit (AwaitExit (Some 120)) ;;
  webhook_pushes (pushed_while_stopping l) ;;
  match stop l with
  | ExitedInTime return_code => ret (Some return_code)
  | TimedOut => raise TimeoutError
  | StopCancelled => raise CancelledError
  end.

(** [await proc_task] after [proc.kill()]. When [wait_for] times out it
    cancels the task it was given, so [proc_task] is cancelled by now and
    awaiting it raises [CancelledError] at once: the exit of the killed
    child is not waited for. *)
Definition await_exit_after_kill : M world (option Z) :=
  raise CancelledError.

(** [wait_for_process_or_signal]. [kill_task] is done as soon as the
    update queue is not empty, and then it has taken the head of the
    queue; [proc_task] is done when the child exits on its own. The
    [finally] clause only cancels the two tasks, which changes nothing
    that is recorded here. *)
Definition wait_for_process_or_signal (l : launch_env)
    : M world (option string) :=
  webhook_pushes (pushed_while_running l) ;;
  if cancelled_while_running l then raise CancelledError
  else
    w <- get ;;
    match exit_while_running l, update_queue w with
    | Some _, [] => ret None
    | Some _, _ :: queue => modify (set_update_queue (fun _ => queue)) ;; ret None
    | None, [] => diverge
    | None, first :: queue =>
        modify (set_update_queue (fun _ => queue)) ;;
        emit SendSigint ;;
        try_except (await_exit_within l) is_TimeoutError
          (fun _ =>
             emit Kill ;;
             try_except await_exit_after_kill is_CancelledError
               (fun _ => ret None)) ;;
        w <- get ;;
        modify (set_update_queue (fun _ => [])) ;;
        ret (Some (drain first (update_queue w)))
    end.

Definition executable_path : string :=
  Py.path_join repo_dir "./target/release/pumpkin".

(** The generator handed to [max]: the numbers of the [stdout_] entries;
    [int] raises [ValueError] on anything else than a number. *)
Fixpoint attempt_numbers (names : list string) : M world (list Z) :=
  match names with
  | [] => ret []
  | name :: names' =>
      if Py.startswith name "stdout_"
      then
        match Py.int (Py.replace (Py.replace name "stdout_" "") ".txt" "") with
        | Some n => ns <- attempt_numbers names' ;; ret (n :: ns)
        | None => raise ValueError
        end
      else attempt_numbers names'
  end.

Definition sync_repo_step : M world unit :=
  mc_queue_put (Some "Updating Repo...") ;;
  update_git_repo repo_dir.

Definition sync_plugins_step : M world unit :=
  mc_queue_put (Some "Updating Plugin Repos...") ;;
  gather (map (fun path => update_git_repo (fst path)) scandir_plugins).

Definition build_plugins_step : M world unit :=
  mc_queue_put (Some "Building Plugins...") ;;
  build_plugins.

Definition build_binary_step : M world unit :=
  mc_queue_put (Some "Building Binary...") ;;
  build_repo repo_dir true.

Definition get_commit_step : M world (string * string) :=
  lines <- get_repo_description repo_dir ;;
  unpack2 lines.

(** Lines 547 to 583: the four [while True] loops of the start-up. *)
Definition update_rust_loop (fuel : nat) : M world unit :=
  retry_until_success fuel update_rust
    (mc_queue_put (Some "Failed to update rust!") ;; sleep 600).

Definition build_plugins_loop (fuel : nat) : M world unit :=
  retry_until_success fuel build_plugins_step
    (mc_queue_put (Some "Failed to build plugins!") ;; sleep 600).

Definition build_binary_loop (fuel : nat) : M world unit :=
  retry_until_success fuel build_binary_step
    (mc_queue_put (Some "Failed to build binary!") ;; sleep 600).

Definition get_commit_loop (fuel : nat) : M world (string * string) :=
  retry_until_success fuel get_commit_step
    (mc_queue_put (Some "Failed to get commit!") ;; sleep 600).

Definition build_stages (fuel : nat) : M world (string * string) :=
  update_rust_loop fuel ;;
  build_plugins_loop fuel ;;
  build_binary_loop fuel ;;
  get_commit_loop fuel.

(** Lines 538 to 583: from the plugin sync on. *)
Definition pipeline_after_repo_sync (fuel : nat) : M world (string * string) :=
  try_except sync_plugins_step is_SubprocessError (fun _ => ret tt) ;;
  build_stages fuel.

(** Lines 532 to 583: the pipeline run once when the supervisor starts. *)
Definition initial_pipeline (fuel : nat) : M world (string * string) :=
  try_except sync_repo_step is_SubprocessError (fun _ => ret tt) ;;
  pipeline_after_repo_sync fuel.

(** Lines 585 to 601: the log directory and the first attempt number. *)
Definition first_start (description : string * string) : M world locals :=
  let '(commit, commit_name) := description in
  let current_log_dir := Py.path_join log_dir commit in
  makedirs current_log_dir ;;
  names <- scandir current_log_dir ;;
  numbers <- attempt_numbers names ;;
  let try_counter := Py.max_default numbers 0 + 1 in
  cw_set 0 (PStr commit) ;;
  cw_set 2 (PStr commit_name) ;;
  ret (mkLocals commit commit_name try_counter 0).

(** Lines 603 to 619: one start of the binary. The two files opened are
    [get_log_file_path log_dir commit try_counter] and its [is_stderr]
    variant, given to [open_w] as directory and name. *)
Definition start_attempt (v : locals) : M world locals :=
  let total_counter := total_counter v + 1 in
  let l := launches env total_counter in
  cw_set 1 (PInt (try_counter v)) ;;
  open_w (Py.path_join log_dir (commit v)) (log_file_name (try_counter v) false) ;;
  open_w (Py.path_join log_dir (commit v)) (log_file_name (try_counter v) true) ;;
  mc_queue_put None ;;
  mc_lock_acquire ;;
  pid <- start_binary executable_path l ;;
  put_can_access_mc true ;;
  cw_set 3 (PStr "") ;;
  cw_set 4 (PInt pid) ;;
  ret (mkLocals (commit v) (commit_name v) (try_counter v) total_counter).

(** Lines 621 to 626: the wait, and its [finally] clause. *)
Definition supervise_child (v : locals) : M world (option string) :=
  try_finally (wait_for_process_or_signal (launches env (total_counter v)))
    (cw_set 4 (PStr "") ;;
     put_can_access_mc false ;;
     mc_lock_release).

(** Lines 628 to 634: the child went away on its own. *)
Definition unplanned_death (v : locals) : M world locals :=
  cw_set 3 (PStr msg_died) ;;
  mc_queue_put (Some "Binary failure! (Restarting in 5 minutes)") ;;
  sleep 300 ;;
  ret (mkLocals (commit v) (commit_name v) (try_counter v + 1) (total_counter v)).

(** A [try] block of the planned restart: [true] when the step went
    through, [false] when its [except] clause ran and ended in
    [continue]. *)
Definition attempt_step (step : M world unit) (on_failure : M world unit)
    : M world bool :=
  try_except (step ;; ret true) is_SubprocessError
    (fun _ => on_failure ;; ret false).

(** Lines 636 to 707: rebuild for the revision taken from the queue. *)
Definition planned_restart (fuel : nat) (v : locals) (new_commit : string)
    : M world locals :=
  let try_counter := try_counter v + 1 in
  let continue := mkLocals (commit v) (commit_name v) try_counter (total_counter v) in
  ok <- attempt_step sync_repo_step
          (cw_set 3 (PStr (msg_update_repo new_commit))) ;;
  if negb ok then ret continue else
  ok <- attempt_step sync_plugins_step
          (cw_set 3 (PStr msg_update_plugins)) ;;
  if negb ok then ret continue else
  ok <- attempt_step update_rust
          (mc_queue_put (Some "Failed to update rust!") ;;
           cw_set 3 (PStr (msg_update_rust new_commit))) ;;
  if negb ok then ret continue else
  (if total_counter v mod 50 =? 0
   then try_except clean_binary is_SubprocessError (fun _ => ret tt)
   else ret tt) ;;
  ok <- attempt_step build_plugins_step
          (mc_queue_put (Some "Failed to build plugins!") ;;
           cw_set 3 (PStr msg_build_plugins)) ;;
  if negb ok then ret continue else
  ok <- attempt_step build_binary_step
          (mc_queue_put (Some "Failed to build binary!") ;;
           cw_set 3 (PStr (msg_build_commit new_commit))) ;;
  if negb ok then ret continue else
  description <-
    retry_until_success fuel get_commit_step
      (mc_queue_put (Some "Failed to get commit!") ;;
       cw_set 3 (PStr msg_failed_to_start) ;;
       sleep 600) ;;
  let '(commit, commit_name) := description in
  makedirs (Py.path_join log_dir commit) ;;
  let try_counter := 0 in
  cw_set 0 (PStr commit) ;;
  cw_set 1 (PInt try_counter) ;;
  cw_set 2 (PStr commit_name) ;;
  ret (mkLocals commit commit_name try_counter (total_counter v)).

(** One turn of the [while True] loop of [binary_runner]. *)
Definition runner_iteration (fuel : nat) (v : locals) : M world locals :=
  v <- start_attempt v ;;
  new_commit <- supervise_child v ;;
  webhook_pushes (pushed_while_rebuilding (launches env (total_counter v))) ;;
  match new_commit with
  | None => unplanned_death v
  | Some new_commit => planned_restart fuel v new_commit
  end.

Fixpoint runner_loop (iterations fuel : nat) (v : locals) : M world locals :=
  match iterations with
  | O => ret v
  | S iterations' =>
      v <- runner_iteration fuel v ;;
      runner_loop iterations' fuel v
  end.

(** [binary_runner], cut after [iterations] turns of its main loop. *)
Definition binary_runner (iterations fuel : nat) : M world locals :=
  description <- initial_pipeline fuel ;;
  v <- first_start description ;;
  runner_loop iterations fuel v.

End Supervisor.

(** ** The placeholder's runner: [minecraft_runner] *)

(** What the runner does to the lock and to its listening socket. *)
Inductive notifier_event : Type :=
  | NtAcquire                       (* [mc_lock.acquire] *)
  | NtRelease                       (* [mc_lock.release] *)
  | NtStartServer (bound : bool)    (* [asyncio.start_server]: bound, or [OSError] *)
  | NtSleep (seconds : Z)
  | NtClose.                        (* [server.close] and [server.wait_closed] *)

(** [nt_message] is [message[0]], [nt_lock] tells whether [mc_lock] is
    locked, [nt_serving] whether the placeholder listens on the port, and
    [nt_starts] counts the calls of [asyncio.start_server]. *)
Record notifier : Type := mkNotifier {
  nt_message : string;
  nt_lock : bool;
  nt_serving : bool;
  nt_starts : nat;
  nt_events : list notifier_event
}.

Definition nt_emit (e : notifier_event) : M notifier unit :=
  modify (fun s =>
    mkNotifier (nt_message s) (nt_lock s) (nt_serving s) (nt_starts s)
      (nt_events s ++ [e])).

Definition nt_set_message (text : string) : M notifier unit :=
  modify (fun s =>
    mkNotifier text (nt_lock s) (nt_serving s) (nt_starts s) (nt_events s)).

(** Nobody else releases the lock in this model: acquiring it while it is
    locked waits for ever. *)
Definition nt_acquire : M notifier unit :=
  fun s =>
    if nt_lock s then None
    else Some (Ok tt, mkNotifier (nt_message s) true (nt_serving s) (nt_starts s)
                        (nt_events s ++ [NtAcquire])).

Definition nt_release : M notifier unit :=
  fun s =>
    if nt_lock s
    then Some (Ok tt, mkNotifier (nt_message s) false (nt_serving s) (nt_starts s)
                        (nt_events s ++ [NtRelease]))
    else Some (Raise RuntimeError, s).

(** [server.close()] followed by [await server.wait_closed()]; closing a
    closed server does nothing more. *)
Definition server_close : M notifier unit :=
  modify (fun s =>
    mkNotifier (nt_message s) (nt_lock s) false (nt_starts s)
      (nt_events s ++ [NtClose])).

Definition is_OSError (e : exn) : bool :=
  match e with OSError => true | _ => false end.

Section MinecraftRunner.

(** Whether the n-th call of [asyncio.start_server] raises [OSError]. *)
Variable bind_fails : nat -> bool.

Definition start_server : M notifier unit :=
  fun s =>
    let n := nt_starts s in
    if bind_fails n
    then Some (Raise OSError,
               mkNotifier (nt_message s) (nt_lock s) (nt_serving s) (S n)
                 (nt_events s ++ [NtStartServer false]))
    else Some (Ok tt,
               mkNotifier (nt_message s) (nt_lock s) true (S n)
                 (nt_events s ++ [NtStartServer true])).

(** Lines 483 to 495: bind the port, trying again every 300 seconds. *)
Fixpoint start_server_loop (fuel : nat) : M notifier unit :=
  match fuel with
  | O => diverge
  | S fuel' =>
      try_except start_server is_OSError
        (fun _ => nt_emit (NtSleep 300) ;; start_server_loop fuel')
  end.

(** Lines 480 to 504: the outer loop up to the inner one. The test
    [if not server] never holds after the [break], and [start_serving] does
    nothing on a server that [start_server] has already started. *)
Definition open_server (fuel : nat) : M notifier unit :=
  nt_acquire ;;
  start_server_loop fuel.

(** Lines 506 to 519, with the turn of the outer loop that a [break]
    leads to: [items] are the messages [mc_queue.get] returns, in order; the
    runner is cut where it waits for the next one. Leaving the [async with]
    block closes the server again. *)
Fixpoint serve (fuel : nat) (items : list (option string))
    (restart_server : bool) : M notifier unit :=
  match items with
  | [] => ret tt
  | None :: items' =>
      (if negb restart_server
       then server_close ;; nt_release
       else ret tt) ;;
      serve fuel items' true
  | Some new_message :: items' =>
      nt_set_message new_message ;;
      if restart_server
      then
        server_close ;;
        open_server fuel ;;
        serve fuel items' false
      else serve fuel items' restart_server
  end.

Definition minecraft_runner (fuel : nat) (items : list (option string))
    : M notifier unit :=
  nt_set_message "Booting up" ;;
  open_server fuel ;;
  serve fuel items false.

End MinecraftRunner.

(** The state the runner is started in by [async_main]. *)
Definition initial_notifier : notifier := mkNotifier "" false false 0 [].
(** * Vocabulary of the properties

    The definitions below are not part of the program: they name the
    states, the paths and the runs the properties are stated about. *)

(** [decodes r n len rest]: reading a variable-length integer from [r]
    gives [n], reports [len] bytes read, and leaves [rest] unread. *)
Definition decodes (r : StreamReader) (n len : Z) (rest : list Z) : Prop :=
  exists r', mc_read_var_int r = (Ok (n, len), r') /\ pending r' = rest.

Definition rejects (r : StreamReader) (rest : list Z) : Prop :=
  exists r', mc_read_var_int r = (Raise (MCException VarIntTooBig), r')
             /\ pending r' = rest.

Definition round_trip_values : list Z :=
  [0; 1; 127; 128; 16383; 16384; 268435455].

(** A short [json.dumps] stand-in for concrete runs of the handler. *)
Definition tag_dumps (d : mc_data) : string :=
  match d with
  | TextData text => "T" +:+ text
  | StatusData _ text => "S" +:+ text
  end.

(** The error texts of the supervisor. *)
Inductive supervisor_error : string -> Prop :=
  | error_died : supervisor_error msg_died
  | error_update_repo c : supervisor_error (msg_update_repo c)
  | error_update_plugins : supervisor_error msg_update_plugins
  | error_update_rust c : supervisor_error (msg_update_rust c)
  | error_build_plugins : supervisor_error msg_build_plugins
  | error_build_commit c : supervisor_error (msg_build_commit c)
  | error_failed_to_start : supervisor_error msg_failed_to_start.

(** The shared state at the moment [wait_for] returns or times out. *)
Definition probe_resumes (p : probe_env) (w : world) : world :=
  meanwhile p
    (add_event (ProbeWait 10)
       (add_event (ProbeSent probe_bytes) (add_event (Sleep 600) w))).

(** The state the main loop of [binary_runner] is entered in and comes back
    to: the two shared lists have their lengths, the lock is free, and the
    log directory of the current revision exists. *)
Definition ready (log_dir : string) (v : locals) (w : world) : Prop :=
  length (commit_wrapper w) = 5%nat /\
  length (can_access_mc w) = 1%nat /\
  mc_lock w = false /\
  is_Some (log_dirs w !! Py.path_join log_dir (commit v)).

Definition same_board (w w' : world) : Prop :=
  commit_wrapper w' = commit_wrapper w /\
  can_access_mc w' = can_access_mc w /\
  mc_lock w' = mc_lock w /\
  update_queue w' = update_queue w /\
  log_dirs w' = log_dirs w /\
  exists more, events w' = events w ++ more.

Definition quiet {A} (m : M world A) : Prop :=
  forall w out w', m w = Some (out, w') -> same_board w w'.

(** The world after the [finally] clause of the child wait: [actions] are
    what was done to the child, [queue] is what is left on the update
    queue. *)
Definition stopped (actions : list event) (queue : list string) (w : world)
    : world :=
  mkWorld
    (<[4%nat := PStr ""]> (commit_wrapper w))
    (<[0%nat := false]> (can_access_mc w))
    false
    queue
    (log_dirs w)
    (commands_run w)
    (events w ++ actions ++ [Release]).

(** The state while the binary runs. *)
Definition running (w : world) : Prop :=
  length (commit_wrapper w) = 5%nat /\
  length (can_access_mc w) = 1%nat /\
  mc_lock w = true.


(** What is done to the child once an update has arrived. *)
Definition shutdown_actions (l : launch_env) : list event :=
  match stop l with
  | TimedOut => [SendSigint; AwaitExit (Some 120); Kill]
  | _ => [SendSigint; AwaitExit (Some 120)]
  end.

(** The locals and the world a planned restart begins in, and the world
    the handling of an unplanned exit begins in. *)
Definition launched (v : locals) : locals :=
  mkLocals (commit v) (commit_name v) (try_counter v) (total_counter v + 1).

(** The five guarded steps of a planned restart, what each stores in the
    error field when it fails, and what it publishes then. *)
Inductive rebuild_step : Type :=
  | SyncRepo | SyncPlugins | UpdateRust | BuildPlugins | BuildBinary.

Definition step_error (s : rebuild_step) (new_commit : string) : string :=
  match s with
  | SyncRepo => msg_update_repo new_commit
  | SyncPlugins => msg_update_plugins
  | UpdateRust => msg_update_rust new_commit
  | BuildPlugins => msg_build_plugins
  | BuildBinary => msg_build_commit new_commit
  end.

Definition step_published (s : rebuild_step) : list event :=
  match s with
  | SyncRepo | SyncPlugins => []
  | UpdateRust => [Put (Some "Failed to update rust!")]
  | BuildPlugins => [Put (Some "Failed to build plugins!")]
  | BuildBinary => [Put (Some "Failed to build binary!")]
  end.

(** The world a failed step leaves: its status text published, and the
    error field set. *)
Definition aborted (s : rebuild_step) (new_commit : string) (w : world)
    : world :=
  mkWorld (<[3%nat := PStr (step_error s new_commit)]> (commit_wrapper w))
    (can_access_mc w) (mc_lock w) (update_queue w) (log_dirs w)
    (commands_run w) (events w ++ step_published s).

(** [fails_times body message n w w']: from [w], [body] raises
    [SubprocessError] [n] times in a row, each failure being followed by
    the publication of [message] and a sleep of 600 seconds; [w'] is the
    world before the next attempt. *)
Inductive fails_times {A} (body : M world A) (message : string)
    : nat -> world -> world -> Prop :=
  | fails_zero w : fails_times body message 0 w w
  | fails_succ n w w1 w' :
      body w = Some (Raise SubprocessError, w1) ->
      fails_times body message n
        (add_event (Sleep 600) (add_event (Put (Some message)) w1)) w' ->
      fails_times body message (S n) w w'.

(** A loop retries every 600 seconds, for ever: after any number of failed
    attempts a successful one ends it with the result of that attempt, and
    as long as the attempts fail it does not end. *)
Definition retries_every_600s {A} (loop : nat -> M world A) (body : M world A)
    (message : string) : Prop :=
  (forall n w wn a w',
     fails_times body message n w wn ->
     body wn = Some (Ok a, w') ->
     forall fuel, (n < fuel)%nat -> loop fuel w = Some (Ok a, w')) /\
  (forall w,
     (forall n wn, fails_times body message n w wn ->
                   exists w', body wn = Some (Raise SubprocessError, w')) ->
     forall fuel, loop fuel w = None).

(** The shape of the board that the rebuild keeps. *)
Definition board_shape (w0 w : world) : Prop :=
  length (commit_wrapper w) = length (commit_wrapper w0) /\
  can_access_mc w = can_access_mc w0 /\
  mc_lock w = mc_lock w0 /\
  log_dirs w = log_dirs w0.

(** The world after [n] failed toolchain updates in a row. *)
Definition rust_retried (n : nat) (w : world) : world :=
  mkWorld (commit_wrapper w) (can_access_mc w) (mc_lock w) (update_queue w)
    (log_dirs w) (commands_run w + n)
    (events w ++
     concat (repeat [Command "rustup update" None;
                     Put (Some "Failed to update rust!"); Sleep 600] n)).

Section Vocabulary.

Variable env : environment.
Variables repo_dir plugins_dir log_dir : string.

(** The world after a start of the binary. *)
Definition started (v : locals) (w : world) : world :=
  let dir := Py.path_join log_dir (commit v) in
  let l := launches env (total_counter v + 1) in
  mkWorld
    (<[4%nat := PInt (launch_pid l)]>
       (<[3%nat := PStr ""]>
          (<[1%nat := PInt (try_counter v)]> (commit_wrapper w))))
    (<[0%nat := true]> (can_access_mc w))
    true
    (update_queue w)
    (<[dir := {[log_file_name (try_counter v) true]}
              ∪ ({[log_file_name (try_counter v) false]}
                 ∪ default ∅ (log_dirs w !! dir))]> (log_dirs w))
    (commands_run w)
    (events w ++
       [OpenW (Py.path_join dir (log_file_name (try_counter v) false));
        OpenW (Py.path_join dir (log_file_name (try_counter v) true));
        Put None; Acquire;
        StartBinary (executable_path repo_dir) (launch_pid l)]).

Definition after_stop (v : locals) (w : world) : world :=
  let l := launches env (total_counter v + 1) in
  set_update_queue (fun q => q ++ pushed_while_rebuilding l)
    (stopped (shutdown_actions l) [] (started v w)).

Definition after_exit (v : locals) (w : world) : world :=
  let l := launches env (total_counter v + 1) in
  set_update_queue (fun q => q ++ pushed_while_rebuilding l)
    (stopped [] (tail (update_queue w ++ pushed_while_running l)) (started v w)).

(** Everything pushed before the drain ends. *)
Definition pushed_before_drain (v : locals) (w : world) : list string :=
  let l := launches env (total_counter v + 1) in
  update_queue w ++ pushed_while_running l ++ pushed_while_stopping l.

Definition step_body (s : rebuild_step) : M world unit :=
  match s with
  | SyncRepo => sync_repo_step env repo_dir plugins_dir
  | SyncPlugins => sync_plugins_step env plugins_dir
  | UpdateRust => update_rust env
  | BuildPlugins => build_plugins_step env plugins_dir
  | BuildBinary => build_binary_step env repo_dir plugins_dir
  end.

(** The cache clean of every fiftieth launch. *)
Definition maybe_clean (v : locals) : M world unit :=
  if total_counter v mod 50 =? 0
  then try_except (clean_binary env repo_dir plugins_dir) is_SubprocessError
         (fun _ => ret tt)
  else ret tt.

(** What runs before a given step when everything before it goes well. *)
Definition steps_before (v : locals) (s : rebuild_step) : M world unit :=
  match s with
  | SyncRepo => ret tt
  | SyncPlugins => step_body SyncRepo
  | UpdateRust => step_body SyncRepo ;; step_body SyncPlugins
  | BuildPlugins =>
      step_body SyncRepo ;; step_body SyncPlugins ;; step_body UpdateRust ;;
      maybe_clean v
  | BuildBinary =>
      step_body SyncRepo ;; step_body SyncPlugins ;; step_body UpdateRust ;;
      maybe_clean v ;; step_body BuildPlugins
  end.



(** The world at the end of a planned restart that went through: the
    directory of the new revision exists, and the board shows the new
    revision with attempt number 0. *)
Definition rebuilt (description : string * string) (w : world) : world :=
  let dir := Py.path_join log_dir (fst description) in
  mkWorld
    (<[2%nat := PStr (snd description)]>
       (<[1%nat := PInt 0]>
          (<[0%nat := PStr (fst description)]> (commit_wrapper w))))
    (can_access_mc w) (mc_lock w) (update_queue w)
    (match log_dirs w !! dir with
     | Some _ => log_dirs w
     | None => <[dir := ∅]> (log_dirs w)
     end)
    (commands_run w) (events w).

End Vocabulary.

(** ** Concrete runs *)

(** A supervisor about to start revision "aaa" for the first time. *)
Definition v_aaa : locals := mkLocals "aaa" "first commit" 1 0.
Definition w_aaa : world :=
  mkWorld [PStr "aaa"; PInt 0; PStr "first commit"; PStr ""; PStr ""] [false]
    false [] {["/logs/aaa" := ∅]} 5 [].

(** The child gets pid 4242; "bbb" is pushed while it runs and "ccc" while
    it is being stopped; it ignores SIGINT for 120 seconds. *)
Definition launch_updated : launch_env :=
  mkLaunch 4242 ["bbb"] None false ["ccc"] TimedOut [].

(** The child gets pid 4242 and exits with code 0. *)
Definition launch_exits_zero : launch_env :=
  mkLaunch 4242 [] (Some 0) false [] (ExitedInTime 0) [].


(** Every command succeeds but the one numbered [failing]. *)
Definition env_with (failing : nat) (l : launch_env) : environment :=
  mkEnv (fun n => if (n =? failing)%nat then 1 else 0)
    (fun n => if (n <? 10)%nat then ["aaa"; "first commit"]
              else ["bbb"; "second commit"])
    [("limiter", true)]
    (fun _ => l).

(** ** Vocabulary of the further properties *)

(** The two kinds of byte the encoder writes: every byte but the last has
    the high bit set. *)
Definition continuation_byte (b : Z) : Prop := 128 <= b <= 255.
Definition final_byte (b : Z) : Prop := 0 <= b <= 127.

(** The test the decoder makes on a byte it has read. *)
Definition has_continuation_bit (b : Z) : Prop := Z.land b 0x80 <> 0.

(** The packet [handle_mc] answers with for the JSON text [text]: the
    length of what follows, the packet id 0, the length of the text, and the
    text. *)
Definition reply_packet (text : string) (packet : list Z) : Prop :=
  exists length_prefix text_prefix,
    var_int_bytes (str_len text) = Some text_prefix /\
    var_int_bytes (1 + Z.of_nat (length text_prefix) + str_len text)
      = Some length_prefix /\
    packet = length_prefix ++ [0] ++ text_prefix ++ str_encode text.

(** A handshake as a client frames it: the length of what follows, the
    packet id 0, the protocol version, the server address with its length,
    the two bytes of the port, and the next state. *)
Definition handshake_frame (protocol_version : Z) (server_address port : list Z)
    (next_state : Z) : option (list Z) :=
  pv ← var_int_bytes protocol_version;
  al ← var_int_bytes (Z.of_nat (length server_address));
  ns ← var_int_bytes next_state;
  let body := [0] ++ pv ++ al ++ server_address ++ port ++ ns in
  lp ← var_int_bytes (Z.of_nat (length body));
  Some (lp ++ body).

(** A computation on a connection that writes and prints nothing, and
    raises nothing but an [Exception]. *)
Definition reads_only {A} (m : M connection A) (post : A -> Prop) : Prop :=
  forall c, exists out c',
    m c = Some (out, c') /\
    conn_writer c' = conn_writer c /\
    conn_printed c' = conn_printed c /\
    match out with
    | Ok a => post a
    | Raise e => is_Exception e = true
    end.

(** The two answers of [handle_mc]: both carry [current_error]. *)
Definition answers (current_error : string) (data : mc_data) : Prop :=
  data = TextData current_error \/
  exists protocol, data = StatusData protocol current_error.

Section HandleMCVocabulary.

Variable json_dumps : mc_data -> string.

(** Lines 424 to 431 of [handle_mc] on their own: the writing of the
    answer, and the drain. *)
Definition respond (data : mc_data) : M connection unit :=
  let data_string := json_dumps data in
  packet_id_length <- from_option (mc_var_int_length 0) ;;
  data_prefix_length <-
    from_option (mc_var_int_length (str_len data_string)) ;;
  on_writer (mc_write_var_int
               (packet_id_length + data_prefix_length
                + str_len data_string)) ;;
  on_writer (mc_write_var_int 0) ;;
  on_writer (mc_write_var_int (str_len data_string)) ;;
  on_writer (fun w => Some (write (str_encode data_string) w)) ;;
  await_drain.

(** A computation that prints nothing, and either raises an [Exception]
    without having written, or writes one answer and ends with the
    drain. *)
Definition answers_or_raises (current_error : string) (m : M connection unit)
    : Prop :=
  forall c, exists out c',
    m c = Some (out, c') /\
    conn_printed c' = conn_printed c /\
    ((exists e, out = Raise e /\ is_Exception e = true /\
                conn_writer c' = conn_writer c) \/
     (exists data packet,
        answers current_error data /\
        reply_packet (json_dumps data) packet /\
        conn_writer c' = write packet (conn_writer c) /\
        out = if connection_lost (conn_writer c) then Raise OSError
              else Ok tt)).

End HandleMCVocabulary.


(** Strings made of characters of one kind. *)
Fixpoint all_chars (p : ascii -> bool) (s : string) : bool :=
  match s with
  | EmptyString => true
  | String c s' => p c && all_chars p s'
  end.

(** The characters of a decimal numeral: the digits and the minus sign. *)
Definition numeral_char (c : ascii) : bool :=
  Py.is_digit c || Ascii.eqb c "-".

(** Two worlds that are the same but for the error field of the status
    board. *)
Definition differ_only_in_error (w1 w2 : world) : Prop :=
  length (commit_wrapper w2) = length (commit_wrapper w1) /\
  (forall i, i <> 3%nat -> commit_wrapper w2 !! i = commit_wrapper w1 !! i) /\
  can_access_mc w2 = can_access_mc w1 /\
  mc_lock w2 = mc_lock w1 /\
  update_queue w2 = update_queue w1 /\
  log_dirs w2 = log_dirs w1 /\
  commands_run w2 = commands_run w1 /\
  events w2 = events w1.

(** Two outcomes that are the same but for the error field. *)
Definition same_but_error {A} (r1 r2 : option (result A * world)) : Prop :=
  match r1, r2 with
  | Some (out1, w1), Some (out2, w2) => out1 = out2 /\ differ_only_in_error w1 w2
  | None, None => True
  | _, _ => False
  end.

(** The port ownership gate as the supervisor's actions show it: free, asked
    for (the stop request is on the status channel), or held. Building and
    logging are done while it is free, the child is started, signalled and
    awaited while it is held; any other order of events is refused. *)
Inductive gate : Type := Free | Asked | Held.

Definition gate_step (g : gate) (e : event) : option gate :=
  match e, g with
  | Put None, Free => Some Asked
  | Acquire, Asked => Some Held
  | (StartBinary _ _ | SendSigint | Kill | AwaitExit _), Held => Some Held
  | Release, Held => Some Free
  | (Put (Some _) | Sleep _ | Chdir _ | Command _ _ | OpenW _), Free => Some Free
  | _, _ => None
  end.

Fixpoint gate_run (g : gate) (evs : list event) : option gate :=
  match evs with
  | [] => Some g
  | e :: rest =>
      match gate_step g e with
      | Some g' => gate_run g' rest
      | None => None
      end
  end.

Definition build_event (e : event) : Prop := gate_step Free e = Some Free.
Definition child_event (e : event) : Prop := gate_step Held e = Some Held.

(** A computation that keeps the shape of the shared lists, the lock and
    the existing log directories, and only does what may be done while the
    gate is free. *)
Definition steady {A} (m : M world A) : Prop :=
  forall w out w', m w = Some (out, w') ->
    length (commit_wrapper w') = length (commit_wrapper w) /\
    can_access_mc w' = can_access_mc w /\
    mc_lock w' = mc_lock w /\
    (forall d, is_Some (log_dirs w !! d) -> is_Some (log_dirs w' !! d)) /\
    exists more, events w' = events w ++ more /\ Forall build_event more.

(** A computation that adds only events of the kind [P] to the trace. *)
Definition adds_only (P : event -> Prop) {A} (m : M world A) : Prop :=
  forall w out w', m w = Some (out, w') ->
    exists more, events w' = events w ++ more /\ Forall P more.

(** Any event but the run of [cargo clean]. *)
Definition not_a_clean (e : event) : Prop := e <> Command "cargo clean" None.

(** What a planned restart does before it cleans or builds. *)
Definition before_the_build (e : event) : Prop :=
  not_a_clean e /\ e <> Put (Some "Building Plugins...").

(** [w'] is [w] with the probe connection closed and the error field
    possibly rewritten to one of [errors]. *)
Definition probe_closed_with (errors : list pyval) (w w' : world) : Prop :=
  (commit_wrapper w' = commit_wrapper w \/
   exists error, In error errors /\
     commit_wrapper w' = <[3%nat := error]> (commit_wrapper w)) /\
  can_access_mc w' = can_access_mc w /\
  mc_lock w' = mc_lock w /\
  update_queue w' = update_queue w /\
  log_dirs w' = log_dirs w /\
  commands_run w' = commands_run w /\
  events w' = events w ++ [ProbeClosed].

(** The text of the last message that is not the stop request. *)
Fixpoint last_text (items : list (option string)) (text : string) : string :=
  match items with
  | [] => text
  | None :: items' => last_text items' text
  | Some text' :: items' => last_text items' text'
  end.

(** No [fuel] calls of [asyncio.start_server] in a row all fail. *)
Definition binds_within (bind_fails : nat -> bool) (fuel : nat) : Prop :=
  forall n, exists k, (k < fuel)%nat /\ bind_fails (n + k)%nat = false.

(** Whether the runner has stopped serving after [items], when [stopped]
    tells whether it had before them: the last message decides. *)
Fixpoint stopped_after (items : list (option string)) (stopped : bool) : bool :=
  match items with
  | [] => stopped
  | None :: items' => stopped_after items' true
  | Some _ :: items' => stopped_after items' false
  end.

(** The port as the runner's actions show it: the lock is not held by the
    runner; it is held and the port is not bound; the port is bound. Any
    other order of events is refused. *)
Inductive port : Type := Unlocked | Locked | Listening.

Definition port_step (p : port) (e : notifier_event) : option port :=
  match e, p with
  | NtAcquire, Unlocked => Some Locked
  | (NtStartServer false | NtSleep _), Locked => Some Locked
  | NtStartServer true, Locked => Some Listening
  | NtClose, Listening => Some Locked
  | NtClose, Unlocked => Some Unlocked
  | NtRelease, Locked => Some Unlocked
  | _, _ => None
  end.

Fixpoint port_run (p : port) (evs : list notifier_event) : option port :=
  match evs with
  | [] => Some p
  | e :: rest =>
      match port_step p e with
      | Some p' => port_run p' rest
      | None => None
      end
  end.

(** The runner between two messages: serving with the lock held, or
    stopped with the lock released. *)
Definition at_rest (stopped : bool) (s : notifier) : Prop :=
  nt_lock s = negb stopped /\
  nt_serving s = negb stopped /\
  port_run Unlocked (nt_events s) = Some (if stopped then Unlocked else Listening).

(** The messages put on the status channel, in order. *)
Fixpoint published (evs : list event) : list (option string) :=
  match evs with
  | [] => []
  | Put message :: rest => message :: published rest
  | _ :: rest => published rest
  end.

(** * Properties *)

(** ** Streams *)

Lemma wait_for_data_pending (chunks : list (list Z)) :
  pending (wait_for_data chunks) = concat chunks.
Proof.
  induction chunks as [|chunk chunks IH]; [reflexivity|].
  destruct chunk as [|b bs]; [exact IH|reflexivity].
Qed.

Lemma wait_for_data_empty (chunks : list (list Z)) :
  buffer (wait_for_data chunks) = [] -> concat chunks = [].
Proof.
  induction chunks as [|chunk chunks IH]; [reflexivity|].
  destruct chunk as [|b bs]; [exact IH|discriminate].
Qed.

(** Reading one byte takes the head of what is pending, however it is
    split into chunks. *)
Lemma read_one_cons (r : StreamReader) (b : Z) (rest : list Z) :
  pending r = b :: rest ->
  exists r', read 1 r = ([b], r') /\ pending r' = rest.
Proof.
  destruct r as [buf chunks]. unfold pending, read. cbn [buffer feed].
  intros H. destruct buf as [|b' buf].
  - cbn in H. pose proof (wait_for_data_pending chunks) as Hp.
    destruct (wait_for_data chunks) as [buf' chunks'] eqn:Hw.
    unfold pending in Hp. cbn [buffer feed] in *.
    destruct buf' as [|b' buf'].
    + pose proof (wait_for_data_empty chunks) as He. rewrite Hw in He.
      rewrite He in H by reflexivity. discriminate.
    + rewrite H in Hp. cbn in Hp. injection Hp as -> Hp.
      eexists. split; [reflexivity|]. exact Hp.
  - cbn in H. injection H as -> <-. eexists. split; reflexivity.
Qed.

Lemma read_one_nil (r : StreamReader) :
  pending r = [] -> exists r', read 1 r = ([], r') /\ pending r' = [].
Proof.
  destruct r as [buf chunks]. unfold pending, read. cbn [buffer feed].
  intros H. apply app_eq_nil in H as [-> H]. cbn.
  pose proof (wait_for_data_pending chunks) as Hp.
  destruct (wait_for_data chunks) as [buf' chunks'].
  unfold pending in Hp. cbn [buffer feed] in *. rewrite H in Hp.
  apply app_eq_nil in Hp as [-> Hp]. eexists. split; [reflexivity|].
  unfold pending. cbn. exact Hp.
Qed.

(** ** The variable-length integer codec *)

(** One turn of the decoding loop on a stream that still has a byte. *)
Lemma mc_read_var_int_loop_cons (fuel : nat) (value position bytes_read : Z)
    (r : StreamReader) (b : Z) (rest : list Z) :
  pending r = b :: rest ->
  exists r', pending r' = rest /\
    mc_read_var_int_loop (S fuel) value position bytes_read r =
      if Z.land b 0x80 =? 0
      then Some (Ok (Z.lor value (Z.shiftl (Z.land b 0x7F) position),
                     bytes_read + 1), r')
      else if 32 <=? position + 7
           then Some (Raise (MCException VarIntTooBig), r')
           else mc_read_var_int_loop fuel
                  (Z.lor value (Z.shiftl (Z.land b 0x7F) position))
                  (position + 7) (bytes_read + 1) r'.
Proof.
  intros H. destruct (read_one_cons r b rest H) as (r' & Hr & Hp).
  exists r'. split; [exact Hp|]. cbn [mc_read_var_int_loop]. rewrite Hr.
  reflexivity.
Qed.

(** The decoding loop never runs out of its fuel. *)
Lemma mc_read_var_int_loop_fuel (fuel : nat) :
  forall value position bytes_read r,
    position < 32 -> 35 <= 7 * Z.of_nat fuel + position ->
    exists out, mc_read_var_int_loop fuel value position bytes_read r = Some out.
Proof.
  induction fuel as [|fuel IH]; intros value position bytes_read r Hlt Hge.
  - lia.
  - cbn [mc_read_var_int_loop]. destruct (read 1 r) as [data r'].
    destruct data as [|b data]; [eauto|].
    destruct (Z.land b 128 =? 0); [eauto|].
    destruct (32 <=? position + 7) eqn:Hpos; [eauto|].
    apply IH; lia.
Qed.

Lemma mc_read_var_int_unfold (r : StreamReader) :
  mc_read_var_int_loop 5 0 0 0 r = Some (mc_read_var_int r).
Proof.
  unfold mc_read_var_int.
  destruct (mc_read_var_int_loop_fuel 5 0 0 0 r) as [out ->]; [lia|lia|].
  reflexivity.
Qed.

Ltac read_var_int_step P :=
  match goal with
  | |- context [mc_read_var_int_loop (S ?f) ?v ?p ?n ?r] =>
      let r' := fresh "r" in
      let P' := fresh "P" in
      let E := fresh "E" in
      destruct (mc_read_var_int_loop_cons f v p n r _ _ P) as (r' & P' & E);
      rewrite E; clear E
  end.

(** Five continuation bytes in a row: the decoder raises at the fifth. *)
Lemma mc_read_var_int_five_continuations (r : StreamReader)
    (b1 b2 b3 b4 b5 : Z) (rest : list Z) :
  pending r = b1 :: b2 :: b3 :: b4 :: b5 :: rest ->
  Z.land b1 0x80 <> 0 -> Z.land b2 0x80 <> 0 -> Z.land b3 0x80 <> 0 ->
  Z.land b4 0x80 <> 0 -> Z.land b5 0x80 <> 0 ->
  exists r', mc_read_var_int r = (Raise (MCException VarIntTooBig), r')
             /\ pending r' = rest.
Proof.
  intros H H1 H2 H3 H4 H5.
  apply Z.eqb_neq in H1, H2, H3, H4, H5.
  assert (Hs : exists r', mc_read_var_int_loop 5 0 0 0 r =
                 Some (Raise (MCException VarIntTooBig), r') /\ pending r' = rest).
  { read_var_int_step H. rewrite H1.
    replace (32 <=? 0 + 7) with false by reflexivity.
    read_var_int_step P. rewrite H2.
    replace (32 <=? 0 + 7 + 7) with false by reflexivity.
    read_var_int_step P0. rewrite H3.
    replace (32 <=? 0 + 7 + 7 + 7) with false by reflexivity.
    read_var_int_step P1. rewrite H4.
    replace (32 <=? 0 + 7 + 7 + 7 + 7) with false by reflexivity.
    read_var_int_step P2. rewrite H5.
    replace (32 <=? 0 + 7 + 7 + 7 + 7 + 7) with true by reflexivity.
    eauto. }
  destruct Hs as (r' & Hs & Hp). exists r'. split; [|exact Hp].
  pose proof (mc_read_var_int_unfold r) as Hu. congruence.
Qed.

(** Runs the decoding loop over the bytes known to be pending, deciding the
    tests on concrete bytes by computation. *)
Ltac read_var_int_run P :=
  lazymatch goal with
  | |- context [mc_read_var_int_loop (S ?f) ?v ?p ?n ?r] =>
      let r' := fresh "r" in
      let P' := fresh "P" in
      let E := fresh "E" in
      destruct (mc_read_var_int_loop_cons f v p n r _ _ P) as (r' & P' & E);
      rewrite E; clear E;
      repeat match goal with
        | |- context [Z.land ?b 128 =? 0] =>
            let c := eval vm_compute in (Z.land b 128 =? 0) in
            change (Z.land b 128 =? 0) with c
        | |- context [32 <=? ?q] =>
            let c := eval vm_compute in (32 <=? q) in
            change (32 <=? q) with c
        end;
      cbv iota;
      try read_var_int_run P'
  end.

Lemma decodes_of_loop (r : StreamReader) (n len : Z) (rest : list Z) :
  (exists r', mc_read_var_int_loop 5 0 0 0 r = Some (Ok (n, len), r')
              /\ pending r' = rest) ->
  decodes r n len rest.
Proof.
  intros (r' & H & Hp). exists r'. split; [|exact Hp].
  pose proof (mc_read_var_int_unfold r). congruence.
Qed.

(** *** The codec on every number of at most 35 bits *)

Lemma land_ones7_small (n : Z) : 0 <= n < 128 -> Z.land n 127 = n.
Proof.
  intros H. change 127 with (Z.ones 7). rewrite Z.land_ones by lia.
  apply Z.mod_small. exact H.
Qed.

Lemma high_bits_shift (n : Z) :
  Z.land n (Z.lnot 127) = Z.shiftl (Z.shiftr n 7) 7.
Proof.
  rewrite <- Z.ldiff_land. change 127 with (Z.ones 7).
  apply Z.ldiff_ones_r. lia.
Qed.

Lemma high_bits_zero (n : Z) : 0 <= n < 128 -> Z.land n (Z.lnot 127) = 0.
Proof.
  intros H. rewrite high_bits_shift, Z.shiftr_div_pow2 by lia.
  rewrite Z.div_small by (change (2 ^ 7) with 128; lia). reflexivity.
Qed.

Lemma high_bits_nonzero (n : Z) : 128 <= n -> Z.land n (Z.lnot 127) <> 0.
Proof.
  intros H. rewrite high_bits_shift, Z.shiftr_div_pow2, Z.shiftl_mul_pow2 by lia.
  change (2 ^ 7) with 128.
  assert (1 <= n / 128) by (apply Z.div_le_lower_bound; lia). lia.
Qed.

Lemma low_seven_and_rest (n : Z) :
  Z.lor (Z.land n 127) (Z.shiftl (Z.shiftr n 7) 7) = n.
Proof.
  rewrite <- high_bits_shift, <- Z.land_lor_distr_r.
  rewrite Z.lor_lnot_diag, Z.land_m1_r. reflexivity.
Qed.

Lemma continuation_byte_low (n : Z) :
  Z.land (Z.lor (Z.land n 127) 128) 127 = Z.land n 127.
Proof.
  rewrite Z.land_lor_distr_l, <- Z.land_assoc.
  change (Z.land 127 127) with 127. change (Z.land 128 127) with 0.
  apply Z.lor_0_r.
Qed.

Lemma continuation_byte_high (n : Z) :
  Z.land (Z.lor (Z.land n 127) 128) 128 <> 0.
Proof.
  rewrite Z.land_lor_distr_l, <- Z.land_assoc.
  change (Z.land 127 128) with 0. change (Z.land 128 128) with 128.
  rewrite Z.land_0_r. discriminate.
Qed.

Lemma final_byte_high (n : Z) : 0 <= n < 128 -> Z.land n 128 = 0.
Proof.
  intros H. rewrite <- (land_ones7_small n H), <- Z.land_assoc.
  change (Z.land 127 128) with 0. apply Z.land_0_r.
Qed.

Lemma lor_shift_split (value n position : Z) :
  0 <= position ->
  Z.lor (Z.lor value (Z.shiftl (Z.land n 127) position))
        (Z.shiftl (Z.shiftr n 7) (position + 7))
  = Z.lor value (Z.shiftl n position).
Proof.
  intros H. rewrite <- Z.lor_assoc. f_equal.
  rewrite (Z.add_comm position 7), <- Z.shiftl_shiftl by lia.
  rewrite <- Z.shiftl_lor, low_seven_and_rest. reflexivity.
Qed.

Lemma write_write (a b : list Z) (w : StreamWriter) :
  write b (write a w) = write (a ++ b) w.
Proof. unfold write. cbn. rewrite app_assoc. reflexivity. Qed.

(** The encoder, the length function and the decoder on a number of at
    most [7 * (k + 1)] bits. *)
Lemma var_int_loops (k : nat) :
  forall n, 0 <= n < 2 ^ (7 * Z.of_nat (S k)) ->
  exists bytes,
    (length bytes <= S k)%nat /\
    (forall fuel w, (k < fuel)%nat ->
       mc_write_var_int_loop fuel n w = Some (write bytes w)) /\
    (forall fuel len, (k < fuel)%nat ->
       mc_var_int_length_loop fuel len n = Some (len + Z.of_nat (length bytes))) /\
    (forall fuel value position bytes_read r rest,
       (k < fuel)%nat -> 0 <= position -> position + 7 * Z.of_nat k < 32 ->
       pending r = bytes ++ rest ->
       exists r',
         mc_read_var_int_loop fuel value position bytes_read r =
           Some (Ok (Z.lor value (Z.shiftl n position),
                     bytes_read + Z.of_nat (length bytes)), r')
         /\ pending r' = rest).
Proof.
  induction k as [|k IH]; intros n Hn.
  - assert (Hsmall : 0 <= n < 128)
      by (change (2 ^ (7 * Z.of_nat 1)) with 128 in Hn; lia).
    exists [n]. split; [cbn; lia|]. split; [|split].
    + intros [|fuel] w Hf; [lia|]. cbn [mc_write_var_int_loop].
      rewrite high_bits_zero by assumption. reflexivity.
    + intros [|fuel] len Hf; [lia|]. cbn [mc_var_int_length_loop].
      rewrite high_bits_zero by assumption. reflexivity.
    + intros [|fuel] value position bytes_read r rest Hf Hp Hlt Hpend; [lia|].
      destruct (mc_read_var_int_loop_cons fuel value position bytes_read r n rest Hpend)
        as (r' & Hr' & ->).
      rewrite final_byte_high, land_ones7_small by assumption.
      exists r'. split; [reflexivity|exact Hr'].
  - destruct (Z_lt_le_dec n 128) as [Hsmall|Hbig].
    + destruct (IH n) as (bytes & Hlen & Hw & Hl & Hr).
      { split; [lia|]. apply Z.lt_le_trans with 128; [lia|].
        change 128 with (2 ^ 7). apply Z.pow_le_mono_r; lia. }
      exists bytes. split; [lia|]. split; [|split].
      * intros fuel w Hf. apply Hw. lia.
      * intros fuel len Hf. apply Hl. lia.
      * intros fuel value position bytes_read r rest Hf Hp Hlt Hpend.
        apply Hr; try assumption; lia.
    + destruct (IH (Z.shiftr n 7)) as (bytes & Hlen & Hw & Hl & Hr).
      { rewrite Z.shiftr_div_pow2 by lia. change (2 ^ 7) with 128. split.
        - apply Z.div_pos; lia.
        - apply Z.div_lt_upper_bound; [lia|].
          replace (128 * 2 ^ (7 * Z.of_nat (S k)))
            with (2 ^ (7 * Z.of_nat (S (S k)))); [exact (proj2 Hn)|].
          replace (7 * Z.of_nat (S (S k))) with (7 + 7 * Z.of_nat (S k)) by lia.
          rewrite Z.pow_add_r by lia. reflexivity. }
      exists (Z.lor (Z.land n 127) 128 :: bytes).
      split; [cbn [length]; lia|]. split; [|split].
      * intros [|fuel] w Hf; [lia|]. cbn [mc_write_var_int_loop].
        destruct (Z.land n (Z.lnot 127) =? 0) eqn:E.
        { apply Z.eqb_eq in E. apply high_bits_nonzero in E; [contradiction|lia]. }
        rewrite Hw by lia. rewrite write_write. reflexivity.
      * intros [|fuel] len Hf; [lia|]. cbn [mc_var_int_length_loop].
        destruct (Z.land n (Z.lnot 127) =? 0) eqn:E.
        { apply Z.eqb_eq in E. apply high_bits_nonzero in E; [contradiction|lia]. }
        rewrite Hl by lia. f_equal. cbn [length]. lia.
      * intros [|fuel] value position bytes_read r rest Hf Hp Hlt Hpend; [lia|].
        cbn [app] in Hpend.
        destruct (mc_read_var_int_loop_cons fuel value position bytes_read r _ _ Hpend)
          as (r1 & Hr1 & ->).
        destruct (Z.land (Z.lor (Z.land n 127) 128) 128 =? 0) eqn:E.
        { apply Z.eqb_eq in E. apply continuation_byte_high in E. contradiction. }
        destruct (32 <=? position + 7) eqn:E32; [apply Z.leb_le in E32; lia|].
        rewrite continuation_byte_low.
        destruct (Hr fuel (Z.lor value (Z.shiftl (Z.land n 127) position))
                    (position + 7) (bytes_read + 1) r1 rest)
          as (r' & Hdec & Hr'); [lia|lia|lia|exact Hr1|].
        exists r'. split; [|exact Hr'].
        rewrite Hdec, lor_shift_split by lia.
        cbn [length]. rewrite Nat2Z.inj_succ.
        replace (bytes_read + 1 + Z.of_nat (length bytes))
          with (bytes_read + Z.succ (Z.of_nat (length bytes))) by lia.
        reflexivity.
Qed.

(** Every number below 2^35 survives the round trip: the encoder writes
    one to five bytes, [mc_var_int_length] counts them, and the decoder
    gives the number back from any stream that starts with them. *)
Theorem var_int_round_trip (n : Z) :
  0 <= n < 2 ^ 35 ->
  exists bytes,
    var_int_bytes n = Some bytes /\
    (1 <= length bytes <= 5)%nat /\
    mc_var_int_length n = Some (Z.of_nat (length bytes)) /\
    forall r rest, pending r = bytes ++ rest ->
      decodes r n (Z.of_nat (length bytes)) rest.
Proof.
  intros Hn.
  set (k := Z.to_nat (Z.log2 n / 7)).
  assert (Hlog : 0 <= Z.log2 n < 35).
  { split; [apply Z.log2_nonneg|].
    destruct (Z.eq_dec n 0) as [->|Hne]; [cbn; lia|].
    apply Z.log2_lt_pow2; lia. }
  assert (Hk : (k <= 4)%nat).
  { subst k. assert (Z.log2 n / 7 < 5) by (apply Z.div_lt_upper_bound; lia).
    assert (0 <= Z.log2 n / 7) by (apply Z.div_pos; lia). lia. }
  assert (Hbound : 0 <= n < 2 ^ (7 * Z.of_nat (S k))).
  { split; [lia|].
    destruct (Z.eq_dec n 0) as [->|Hne]; [apply Z.pow_pos_nonneg; lia|].
    apply Z.lt_le_trans with (2 ^ (Z.succ (Z.log2 n))).
    - apply Z.log2_spec. lia.
    - apply Z.pow_le_mono_r; [lia|]. subst k.
      assert (0 <= Z.log2 n / 7) by (apply Z.div_pos; lia).
      pose proof (Z.mul_succ_div_gt (Z.log2 n) 7 ltac:(lia)). lia. }
  assert (Hfuel : (k < var_int_fuel n)%nat).
  { unfold var_int_fuel. subst k.
    assert (Z.log2 n / 7 <= Z.log2 n) by (apply Z.div_le_upper_bound; lia).
    assert (0 <= Z.log2 n / 7) by (apply Z.div_pos; lia). lia. }
  destruct (var_int_loops k n Hbound) as (bytes & Hlen & Hw & Hl & Hr).
  exists bytes. split; [|split; [|split]].
  - unfold var_int_bytes, mc_write_var_int. rewrite Hw by exact Hfuel.
    reflexivity.
  - split; [|lia]. destruct bytes; [|cbn; lia].
    specialize (Hr 5%nat 0 0 0 (mkReader [] []) [] ltac:(lia) ltac:(lia) ltac:(lia)
                  eq_refl).
    destruct Hr as (r' & Hr & _). discriminate Hr.
  - unfold mc_var_int_length. rewrite Hl by exact Hfuel. reflexivity.
  - intros r rest Hpend. apply decodes_of_loop.
    destruct (Hr 5%nat 0 0 0 r rest ltac:(lia) ltac:(lia) ltac:(lia) Hpend)
      as (r' & Hdec & Hr').
    exists r'. split; [|exact Hr'].
    rewrite Hdec, Z.shiftl_0_r, Z.lor_0_l. reflexivity.
Qed.

(** A negative number keeps the encoder going for ever. *)
Lemma mc_write_var_int_negative (fuel : nat) :
  forall num w, num < 0 -> mc_write_var_int_loop fuel num w = None.
Proof.
  induction fuel as [|fuel IH]; intros num w Hneg; [reflexivity|].
  cbn [mc_write_var_int_loop].
  destruct (Z.land num (Z.lnot 127) =? 0) eqn:E.
  - apply Z.eqb_eq in E.
    assert (Z.land num (Z.lnot 127) < 0)
      by (apply Z.land_neg; split; [lia|reflexivity]).
    lia.
  - apply IH. apply Z.shiftr_neg. exact Hneg.
Qed.

Lemma var_int_fuel_enough (n : Z) :
  0 <= n ->
  exists k, (k < var_int_fuel n)%nat /\ 0 <= n < 2 ^ (7 * Z.of_nat (S k)).
Proof.
  intros Hn. exists (Z.to_nat (Z.log2 n / 7)).
  pose proof (Z.log2_nonneg n) as Hlog.
  assert (Hq : 0 <= Z.log2 n / 7) by (apply Z.div_pos; lia).
  split.
  - unfold var_int_fuel.
    assert (Z.log2 n / 7 <= Z.log2 n) by (apply Z.div_le_upper_bound; lia).
    lia.
  - split; [lia|].
    destruct (Z.eq_dec n 0) as [->|Hne]; [apply Z.pow_pos_nonneg; lia|].
    apply Z.lt_le_trans with (2 ^ (Z.succ (Z.log2 n))).
    + apply Z.log2_spec. lia.
    + apply Z.pow_le_mono_r; [lia|].
      pose proof (Z.mul_succ_div_gt (Z.log2 n) 7 ltac:(lia)). lia.
Qed.

(** On a non-negative number the encoder and the length function end, and
    agree. *)
Lemma mc_write_var_int_total (n : Z) :
  0 <= n ->
  exists bytes,
    mc_var_int_length n = Some (Z.of_nat (length bytes)) /\
    forall w, mc_write_var_int n w = Some (write bytes w).
Proof.
  intros Hn. destruct (var_int_fuel_enough n Hn) as (k & Hk & Hb).
  destruct (var_int_loops k n Hb) as (bytes & _ & Hw & Hl & _).
  exists bytes. split.
  - unfold mc_var_int_length. rewrite Hl by exact Hk. reflexivity.
  - intros w. apply Hw, Hk.
Qed.

(** *** What a read takes from the stream *)

Lemma read_pending (n : Z) (r r' : StreamReader) (data : list Z) :
  read n r = (data, r') -> pending r = data ++ pending r'.
Proof.
  unfold read. destruct (n =? 0); [intros [= <- <-]; reflexivity|].
  destruct (n <? 0).
  { intros [= <- <-]. unfold pending. cbn. rewrite !app_nil_r. reflexivity. }
  intros [= <- <-]. unfold pending. cbn [buffer feed].
  destruct (buffer r) as [|b bs] eqn:Hbuf.
  - cbn [app]. rewrite <- (wait_for_data_pending (feed r)).
    unfold pending. rewrite app_assoc, take_drop. reflexivity.
  - rewrite Hbuf, app_assoc, take_drop. reflexivity.
Qed.

Lemma read_length (n : Z) (r r' : StreamReader) (data : list Z) :
  0 <= n -> read n r = (data, r') -> Z.of_nat (length data) <= n.
Proof.
  intros Hn. unfold read. destruct (n =? 0) eqn:E0; [intros [= <- <-]; cbn; lia|].
  destruct (n <? 0) eqn:Eneg; [apply Z.ltb_lt in Eneg; lia|].
  intros [= <- <-]. rewrite length_take. lia.
Qed.

(** The byte count a successful decoding reports is the number of bytes it
    took from the stream. *)
Lemma mc_read_var_int_loop_consumed (fuel : nat) :
  forall value position bytes_read r n len r',
    mc_read_var_int_loop fuel value position bytes_read r = Some (Ok (n, len), r') ->
    exists bytes, pending r = bytes ++ pending r'
                  /\ len = bytes_read + Z.of_nat (length bytes).
Proof.
  induction fuel as [|fuel IH]; intros value position bytes_read r n len r' H;
    [discriminate|].
  cbn [mc_read_var_int_loop] in H.
  destruct (read 1 r) as [data r1] eqn:Hread.
  pose proof (read_pending 1 r r1 data Hread) as Hp.
  pose proof (read_length 1 r r1 data ltac:(lia) Hread) as Hl.
  destruct data as [|b data]; [discriminate|].
  destruct data as [|b' data]; [|cbn in Hl; lia].
  destruct (Z.land b 128 =? 0).
  - injection H as <- <- <-. exists [b]. split; [exact Hp|reflexivity].
  - destruct (32 <=? position + 7); [discriminate|].
    apply IH in H as (bytes & Hp' & ->).
    exists (b :: bytes). split.
    + rewrite Hp, Hp'. reflexivity.
    + cbn [length]. lia.
Qed.


(** C6. For each of 0, 1, 127, 128, 16383, 16384 and 268435455, the bytes
    the encoder writes decode back to the value, whatever follows them on
    the stream and however the stream is cut into chunks, and the byte
    count the decoder reports is the number of bytes written (which is
    also what [mc_var_int_length] computes). A stream that starts with five
    bytes that all have the high bit set makes the decoder raise the
    protocol error, and every byte after the fifth is left unread. *)
Theorem var_int_round_trip_and_guard :
  (forall n, In n round_trip_values ->
     exists bytes,
       var_int_bytes n = Some bytes /\
       mc_var_int_length n = Some (Z.of_nat (length bytes)) /\
       forall r rest, pending r = bytes ++ rest ->
         decodes r n (Z.of_nat (length bytes)) rest) /\
  (forall r b1 b2 b3 b4 b5 rest,
     pending r = b1 :: b2 :: b3 :: b4 :: b5 :: rest ->
     Z.land b1 0x80 <> 0 -> Z.land b2 0x80 <> 0 -> Z.land b3 0x80 <> 0 ->
     Z.land b4 0x80 <> 0 -> Z.land b5 0x80 <> 0 ->
     rejects r rest).
Proof.
  split.
  - intros n Hn. unfold round_trip_values in Hn. cbn [In] in Hn.
    destruct Hn as [<-|[<-|[<-|[<-|[<-|[<-|[<-|[]]]]]]]];
      (eexists; split; [vm_compute; reflexivity|];
       split; [vm_compute; reflexivity|];
       intros r rest H; cbn [app] in H;
       apply decodes_of_loop; read_var_int_run H;
       eexists; split; [reflexivity|assumption]).
  - intros. eapply mc_read_var_int_five_continuations; eassumption.
Qed.

Lemma var_int_round_trip_and_guard_witness :
  (exists bytes,
     var_int_bytes 16384 = Some bytes /\
     mc_var_int_length 16384 = Some (Z.of_nat (length bytes)) /\
     forall r rest, pending r = bytes ++ rest ->
       decodes r 16384 (Z.of_nat (length bytes)) rest) /\
  rejects (mkReader [255; 129] [[]; [128; 200]; [255; 7; 9]]) [7; 9].
Proof.
  split.
  - apply (proj1 var_int_round_trip_and_guard 16384).
    unfold round_trip_values. cbn. tauto.
  - apply (proj2 var_int_round_trip_and_guard
             (mkReader [255; 129] [[]; [128; 200]; [255; 7; 9]])
             255 129 128 200 255 [7; 9]); [reflexivity | | | | |];
      vm_compute; discriminate.
Defined.

(** C10. Four continuation bytes followed by a byte without the high bit
    decode to the seven low bits of each byte placed at bit positions 0, 7,
    14, 21 and 28, with no mask applied; on FF FF FF FF 7F the decoder
    returns 2^35 - 1, which is above the 32-bit unsigned range. *)
Theorem mc_read_var_int_five_bytes_unmasked :
  (forall r b1 b2 b3 b4 b5 rest,
     pending r = b1 :: b2 :: b3 :: b4 :: b5 :: rest ->
     Z.land b1 0x80 <> 0 -> Z.land b2 0x80 <> 0 -> Z.land b3 0x80 <> 0 ->
     Z.land b4 0x80 <> 0 -> Z.land b5 0x80 = 0 ->
     decodes r
       (Z.lor (Z.lor (Z.lor (Z.lor (Z.lor 0
          (Z.shiftl (Z.land b1 0x7F) 0))
          (Z.shiftl (Z.land b2 0x7F) 7))
          (Z.shiftl (Z.land b3 0x7F) 14))
          (Z.shiftl (Z.land b4 0x7F) 21))
          (Z.shiftl (Z.land b5 0x7F) 28))
       5 rest) /\
  mc_read_var_int (mkReader [0xFF; 0xFF; 0xFF; 0xFF; 0x7F] [])
    = (Ok (2 ^ 35 - 1, 5), mkReader [] []) /\
  2 ^ 32 - 1 < 2 ^ 35 - 1.
Proof.
  split; [|split; [reflexivity|reflexivity]].
  intros r b1 b2 b3 b4 b5 rest H H1 H2 H3 H4 H5.
  apply Z.eqb_neq in H1, H2, H3, H4. apply Z.eqb_eq in H5.
  apply decodes_of_loop.
  read_var_int_step H. rewrite H1.
  replace (32 <=? 0 + 7) with false by reflexivity.
  read_var_int_step P. rewrite H2.
  replace (32 <=? 0 + 7 + 7) with false by reflexivity.
  read_var_int_step P0. rewrite H3.
  replace (32 <=? 0 + 7 + 7 + 7) with false by reflexivity.
  read_var_int_step P1. rewrite H4.
  replace (32 <=? 0 + 7 + 7 + 7 + 7) with false by reflexivity.
  read_var_int_step P2. rewrite H5.
  eexists; split; [reflexivity|assumption].
Qed.

Lemma mc_read_var_int_five_bytes_unmasked_witness :
  decodes (mkReader [0x81; 0x82] [[0x83; 0x84; 0x05; 0x66]]) 1350615297 5 [0x66].
Proof.
  apply (proj1 mc_read_var_int_five_bytes_unmasked
           (mkReader [0x81; 0x82] [[0x83; 0x84; 0x05; 0x66]])
           0x81 0x82 0x83 0x84 0x05 [0x66]);
    [reflexivity | | | | | reflexivity]; vm_compute; discriminate.
Defined.

(** ** The handshake handler *)

Lemma mc_read_var_int_loop_raises (fuel : nat) :
  forall value position bytes_read r e r',
    mc_read_var_int_loop fuel value position bytes_read r = Some (Raise e, r') ->
    is_Exception e = true.
Proof.
  induction fuel as [|fuel IH]; intros value position bytes_read r e r' H;
    [discriminate|].
  cbn [mc_read_var_int_loop] in H. destruct (read 1 r) as [data r1].
  destruct data as [|b data]; [injection H as <- <-; reflexivity|].
  destruct (Z.land b 128 =? 0); [discriminate|].
  destruct (32 <=? position + 7); [injection H as <- <-; reflexivity|].
  eapply IH, H.
Qed.

Lemma mc_read_var_int_raises (r r' : StreamReader) (e : exn) :
  mc_read_var_int r = (Raise e, r') -> is_Exception e = true.
Proof.
  intros H. pose proof (mc_read_var_int_unfold r) as Hu. rewrite H in Hu.
  eapply mc_read_var_int_loop_raises, Hu.
Qed.


Section HandleMCProperties.

Variable json_dumps : mc_data -> string.


(** The answer to [data]: the frame length, the packet id 0, the length of
    the text and the text, then the close. *)
Lemma respond_total (data : mc_data) (r : StreamReader) (w : StreamWriter)
    (printed : list exn) :
  exists bytes,
    (packet_id_length <- from_option (mc_var_int_length 0) ;;
     data_prefix_length <-
       from_option (mc_var_int_length (str_len (json_dumps data))) ;;
     on_writer (mc_write_var_int
                  (packet_id_length + data_prefix_length
                   + str_len (json_dumps data))) ;;
     on_writer (mc_write_var_int 0) ;;
     on_writer (mc_write_var_int (str_len (json_dumps data))) ;;
     on_writer (fun w => Some (write (str_encode (json_dumps data)) w)) ;;
     await_drain)
      (mkConn r w printed)
    = Some (if connection_lost w then Raise OSError else Ok tt,
            mkConn r (write bytes w) printed).
Proof.
  set (n := str_len (json_dumps data)).
  assert (Hn : 0 <= n) by (unfold n, str_len; lia).
  destruct (mc_write_var_int_total n Hn) as (bn & Hln & Hwn).
  destruct (mc_write_var_int_total (1 + Z.of_nat (length bn) + n) ltac:(lia))
    as (bt & _ & Hwt).
  exists (bt ++ [0] ++ bn ++ str_encode (json_dumps data)).
  unfold bind, from_option, on_writer, ret. fold n.
  change (mc_var_int_length 0) with (Some 1). rewrite Hln.
  cbn [conn_writer conn_reader conn_printed].
  rewrite Hwt. cbn [conn_writer conn_reader conn_printed].
  change (mc_write_var_int 0 (write bt w)) with (Some (write [0] (write bt w))).
  cbn [conn_writer conn_reader conn_printed]. rewrite Hwn.
  cbn [conn_writer conn_reader conn_printed].
  rewrite !write_write. unfold await_drain.
  cbn [conn_writer conn_reader conn_printed write connection_lost].
  destruct (connection_lost w); reflexivity.
Qed.

(** Whatever arrives on the connection, the handler ends without an
    exception and with the writer closed. *)
Lemma handle_mc_total (current_error : string) (c : connection) :
  exists c',
    handle_mc json_dumps current_error c = Some (Ok tt, c') /\
    closed (conn_writer c') = true.
Proof.
  destruct c as [r0 w printed].
  unfold handle_mc, try_finally, try_except.
  unfold bind at 1. unfold await_mc_read_var_int at 1.
  cbn [conn_reader conn_writer conn_printed].
  destruct (mc_read_var_int r0) as [[[packet_length n0]|e0] r1] eqn:E0.
  2:{ rewrite (mc_read_var_int_raises _ _ _ E0). cbn. eauto. }
  cbn [fst]. unfold bind at 1. unfold await_mc_read_var_int at 1.
  cbn [conn_reader conn_writer conn_printed].
  destruct (mc_read_var_int r1) as [[[packet_id id_bytes]|e1] r2] eqn:E1.
  2:{ rewrite (mc_read_var_int_raises _ _ _ E1). cbn. eauto. }
  assert (Hrespond : forall data r,
    exists c',
      match
        match
          (let data_string := json_dumps data in
           packet_id_length <- from_option (mc_var_int_length 0) ;;
           data_prefix_length <-
             from_option (mc_var_int_length (str_len data_string)) ;;
           on_writer (mc_write_var_int
                        (packet_id_length + data_prefix_length
                         + str_len data_string)) ;;
           on_writer (mc_write_var_int 0) ;;
           on_writer (mc_write_var_int (str_len data_string)) ;;
           on_writer (fun w => Some (write (str_encode data_string) w)) ;;
           await_drain)
            (mkConn r w printed)
        with
        | Some (Raise e, s') =>
            if is_Exception e then print_exn e s' else Some (Raise e, s')
        | other => other
        end
      with
      | Some (out, s') =>
          match on_writer (fun w => Some (close w)) s' with
          | Some (Ok _, s'') => Some (out, s'')
          | Some (Raise e, s'') => Some (Raise e, s'')
          | None => None
          end
      | None => None
      end = Some (Ok tt, c') /\ closed (conn_writer c') = true).
  { intros data r. cbv zeta.
    destruct (respond_total data r w printed) as (bytes & ->).
    destruct (connection_lost w); cbn; eauto. }
  unfold bind at 1.
  destruct (packet_id =? 0).
  - unfold bind at 1. unfold await_mc_read_var_int at 1.
    cbn [conn_reader conn_writer conn_printed].
    destruct (mc_read_var_int r2) as [[protocol_version|e2] r3] eqn:E2.
    2:{ rewrite (mc_read_var_int_raises _ _ _ E2). cbn. eauto. }
    unfold bind at 1. unfold await_mc_read_var_int at 1.
    cbn [conn_reader conn_writer conn_printed].
    destruct (mc_read_var_int r3) as [[server_address_length|e3] r4] eqn:E3.
    2:{ rewrite (mc_read_var_int_raises _ _ _ E3). cbn. eauto. }
    destruct (255 <? fst server_address_length); [cbn; eauto|].
    unfold bind at 1. unfold await_read at 1.
    cbn [conn_reader conn_writer conn_printed].
    destruct (read (fst server_address_length) r4) as [address r5].
    unfold bind at 1. unfold await_read at 1.
    cbn [conn_reader conn_writer conn_printed].
    destruct (read 2 r5) as [port r6].
    unfold bind at 1. unfold await_mc_read_var_int at 1.
    cbn [conn_reader conn_writer conn_printed].
    destruct (mc_read_var_int r6) as [[next_state|e6] r7] eqn:E6.
    2:{ rewrite (mc_read_var_int_raises _ _ _ E6). cbn. eauto. }
    destruct (negb _); [cbn; eauto|].
    destruct (fst next_state =? 1).
    + unfold bind at 1. unfold await_read at 1.
      cbn [conn_reader conn_writer conn_printed].
      destruct (read 2 r7) as [request r8]. unfold ret at 1. apply Hrespond.
    + unfold ret at 1. apply Hrespond.
  - unfold ret at 1. apply Hrespond.
Qed.
End HandleMCProperties.


(** The same handshake with the right length, 7, is answered. *)
Example handle_mc_answers_good_length :
  handle_mc tag_dumps "Booting up"
    (mkConn (mkReader [7; 0; 47; 1; 97] [[99; 221; 1]; [1; 0]]) fresh_writer [])
  = Some (Ok tt,
          mkConn (mkReader [] [])
            (mkWriter ([13; 0; 11] ++ str_encode "SBooting up") true false) []).
Proof. reflexivity. Qed.

(** [reader.read(n)] may return fewer than [n] bytes. The same nine bytes,
    which declare a length of 9 in front of a payload of 8, are rejected
    when they arrive in one piece, and answered when the address arrives in
    two pieces: the second address byte is then taken for a port byte, and
    the sum the handler computes is 9. *)
Example handle_mc_short_read :
  (exists c',
     handle_mc tag_dumps "Booting up"
       (mkConn (mkReader [9; 0; 47; 2; 97; 98; 0x10; 0x90; 1] []) fresh_writer [])
     = Some (Ok tt, c') /\
     conn_printed c' = [MCException (BadPacketLength 8 9)] /\
     written (conn_writer c') = []) /\
  (exists c',
     handle_mc tag_dumps "Booting up"
       (mkConn (mkReader [9; 0; 47; 2; 97] [[98; 0x10; 0x90; 1]]) fresh_writer [])
     = Some (Ok tt, c') /\
     conn_printed c' = [] /\
     written (conn_writer c') = [13; 0; 11] ++ str_encode "TBooting up").
Proof.
  split; eexists; (split; [vm_compute; reflexivity|split; reflexivity]).
Qed.


(** ** The deadlock checker *)

Lemma supervisor_error_not_indicator (text : string) :
  supervisor_error text -> text <> deadlock_indicator.
Proof. intros [] ; discriminate. Qed.

(** C9. Take a probe cycle in which the binary is believed running and the
    connection opens. If the read times out after 10 seconds and the
    binary is still believed running, the error field becomes the deadlock
    indicator. If the read returns, the error field is emptied when it
    holds exactly the deadlock indicator, and is left as it is otherwise,
    in particular when it holds an error text of the supervisor. *)
Theorem deadlock_checker_sets_and_clears (p : probe_env) (w : world) :
  can_access_mc w !! 0%nat = Some true ->
  probe_connects p = true ->
  (3 < length (commit_wrapper (probe_resumes p w)))%nat ->
  (probe_reply_of p = NoReply ->
   can_access_mc (probe_resumes p w) !! 0%nat = Some true ->
   exists w', deadlock_checker_iteration p w = Some (Ok tt, w') /\
     commit_wrapper w' =
       <[3%nat := PStr deadlock_indicator]> (commit_wrapper (probe_resumes p w))) /\
  (forall data, probe_reply_of p = Replied data ->
   exists w', deadlock_checker_iteration p w = Some (Ok tt, w') /\
     (commit_wrapper (probe_resumes p w) !! 3%nat = Some (PStr deadlock_indicator) ->
      commit_wrapper w' = <[3%nat := PStr ""]> (commit_wrapper (probe_resumes p w))) /\
     (commit_wrapper (probe_resumes p w) !! 3%nat <> Some (PStr deadlock_indicator) ->
      commit_wrapper w' = commit_wrapper (probe_resumes p w)) /\
     (forall text, supervisor_error text ->
      commit_wrapper (probe_resumes p w) !! 3%nat = Some (PStr text) ->
      commit_wrapper w' !! 3%nat = Some (PStr text))).
Proof.
  intros Hcan Hconn Hlen.
  unfold deadlock_checker_iteration, await_probe_reply, get_can_access_mc,
    sleep, emit, try_except, try_finally, bind, modify, ret, raise.
  cbn [can_access_mc add_event]. rewrite Hcan. cbn [negb]. rewrite Hconn.
  fold (probe_resumes p w).
  split.
  - intros Hreply Hstill. rewrite Hreply. cbn [is_TimeoutError].
    rewrite Hstill.
    unfold cw_set. apply Nat.ltb_lt in Hlen. rewrite Hlen.
    eexists. split; [reflexivity|]. reflexivity.
  - intros data Hreply. rewrite Hreply.
    unfold cw_get.
    destruct (commit_wrapper (probe_resumes p w) !! 3%nat) as [error|] eqn:Herr.
    2:{ apply lookup_ge_None in Herr. lia. }
    destruct (decide (error = PStr deadlock_indicator)) as [->|Hne].
    + unfold cw_set. apply Nat.ltb_lt in Hlen. rewrite Hlen.
      eexists. split; [reflexivity|]. cbn [commit_wrapper add_event set_commit_wrapper].
      split; [reflexivity|]. split; [congruence|].
      intros text Hs [= <-]. apply supervisor_error_not_indicator in Hs.
      congruence.
    + eexists. split; [reflexivity|]. cbn [commit_wrapper add_event].
      split; [congruence|]. split; [reflexivity|].
      intros text _ [= ->]. exact Herr.
Qed.

(** A probe that times out while the binary is still believed running. *)
Lemma deadlock_checker_sets_and_clears_witness :
  exists w',
    deadlock_checker_iteration (mkProbe true NoReply id)
      (mkWorld [PStr "abc"; PInt 2; PStr "name"; PStr ""; PInt 77]
         [true] true [] ∅ 0 []) = Some (Ok tt, w') /\
    commit_wrapper w' =
      [PStr "abc"; PInt 2; PStr "name"; PStr deadlock_indicator; PInt 77].
Proof.
  apply (proj1 (deadlock_checker_sets_and_clears (mkProbe true NoReply id)
                  (mkWorld [PStr "abc"; PInt 2; PStr "name"; PStr ""; PInt 77]
                     [true] true [] ∅ 0 [])
                  eq_refl eq_refl ltac:(cbn; lia)));
    reflexivity.
Defined.

(** ** The supervisor *)

Ltac destruct_board w :=
  let cw := fresh "cw" in
  let can := fresh "can" in
  let lock := fresh "lock" in
  let queue := fresh "queue" in
  let fs := fresh "fs" in
  let ncmd := fresh "ncmd" in
  let evs := fresh "evs" in
  destruct w as [cw can lock queue fs ncmd evs];
  cbn [commit_wrapper can_access_mc mc_lock update_queue log_dirs commands_run
       events] in *.

Ltac five_and_one :=
  repeat match goal with
    | H : length ?l = 5%nat |- _ =>
        destruct l as [|? [|? [|? [|? [|? [|? ?]]]]]]; try discriminate H; clear H
    | H : length ?l = 1%nat |- _ =>
        destruct l as [|? [|? ?]]; try discriminate H; clear H
    end.

Ltac board_simpl :=
  unfold set_commit_wrapper, set_can_access_mc, set_mc_lock, set_update_queue,
    set_log_dirs, set_commands_run, add_event in *;
  cbn [commit_wrapper can_access_mc mc_lock update_queue log_dirs commands_run
       events insert list_insert length Nat.ltb Nat.leb lookup list_lookup
       negb fst snd is_TimeoutError is_CancelledError is_SubprocessError
       is_Exception] in *.

(** *** Steps that only run commands

    The build steps start commands, change directory and publish status
    texts; they leave the status board, the lock, the update queue and the
    log directories alone, and only add to the events. *)

Lemma same_board_refl (w : world) : same_board w w.
Proof. repeat split. exists []. symmetry. apply app_nil_r. Qed.

Lemma same_board_trans (w1 w2 w3 : world) :
  same_board w1 w2 -> same_board w2 w3 -> same_board w1 w3.
Proof.
  intros (A1 & A2 & A3 & A4 & A5 & m1 & A6) (B1 & B2 & B3 & B4 & B5 & m2 & B6).
  repeat split; try congruence.
  exists (m1 ++ m2). rewrite B6, A6, app_assoc. reflexivity.
Qed.

Lemma quiet_ret {A} (a : A) : quiet (ret a).
Proof. intros w out w' [= <- <-]. apply same_board_refl. Qed.

Lemma quiet_raise {A} (e : exn) : quiet (@raise world A e).
Proof. intros w out w' [= <- <-]. apply same_board_refl. Qed.

Lemma quiet_bind {A B} (m : M world A) (k : A -> M world B) :
  quiet m -> (forall a, quiet (k a)) -> quiet (bind m k).
Proof.
  intros Hm Hk w out w'. unfold bind.
  destruct (m w) as [[[a|e] w1]|] eqn:E; [| |discriminate].
  - intros H. eapply same_board_trans; [eapply Hm, E|eapply Hk, H].
  - intros [= <- <-]. eapply Hm, E.
Qed.

Lemma quiet_try_except {A} (m : M world A) (catches : exn -> bool)
    (handler : exn -> M world A) :
  quiet m -> (forall e, quiet (handler e)) -> quiet (try_except m catches handler).
Proof.
  intros Hm Hh w out w'. unfold try_except.
  destruct (m w) as [[[a|e] w1]|] eqn:E; [| |discriminate].
  - intros [= <- <-]. eapply Hm, E.
  - destruct (catches e).
    + intros H. eapply same_board_trans; [eapply Hm, E|eapply Hh, H].
    + intros [= <- <-]. eapply Hm, E.
Qed.

Lemma quiet_emit (e : event) : quiet (emit e).
Proof.
  intros w out w' [= <- <-]. repeat split. exists [e]. reflexivity.
Qed.

Lemma quiet_for_each {A} (xs : list A) (body : A -> M world unit) :
  (forall x, quiet (body x)) -> quiet (for_each xs body).
Proof.
  intros Hb. induction xs as [|x xs IH]; cbn [for_each].
  - apply quiet_ret.
  - apply quiet_bind; [apply Hb|intros _; exact IH].
Qed.

Lemma quiet_gather_from (tasks : list (M world unit)) :
  Forall quiet tasks -> forall first, quiet (gather_from first tasks).
Proof.
  induction 1 as [|task tasks Ht _ IH]; intros first; cbn [gather_from].
  - destruct first; [apply quiet_raise|apply quiet_ret].
  - intros w out w'.
    destruct (task w) as [[[a|e] w1]|] eqn:E; [| |discriminate];
      intros H; (eapply same_board_trans; [eapply Ht, E|eapply IH, H]).
Qed.

Lemma quiet_gather (tasks : list (M world unit)) :
  Forall quiet tasks -> quiet (gather tasks).
Proof. intros H. apply quiet_gather_from, H. Qed.

Create HintDb quiet.
#[export] Hint Resolve quiet_ret quiet_raise quiet_emit quiet_bind
  quiet_try_except quiet_for_each quiet_gather : quiet.

Section SupervisorProperties.

Variable env : environment.
Variables repo_dir plugins_dir log_dir : string.

Lemma start_attempt_ready (v : locals) (w : world) :
  ready log_dir v w ->
  start_attempt env repo_dir log_dir v w =
    Some (Ok (mkLocals (commit v) (commit_name v) (try_counter v)
                (total_counter v + 1)),
          started env repo_dir log_dir v w).
Proof.
  intros (Hcw & Hcan & Hlock & [names Hdir]).
  unfold started. destruct_board w. subst lock. five_and_one.
  unfold start_attempt, open_w, mc_queue_put, mc_lock_acquire,
    start_binary, put_can_access_mc, cw_set, emit, modify, bind, ret.
  board_simpl. rewrite Hdir. board_simpl. rewrite lookup_insert_eq.
  board_simpl. rewrite insert_insert_eq. rewrite <- !app_assoc. reflexivity.
Qed.

Lemma started_running (v : locals) (w : world) :
  ready log_dir v w -> running (started env repo_dir log_dir v w).
Proof.
  intros (Hcw & Hcan & _ & _). unfold running, started.
  cbn [commit_wrapper can_access_mc mc_lock].
  rewrite !length_insert. auto.
Qed.

Lemma last_cons_default {A} (l : list A) (x d d' : A) :
  List.last (x :: l) d = List.last (x :: l) d'.
Proof.
  revert x. induction l as [|y l IH]; intros x; [reflexivity|].
  change (List.last (y :: l) d = List.last (y :: l) d'). apply IH.
Qed.


Lemma drain_last (first : string) (queue : list string) :
  drain first queue = List.last queue first.
Proof.
  revert first. induction queue as [|next queue IH]; intros first.
  - reflexivity.
  - cbn [drain]. rewrite IH. destruct queue as [|next' queue]; [reflexivity|].
    change (List.last (next :: next' :: queue) first)
      with (List.last (next' :: queue) first).
    apply last_cons_default.
Qed.

Ltac supervise_run :=
  unfold supervise_child, wait_for_process_or_signal, await_exit_within,
    await_exit_after_kill, webhook_pushes, mc_lock_release,
    put_can_access_mc, cw_set, emit, try_finally, try_except, bind, get,
    modify, ret, raise, diverge;
  board_simpl.

(** The five ways the child wait can end, and the one way it cannot. *)
Lemma supervise_child_paths (v : locals) (w : world) :
  running w ->
  let l := launches env (total_counter v) in
  let queue := update_queue w ++ pushed_while_running l in
  (cancelled_while_running l = true ->
   supervise_child env v w = Some (Raise CancelledError, stopped [] queue w)) /\
  (forall return_code,
     cancelled_while_running l = false ->
     exit_while_running l = Some return_code ->
     supervise_child env v w = Some (Ok None, stopped [] (tail queue) w)) /\
  (cancelled_while_running l = false -> exit_while_running l = None ->
   queue = [] -> supervise_child env v w = None) /\
  (forall first rest,
     cancelled_while_running l = false -> exit_while_running l = None ->
     queue = first :: rest ->
     let new_commit := List.last (rest ++ pushed_while_stopping l) first in
     (forall return_code, stop l = ExitedInTime return_code ->
        supervise_child env v w =
          Some (Ok (Some new_commit),
                stopped [SendSigint; AwaitExit (Some 120)] [] w)) /\
     (stop l = TimedOut ->
        supervise_child env v w =
          Some (Ok (Some new_commit),
                stopped [SendSigint; AwaitExit (Some 120); Kill] [] w)) /\
     (stop l = StopCancelled ->
        supervise_child env v w =
          Some (Raise CancelledError,
                stopped [SendSigint; AwaitExit (Some 120)]
                  (rest ++ pushed_while_stopping l) w))).
Proof.
  intros (Hcw & Hcan & Hlock) l queue. subst l queue.
  unfold stopped. destruct_board w. subst lock. five_and_one.
  repeat split.
  - intros Hc. supervise_run. rewrite Hc. board_simpl. reflexivity.
  - intros rc Hc He. supervise_run. rewrite Hc, He. board_simpl.
    destruct (queue ++ _); board_simpl; reflexivity.
  - intros Hc He Hq. supervise_run. rewrite Hc, He, Hq. reflexivity.
  - intros rc Hs. supervise_run. rewrite H, H0, H1, Hs. board_simpl.
    rewrite drain_last, <- !app_assoc. reflexivity.
  - intros Hs. supervise_run. rewrite H, H0, H1, Hs. board_simpl.
    rewrite drain_last, <- !app_assoc. reflexivity.
  - intros Hs. supervise_run. rewrite H, H0, H1, Hs. board_simpl.
    rewrite <- !app_assoc. reflexivity.
Qed.



Lemma last_pushed (first : string) (rest later : list string) :
  List.last ((first :: rest) ++ later) "" = List.last (rest ++ later) first.
Proof.
  cbn [app]. destruct (rest ++ later) as [|x xs]; [reflexivity|].
  change (List.last (x :: xs) "" = List.last (x :: xs) first).
  apply last_cons_default.
Qed.

(** A turn of the main loop in which an update arrives. *)
Lemma runner_iteration_planned (fuel : nat) (v : locals) (w : world) :
  ready log_dir v w ->
  let l := launches env (total_counter v + 1) in
  cancelled_while_running l = false ->
  exit_while_running l = None ->
  stop l <> StopCancelled ->
  update_queue w ++ pushed_while_running l <> [] ->
  supervise_child env (launched v) (started env repo_dir log_dir v w) =
    Some (Ok (Some (List.last (pushed_before_drain env v w) "")),
          stopped (shutdown_actions l) [] (started env repo_dir log_dir v w)) /\
  runner_iteration env repo_dir plugins_dir log_dir fuel v w =
    planned_restart env repo_dir plugins_dir log_dir fuel (launched v)
      (List.last (pushed_before_drain env v w) "")
      (after_stop env repo_dir log_dir v w).
Proof.
  intros Hready l Hc He Hs Hq.
  destruct (update_queue w ++ pushed_while_running l) as [|first rest] eqn:Hqueue;
    [congruence|].
  assert (Hlast : List.last (pushed_before_drain env v w) "" =
                  List.last (rest ++ pushed_while_stopping l) first).
  { unfold pushed_before_drain. fold l. rewrite app_assoc, Hqueue.
    apply last_pushed. }
  pose proof (started_running v w Hready) as Hrun.
  destruct (supervise_child_paths (launched v) (started env repo_dir log_dir v w) Hrun)
    as (_ & _ & _ & Hstop).
  cbn [launched total_counter] in Hstop. fold l in Hstop.
  destruct (Hstop first rest Hc He Hqueue) as (Hin & Hout & _).
  assert (Hsup : supervise_child env (launched v) (started env repo_dir log_dir v w) =
            Some (Ok (Some (List.last (pushed_before_drain env v w) "")),
                  stopped (shutdown_actions l) [] (started env repo_dir log_dir v w))).
  { rewrite Hlast. unfold shutdown_actions.
    destruct (stop l) as [rc| |] eqn:Hstopl; [eauto|eauto|congruence]. }
  split; [exact Hsup|].
  unfold runner_iteration, bind.
  rewrite (start_attempt_ready v w Hready).
  fold (launched v). rewrite Hsup.
  unfold webhook_pushes, modify. reflexivity.
Qed.

(** A turn of the main loop in which the child exits on its own. *)
Lemma runner_iteration_unplanned (fuel : nat) (v : locals) (w : world)
    (return_code : Z) :
  ready log_dir v w ->
  let l := launches env (total_counter v + 1) in
  cancelled_while_running l = false ->
  exit_while_running l = Some return_code ->
  runner_iteration env repo_dir plugins_dir log_dir fuel v w =
    unplanned_death (launched v) (after_exit env repo_dir log_dir v w).
Proof.
  intros Hready l Hc He.
  pose proof (started_running v w Hready) as Hrun.
  destruct (supervise_child_paths (launched v) (started env repo_dir log_dir v w) Hrun)
    as (_ & Hexit & _).
  cbn [launched total_counter] in Hexit. fold l in Hexit.
  unfold runner_iteration, bind.
  rewrite (start_attempt_ready v w Hready).
  fold (launched v). rewrite (Hexit return_code Hc He).
  unfold webhook_pushes, modify. reflexivity.
Qed.

Lemma ready_same_commit (v v' : locals) (w : world) :
  commit v' = commit v -> ready log_dir v w -> ready log_dir v' w.
Proof. unfold ready. intros ->. auto. Qed.

(** C2, as the code has it. When the child exits on its own, whatever its
    exit code (0 included), the supervisor stores the "died for an unknown
    reason" text in the error field, publishes the failure on the status
    channel, sleeps 300 seconds, and starts the same revision again with
    the attempt counter incremented by one. *)
Theorem unplanned_exit_records_error_and_restarts (fuel : nat) (v : locals)
    (w : world) (return_code : Z) :
  ready log_dir v w ->
  let l := launches env (total_counter v + 1) in
  cancelled_while_running l = false ->
  exit_while_running l = Some return_code ->
  let v' := mkLocals (commit v) (commit_name v) (try_counter v + 1)
              (total_counter v + 1) in
  exists w',
    runner_iteration env repo_dir plugins_dir log_dir fuel v w = Some (Ok v', w') /\
    commit_wrapper w' !! 3%nat = Some (PStr msg_died) /\
    commit_wrapper w' !! 0%nat = commit_wrapper w !! 0%nat /\
    events w' =
      events (started env repo_dir log_dir v w) ++
      [Release; Put (Some "Binary failure! (Restarting in 5 minutes)"); Sleep 300] /\
    exists w'',
      start_attempt env repo_dir log_dir v' w' = Some (Ok (launched v'), w'') /\
      commit_wrapper w'' !! 0%nat = commit_wrapper w !! 0%nat /\
      commit_wrapper w'' !! 1%nat = Some (PInt (try_counter v + 1)) /\
      commit_wrapper w'' !! 3%nat = Some (PStr "").
Proof.
  intros Hready l Hc He v'.
  rewrite (runner_iteration_unplanned fuel v w return_code Hready Hc He).
  assert (Hready' : ready log_dir v'
            (set_commit_wrapper <[3%nat := PStr msg_died]>
               (add_event (Sleep 300)
                  (add_event (Put (Some "Binary failure! (Restarting in 5 minutes)"))
                     (after_exit env repo_dir log_dir v w))))).
  { destruct Hready as (Hcw & Hcan & Hlock & Hdir).
    unfold ready, after_exit, stopped, started. board_simpl.
    rewrite !length_insert. repeat split; try assumption.
    subst v'. cbn [commit]. rewrite lookup_insert_eq. eauto. }
  pose proof (start_attempt_ready v' _ Hready') as Hstart.
  destruct Hready as (Hcw & Hcan & Hlock & Hdir).
  eexists. split; [|split; [|split; [|split]]].
  - unfold unplanned_death, cw_set, mc_queue_put, sleep, emit, modify, bind, ret.
    unfold after_exit, stopped, started. board_simpl.
    rewrite !length_insert, Hcw. reflexivity.
  - board_simpl. destruct_board w. five_and_one. reflexivity.
  - board_simpl. destruct_board w. five_and_one. reflexivity.
  - unfold started. board_simpl. rewrite <- !app_assoc. reflexivity.
  - eexists. split; [exact Hstart|].
    unfold started, after_exit, stopped. board_simpl.
    destruct_board w. five_and_one. repeat split; reflexivity.
Qed.

(** *** The steps of a rebuild *)

Lemma quiet_run_command (cmd : string) (rustflags : option string) :
  quiet (run_command env cmd rustflags).
Proof.
  intros w out w'. unfold run_command.
  destruct (cmd_exit env (commands_run w) =? 0); intros [= <- <-];
    (repeat split; eexists; reflexivity).
Qed.

Lemma quiet_chdir (path : string) : quiet (chdir env plugins_dir path).
Proof. unfold chdir. destruct (decide _); auto with quiet. Qed.

Hint Resolve quiet_run_command quiet_chdir : quiet.

Lemma quiet_update_git_repo (dir : string) :
  quiet (update_git_repo env plugins_dir dir).
Proof. unfold update_git_repo. auto 10 with quiet. Qed.

Lemma quiet_build_repo (dir : string) (native : bool) :
  quiet (build_repo env plugins_dir dir native).
Proof. unfold build_repo. auto 10 with quiet. Qed.

Hint Resolve quiet_update_git_repo quiet_build_repo : quiet.

Lemma quiet_sync_repo_step : quiet (sync_repo_step env repo_dir plugins_dir).
Proof. unfold sync_repo_step, mc_queue_put. auto 10 with quiet. Qed.

Lemma quiet_sync_plugins_step : quiet (sync_plugins_step env plugins_dir).
Proof.
  unfold sync_plugins_step, mc_queue_put.
  apply quiet_bind; [auto with quiet|intros _].
  apply quiet_gather, Forall_map, Forall_forall. auto with quiet.
Qed.

Lemma quiet_update_rust : quiet (update_rust env).
Proof. unfold update_rust. auto with quiet. Qed.

Lemma quiet_clean_binary : quiet (clean_binary env repo_dir plugins_dir).
Proof.
  unfold clean_binary, clean_current_directory.
  repeat (apply quiet_bind; [auto with quiet|intros _]).
  apply quiet_gather, Forall_map, Forall_forall. auto with quiet.
Qed.

Lemma quiet_build_plugins_step : quiet (build_plugins_step env plugins_dir).
Proof.
  unfold build_plugins_step, build_plugins, mc_queue_put.
  apply quiet_bind; [auto with quiet|intros _].
  destruct (map _ _) as [|task tasks] eqn:E; [auto with quiet|].
  rewrite <- E. apply quiet_gather, Forall_map, Forall_forall.
  auto with quiet.
Qed.

Lemma quiet_build_binary_step :
  quiet (build_binary_step env repo_dir plugins_dir).
Proof. unfold build_binary_step, mc_queue_put. auto 10 with quiet. Qed.

Lemma bind_Ok_inv {St A B} (m : M St A) (k : A -> M St B) (s s' : St) (b : B) :
  bind m k s = Some (Ok b, s') ->
  exists a s1, m s = Some (Ok a, s1) /\ k a s1 = Some (Ok b, s').
Proof.
  unfold bind. destruct (m s) as [[[a|e] s1]|]; [eauto|discriminate..].
Qed.

Lemma bind_Ok {St A B} (m : M St A) (k : A -> M St B) (s s1 : St) (a : A) :
  m s = Some (Ok a, s1) -> bind m k s = k a s1.
Proof. unfold bind. intros ->. reflexivity. Qed.

Lemma attempt_step_ok (step on_failure : M world unit) (w w1 : world) :
  step w = Some (Ok tt, w1) ->
  attempt_step step on_failure w = Some (Ok true, w1).
Proof. unfold attempt_step, try_except, bind, ret. intros ->. reflexivity. Qed.

Lemma attempt_step_fail (step on_failure : M world unit) (w w1 w2 : world) :
  step w = Some (Raise SubprocessError, w1) ->
  on_failure w1 = Some (Ok tt, w2) ->
  attempt_step step on_failure w = Some (Ok false, w2).
Proof.
  unfold attempt_step, try_except, bind, ret. intros -> H.
  cbn [is_SubprocessError]. rewrite H. reflexivity.
Qed.

Ltac step_ok E :=
  erewrite bind_Ok; [|apply attempt_step_ok; exact E]; cbn [negb].

Lemma quiet_step_body (s : rebuild_step) : quiet (step_body env repo_dir plugins_dir s).
Proof.
  destruct s; cbn [step_body];
    auto using quiet_sync_repo_step, quiet_sync_plugins_step, quiet_update_rust,
      quiet_build_plugins_step, quiet_build_binary_step.
Qed.

Lemma quiet_maybe_clean (v : locals) : quiet (maybe_clean env repo_dir plugins_dir v).
Proof.
  unfold maybe_clean. destruct (_ =? _); [|apply quiet_ret].
  apply quiet_try_except; [apply quiet_clean_binary|intros _; apply quiet_ret].
Qed.

Lemma quiet_steps_before (v : locals) (s : rebuild_step) :
  quiet (steps_before env repo_dir plugins_dir v s).
Proof.
  destruct s; cbn [steps_before];
    auto 10 using quiet_ret, quiet_bind, quiet_step_body, quiet_maybe_clean.
Qed.

(** A planned restart in which step [s] is the first to fail ends there,
    in its [continue]. *)
Lemma planned_restart_aborts (s : rebuild_step) (fuel : nat) (v : locals)
    (new_commit : string) (w w1 w2 : world) :
  length (commit_wrapper w) = 5%nat ->
  steps_before env repo_dir plugins_dir v s w = Some (Ok tt, w1) ->
  step_body env repo_dir plugins_dir s w1 = Some (Raise SubprocessError, w2) ->
  planned_restart env repo_dir plugins_dir log_dir fuel v new_commit w =
    Some (Ok (mkLocals (commit v) (commit_name v) (try_counter v + 1)
                (total_counter v)),
          aborted s new_commit w2).
Proof.
  intros Hcw Hbefore Hfail.
  assert (Hlen : (3 <? length (commit_wrapper w2))%nat = true).
  { pose proof (quiet_steps_before _ _ _ _ _ Hbefore) as (E1 & _).
    pose proof (quiet_step_body _ _ _ _ Hfail) as (E2 & _).
    rewrite E2, E1, Hcw. reflexivity. }
  assert (Hset : forall published,
            cw_set 3 (PStr (step_error s new_commit))
              (mkWorld (commit_wrapper w2) (can_access_mc w2) (mc_lock w2)
                 (update_queue w2) (log_dirs w2) (commands_run w2)
                 (events w2 ++ published)) =
            Some (Ok tt,
                  mkWorld
                    (<[3%nat := PStr (step_error s new_commit)]> (commit_wrapper w2))
                    (can_access_mc w2) (mc_lock w2) (update_queue w2)
                    (log_dirs w2) (commands_run w2) (events w2 ++ published))).
  { intros published. unfold cw_set. cbn [commit_wrapper]. rewrite Hlen.
    reflexivity. }
  assert (Hnil : forall (u : world), 
            mkWorld (commit_wrapper u) (can_access_mc u) (mc_lock u)
              (update_queue u) (log_dirs u) (commands_run u) (events u ++ [])
            = u).
  { intros []. cbn. rewrite app_nil_r. reflexivity. }
  pose proof (Hset []) as Hset0. rewrite Hnil in Hset0.
  unfold aborted, planned_restart.
  destruct s; cbn [steps_before step_body step_error step_published] in *;
    repeat match type of Hbefore with
      | bind _ _ _ = Some (Ok _, _) =>
          let u := fresh "u" in
          let wi := fresh "wi" in
          let E := fresh "E" in
          apply bind_Ok_inv in Hbefore as (u & wi & E & Hbefore); destruct u
      end.
  - injection Hbefore as <-.
    erewrite bind_Ok;
      [|eapply attempt_step_fail; [exact Hfail|exact Hset0]].
    reflexivity.
  - step_ok Hbefore.
    erewrite bind_Ok;
      [|eapply attempt_step_fail; [exact Hfail|exact Hset0]].
    reflexivity.
  - step_ok E. step_ok Hbefore.
    erewrite bind_Ok;
      [|eapply attempt_step_fail;
        [exact Hfail|unfold mc_queue_put, emit, modify, bind; apply Hset]].
    reflexivity.
  - step_ok E. step_ok E0. step_ok E1.
    erewrite bind_Ok; [|exact Hbefore].
    erewrite bind_Ok;
      [|eapply attempt_step_fail;
        [exact Hfail|unfold mc_queue_put, emit, modify, bind; apply Hset]].
    reflexivity.
  - step_ok E. step_ok E0. step_ok E1.
    erewrite bind_Ok; [|exact E2]. step_ok Hbefore.
    erewrite bind_Ok;
      [|eapply attempt_step_fail;
        [exact Hfail|unfold mc_queue_put, emit, modify, bind; apply Hset]].
    reflexivity.
Qed.

(** A property of the world that the body and the handler of a retry loop
    keep is kept by the loop. *)
Lemma retry_until_success_keeps {A} (P : world -> Prop) (body : M world A)
    (handler : M world unit) :
  (forall w out w', P w -> body w = Some (out, w') -> P w') ->
  (forall w out w', P w -> handler w = Some (out, w') -> P w') ->
  forall fuel w out w',
    P w -> retry_until_success fuel body handler w = Some (out, w') -> P w'.
Proof.
  intros Hbody Hhandler. induction fuel as [|fuel IH]; intros w out w' HP H;
    [discriminate|].
  cbn [retry_until_success] in H. unfold try_except in H.
  destruct (body w) as [[[a|e] w1]|] eqn:Eb; [| |discriminate].
  - injection H as <- <-. eapply Hbody; eassumption.
  - pose proof (Hbody _ _ _ HP Eb) as HP1.
    destruct (is_SubprocessError e).
    + unfold bind in H.
      destruct (handler w1) as [[[[]|e'] w2]|] eqn:Eh; [| |discriminate].
      * eapply IH; [|exact H]. eapply Hhandler; eassumption.
      * injection H as <- <-. eapply Hhandler; eassumption.
    + injection H as <- <-. exact HP1.
Qed.

Lemma quiet_get_commit_step : quiet (get_commit_step env repo_dir plugins_dir).
Proof.
  unfold get_commit_step, get_repo_description, unpack2.
  apply quiet_bind.
  - apply quiet_bind; [apply quiet_chdir|intros _].
    intros w out w'. destruct (cmd_exit env (commands_run w) =? 0);
      intros [= <- <-]; (repeat split; eexists; reflexivity).
  - intros lines. destruct lines as [|a [|b [|c lines]]]; auto with quiet.
Qed.

Lemma get_commit_retry_keeps_shape (fuel : nat) (w0 w w' : world)
    (out : result (string * string)) :
  (3 < length (commit_wrapper w0))%nat ->
  board_shape w0 w ->
  retry_until_success fuel (get_commit_step env repo_dir plugins_dir)
    (mc_queue_put (Some "Failed to get commit!") ;;
     cw_set 3 (PStr msg_failed_to_start) ;; sleep 600) w = Some (out, w') ->
  board_shape w0 w'.
Proof.
  intros Hlen. apply retry_until_success_keeps.
  - intros u o u' (S1 & S2 & S3 & S4) H.
    apply quiet_get_commit_step in H as (E1 & E2 & E3 & _ & E5 & _).
    unfold board_shape. rewrite E1, E2, E3, E5. auto.
  - intros u o u' (S1 & S2 & S3 & S4).
    unfold mc_queue_put, sleep, emit, modify, bind, cw_set, add_event.
    cbn [commit_wrapper]. rewrite S1. apply Nat.ltb_lt in Hlen. rewrite Hlen.
    intros [= <- <-]. unfold board_shape, set_commit_wrapper.
    cbn [commit_wrapper can_access_mc mc_lock log_dirs].
    rewrite length_insert. auto.
Qed.

(** A planned restart in which every step goes well ends with the attempt
    counter at 0. *)
Lemma planned_restart_completes (fuel : nat) (v : locals) (new_commit : string)
    (w w1 w2 w3 : world) (description : string * string) :
  length (commit_wrapper w) = 5%nat ->
  steps_before env repo_dir plugins_dir v BuildBinary w = Some (Ok tt, w1) ->
  step_body env repo_dir plugins_dir BuildBinary w1 = Some (Ok tt, w2) ->
  retry_until_success fuel (get_commit_step env repo_dir plugins_dir)
    (mc_queue_put (Some "Failed to get commit!") ;;
     cw_set 3 (PStr msg_failed_to_start) ;; sleep 600) w2
    = Some (Ok description, w3) ->
  planned_restart env repo_dir plugins_dir log_dir fuel v new_commit w =
    Some (Ok (mkLocals (fst description) (snd description) 0 (total_counter v)),
          rebuilt log_dir description w3).
Proof.
  intros Hcw Hbefore Hbuild Hcommit.
  assert (Hshape : board_shape w w3).
  { pose proof (quiet_steps_before _ _ _ _ _ Hbefore) as (A1 & A2 & A3 & _ & A5 & _).
    pose proof (quiet_step_body _ _ _ _ Hbuild) as (B1 & B2 & B3 & _ & B5 & _).
    eapply get_commit_retry_keeps_shape; [rewrite Hcw; lia| |exact Hcommit].
    unfold board_shape. rewrite B1, A1, B2, A2, B3, A3, B5, A5. auto. }
  destruct Hshape as (Hlen & _). rewrite Hcw in Hlen.
  unfold planned_restart.
  cbn [steps_before step_body] in Hbefore, Hbuild.
  repeat match type of Hbefore with
    | bind _ _ _ = Some (Ok _, _) =>
        let u := fresh "u" in
        let wi := fresh "wi" in
        let E := fresh "E" in
        apply bind_Ok_inv in Hbefore as (u & wi & E & Hbefore); destruct u
    end.
  step_ok E. step_ok E0. step_ok E1.
  erewrite bind_Ok; [|exact E2]. step_ok Hbefore. step_ok Hbuild.
  erewrite bind_Ok; [|exact Hcommit].
  destruct description as [commit' name']. cbn [fst snd].
  unfold rebuilt, makedirs, cw_set, modify, bind, ret, set_log_dirs,
    set_commit_wrapper.
  cbn [commit_wrapper can_access_mc mc_lock update_queue log_dirs commands_run
       events fst snd].
  do 3 (rewrite ?length_insert, Hlen;
        cbn [Nat.ltb Nat.leb commit_wrapper can_access_mc mc_lock update_queue
             log_dirs commands_run events]).
  reflexivity.
Qed.





(** Whatever the environment, a planned restart that goes through hands
    the main loop the attempt number 0, and the start that follows opens
    [stdout_0.txt] and [stderr_0.txt] in the directory of the new revision,
    whatever that directory already holds. *)
Lemma planned_restart_starts_at_zero (fuel : nat) (v : locals)
    (w w1 w2 w3 : world) (description : string * string) :
  ready log_dir v w ->
  let l := launches env (total_counter v + 1) in
  cancelled_while_running l = false ->
  exit_while_running l = None ->
  stop l <> StopCancelled ->
  update_queue w ++ pushed_while_running l <> [] ->
  steps_before env repo_dir plugins_dir (launched v) BuildBinary
    (after_stop env repo_dir log_dir v w) = Some (Ok tt, w1) ->
  step_body env repo_dir plugins_dir BuildBinary w1 = Some (Ok tt, w2) ->
  retry_until_success fuel (get_commit_step env repo_dir plugins_dir)
    (mc_queue_put (Some "Failed to get commit!") ;;
     cw_set 3 (PStr msg_failed_to_start) ;; sleep 600) w2
    = Some (Ok description, w3) ->
  let v' := mkLocals (fst description) (snd description) 0 (total_counter v + 1) in
  let dir := Py.path_join log_dir (fst description) in
  runner_iteration env repo_dir plugins_dir log_dir fuel v w =
    Some (Ok v', rebuilt log_dir description w3) /\
  exists w'',
    start_attempt env repo_dir log_dir v' (rebuilt log_dir description w3)
      = Some (Ok (launched v'), w'') /\
    events w'' =
      events w3 ++
      [OpenW (Py.path_join dir "stdout_0.txt");
       OpenW (Py.path_join dir "stderr_0.txt");
       Put None; Acquire;
       StartBinary (executable_path repo_dir)
         (launch_pid (launches env (total_counter v + 1 + 1)))].
Proof.
  intros Hready l Hc He Hs Hq Hbefore Hbuild Hcommit v' dir.
  destruct (runner_iteration_planned fuel v w Hready Hc He Hs Hq) as (_ & ->).
  assert (Hlen : length (commit_wrapper (after_stop env repo_dir log_dir v w)) = 5%nat).
  { destruct Hready as (Hcw & _). unfold after_stop, stopped, started.
    board_simpl. rewrite !length_insert. exact Hcw. }
  rewrite (planned_restart_completes fuel (launched v) _ _ w1 w2 w3 description
             Hlen Hbefore Hbuild Hcommit).
  split; [reflexivity|].
  assert (Hshape : board_shape (after_stop env repo_dir log_dir v w) w3).
  { pose proof (quiet_steps_before _ _ _ _ _ Hbefore) as (A1 & A2 & A3 & _ & A5 & _).
    pose proof (quiet_step_body _ _ _ _ Hbuild) as (B1 & B2 & B3 & _ & B5 & _).
    eapply get_commit_retry_keeps_shape; [rewrite Hlen; lia| |exact Hcommit].
    unfold board_shape. rewrite B1, A1, B2, A2, B3, A3, B5, A5. auto. }
  destruct Hshape as (S1 & S2 & S3 & S4).
  assert (Hready' : ready log_dir v' (rebuilt log_dir description w3)).
  { destruct Hready as (Hcw & Hcan & Hlock & Hdir).
    unfold ready, rebuilt. cbn [commit_wrapper can_access_mc mc_lock log_dirs].
    rewrite !length_insert, S1, S2, S3. split; [exact Hlen|].
    unfold after_stop, stopped, started. board_simpl.
    rewrite !length_insert. repeat split; try assumption.
    subst v'. cbn [commit].
    destruct (log_dirs w3 !! Py.path_join log_dir (fst description)) eqn:E;
      [rewrite E; eauto|rewrite lookup_insert_eq; eauto]. }
  eexists. split; [exact (start_attempt_ready v' _ Hready')|].
  unfold started, rebuilt. cbn [events total_counter try_counter commit]. 
  subst v' dir. reflexivity.
Qed.

Lemma SendSigint_in_shutdown (l : launch_env) : In SendSigint (shutdown_actions l).
Proof. unfold shutdown_actions. destruct (stop l); left; reflexivity. Qed.

(** C1, as the code has it. When an update arrives, the child is first
    stopped (SIGINT, and a kill after 120 seconds) and its pid cleared, and
    only then is the rebuild tried. If the repo sync, the plugin sync, the
    toolchain update, the plugin build or the binary build then fails, the
    revision id and the display name on the status board are still those of
    the revision that was running, the error field holds the text of the
    failed step, and the supervisor goes on to start that same revision
    again with the attempt counter incremented by one. *)
Theorem failed_rebuild_keeps_revision (s : rebuild_step) (fuel : nat)
    (v : locals) (w w1 w2 : world) :
  ready log_dir v w ->
  let l := launches env (total_counter v + 1) in
  cancelled_while_running l = false ->
  exit_while_running l = None ->
  stop l <> StopCancelled ->
  update_queue w ++ pushed_while_running l <> [] ->
  steps_before env repo_dir plugins_dir (launched v) s
    (after_stop env repo_dir log_dir v w) = Some (Ok tt, w1) ->
  step_body env repo_dir plugins_dir s w1 = Some (Raise SubprocessError, w2) ->
  let new_commit := List.last (pushed_before_drain env v w) "" in
  let v' := mkLocals (commit v) (commit_name v) (try_counter v + 1)
              (total_counter v + 1) in
  exists w',
    runner_iteration env repo_dir plugins_dir log_dir fuel v w = Some (Ok v', w') /\
    commit_wrapper w' !! 0%nat
      = commit_wrapper (started env repo_dir log_dir v w) !! 0%nat /\
    commit_wrapper w' !! 2%nat
      = commit_wrapper (started env repo_dir log_dir v w) !! 2%nat /\
    commit_wrapper w' !! 3%nat = Some (PStr (step_error s new_commit)) /\
    commit_wrapper (started env repo_dir log_dir v w) !! 4%nat
      = Some (PInt (launch_pid l)) /\
    commit_wrapper w' !! 4%nat = Some (PStr "") /\
    (exists more,
       events w' =
         events (started env repo_dir log_dir v w)
         ++ shutdown_actions l ++ [Release] ++ more) /\
    exists w'',
      start_attempt env repo_dir log_dir v' w' = Some (Ok (launched v'), w'') /\
      commit_wrapper w'' !! 0%nat
        = commit_wrapper (started env repo_dir log_dir v w) !! 0%nat /\
      commit_wrapper w'' !! 1%nat = Some (PInt (try_counter v + 1)) /\
      commit_wrapper w'' !! 3%nat = Some (PStr "").
Proof.
  intros Hready l Hc He Hs Hq Hbefore Hfail new_commit v'.
  destruct (runner_iteration_planned fuel v w Hready Hc He Hs Hq) as (_ & ->).
  fold new_commit.
  assert (Hlen : length (commit_wrapper (after_stop env repo_dir log_dir v w)) = 5%nat).
  { destruct Hready as (Hcw & _). unfold after_stop, stopped, started.
    board_simpl. rewrite !length_insert. exact Hcw. }
  rewrite (planned_restart_aborts s fuel (launched v) new_commit _ w1 w2
             Hlen Hbefore Hfail).
  pose proof (quiet_steps_before _ _ _ _ _ Hbefore)
    as (A1 & A2 & A3 & A4 & A5 & m1 & A6).
  pose proof (quiet_step_body _ _ _ _ Hfail)
    as (B1 & B2 & B3 & B4 & B5 & m2 & B6).
  assert (Hcw' : commit_wrapper (aborted s new_commit w2) =
                 <[3%nat := PStr (step_error s new_commit)]>
                   (commit_wrapper (after_stop env repo_dir log_dir v w))).
  { unfold aborted. cbn [commit_wrapper]. rewrite B1, A1. reflexivity. }
  assert (Hready' : ready log_dir v' (aborted s new_commit w2)).
  { destruct Hready as (Hcw & Hcan & Hlock & Hdir). unfold ready.
    rewrite Hcw', length_insert. split; [exact Hlen|].
    unfold aborted. cbn [can_access_mc mc_lock log_dirs].
    rewrite B2, A2, B3, A3, B5, A5. unfold after_stop, stopped, started.
    board_simpl. rewrite !length_insert. repeat split; try assumption.
    subst v'. cbn [commit]. rewrite lookup_insert_eq. eauto. }
  pose proof (start_attempt_ready v' _ Hready') as Hstart.
  exists (aborted s new_commit w2).
  split; [reflexivity|].
  destruct Hready as (Hcw & Hcan & Hlock & Hdir).
  rewrite Hcw'.
  split; [|split; [|split; [|split; [|split; [|split]]]]].
  - unfold after_stop, stopped, started. board_simpl.
    destruct_board w. five_and_one. reflexivity.
  - unfold after_stop, stopped, started. board_simpl.
    destruct_board w. five_and_one. reflexivity.
  - unfold after_stop, stopped, started. board_simpl.
    destruct_board w. five_and_one. reflexivity.
  - unfold started. board_simpl. destruct_board w. five_and_one. reflexivity.
  - unfold after_stop, stopped, started. board_simpl.
    destruct_board w. five_and_one. reflexivity.
  - exists (m1 ++ m2 ++ step_published s).
    unfold aborted. cbn [events]. rewrite B6, A6.
    unfold after_stop, stopped. board_simpl. fold l.
    rewrite <- !app_assoc. reflexivity.
  - eexists. split; [exact Hstart|].
    unfold started at 1 3 4. cbn [commit_wrapper]. rewrite Hcw'.
    unfold after_stop, stopped, started. board_simpl.
    destruct_board w. five_and_one. repeat split; reflexivity.
Qed.

(** *** The retry loops of the start-up *)

Lemma retry_until_success_policy {A} (body : M world A) (message : string) :
  retries_every_600s
    (fun fuel => retry_until_success fuel body
                   (mc_queue_put (Some message) ;; sleep 600))
    body message.
Proof.
  split.
  - intros n w wn a w' Hfails Hok.
    induction Hfails as [w|n w w1 wn Hfail _ IH]; intros fuel Hfuel;
      (destruct fuel as [|fuel]; [lia|]); cbn [retry_until_success];
      unfold try_except.
    + rewrite Hok. reflexivity.
    + rewrite Hfail. cbn [is_SubprocessError].
      unfold bind at 1. unfold mc_queue_put, sleep, emit, modify, bind.
      apply IH; [exact Hok|lia].
  - intros w Hall fuel. revert w Hall.
    induction fuel as [|fuel IH]; intros w Hall; [reflexivity|].
    cbn [retry_until_success]. unfold try_except.
    destruct (Hall 0%nat w (fails_zero _ _ _)) as (w1 & Hfail).
    rewrite Hfail. cbn [is_SubprocessError].
    unfold bind at 1. unfold mc_queue_put, sleep, emit, modify, bind.
    apply IH. intros n wn Hn. apply (Hall (S n)).
    eapply fails_succ; eassumption.
Qed.

(** The toolchain update in terms of exit codes: as long as [rustup update]
    exits with a non-zero status it is run again after a failure text and
    600 seconds. *)
Lemma update_rust_fails_times (n : nat) :
  forall w,
    (forall i, (i < n)%nat -> cmd_exit env (commands_run w + i) <> 0) ->
    fails_times (update_rust env) "Failed to update rust!" n w (rust_retried n w).
Proof.
  induction n as [|n IH]; intros w Hfail.
  - replace (rust_retried 0 w) with w; [constructor|].
    destruct w. unfold rust_retried. cbn. rewrite Nat.add_0_r, app_nil_r.
    reflexivity.
  - eapply fails_succ.
    + unfold update_rust, run_command.
      specialize (Hfail 0%nat ltac:(lia)). rewrite Nat.add_0_r in Hfail.
      apply Z.eqb_neq in Hfail. rewrite Hfail. reflexivity.
    + match goal with
      | |- fails_times _ _ _ ?w1 _ =>
          replace (rust_retried (S n) w) with (rust_retried n w1); [apply IH|]
      end.
      * intros i Hi. board_simpl. specialize (Hfail (S i) ltac:(lia)).
        replace (S (commands_run w) + i)%nat with (commands_run w + S i)%nat
          by lia. exact Hfail.
      * unfold rust_retried. board_simpl. f_equal; [lia|].
        cbn [repeat concat]. rewrite <- !app_assoc. reflexivity.
Qed.

Lemma update_rust_loop_trace (n fuel : nat) (w : world) :
  (forall i, (i < n)%nat -> cmd_exit env (commands_run w + i) <> 0) ->
  cmd_exit env (commands_run w + n) = 0 ->
  (n < fuel)%nat ->
  update_rust_loop env fuel w =
    Some (Ok tt,
          add_event (Command "rustup update" None)
            (set_commands_run (S (commands_run w + n)) (rust_retried n w))).
Proof.
  intros Hfail Hok Hfuel.
  apply (proj1 (retry_until_success_policy (update_rust env)
                  "Failed to update rust!") n w (rust_retried n w));
    [apply update_rust_fails_times, Hfail| |exact Hfuel].
  unfold update_rust, run_command. cbn [commands_run rust_retried].
  apply Z.eqb_eq in Hok. rewrite Hok. reflexivity.
Qed.

Lemma update_rust_loop_never (fuel : nat) (w : world) :
  (forall i, cmd_exit env (commands_run w + i) <> 0) ->
  update_rust_loop env fuel w = None.
Proof.
  intros Hfail.
  apply (proj2 (retry_until_success_policy (update_rust env)
                  "Failed to update rust!") w).
  intros n wn Hn.
  assert (Hcount : forall m u u',
            fails_times (update_rust env) "Failed to update rust!" m u u' ->
            commands_run u' = (commands_run u + m)%nat).
  { induction 1 as [u|m u u1 u' Hf _ IH]; [lia|].
    rewrite IH. unfold update_rust, run_command in Hf.
    destruct (cmd_exit env (commands_run u) =? 0); [discriminate|].
    injection Hf as <-. board_simpl. lia. }
  apply Hcount in Hn. unfold update_rust, run_command. rewrite Hn.
  specialize (Hfail n). apply Z.eqb_neq in Hfail. rewrite Hfail. eauto.
Qed.


End SupervisorProperties.

(** ** Concrete runs *)

Lemma w_aaa_ready : ready "/logs" v_aaa w_aaa.
Proof.
  unfold ready. repeat split; try reflexivity. exists ∅. reflexivity.
Defined.


(** C1, the claim as stated fails. "bbb" and "ccc" are pushed while pid
    4242 runs, and the first command of the repo sync fails: the child has
    been signalled and killed, and the recorded pid is no longer 4242. *)
Lemma failed_sync_has_stopped_the_child :
  exists w1 v' w',
    start_attempt (env_with 5 launch_updated) "/repo" "/logs" v_aaa w_aaa
      = Some (Ok (launched v_aaa), w1) /\
    commit_wrapper w1 !! 4%nat = Some (PInt 4242) /\
    runner_iteration (env_with 5 launch_updated) "/repo" "/plugins" "/logs" 1
      v_aaa w_aaa = Some (Ok v', w') /\
    commit_wrapper w' !! 3%nat = Some (PStr (msg_update_repo "ccc")) /\
    commit_wrapper w' !! 4%nat = Some (PStr "") /\
    commit_wrapper w' !! 4%nat <> commit_wrapper w1 !! 4%nat /\
    In SendSigint (events w') /\ In Kill (events w').
Proof.
  do 3 eexists.
  split; [vm_compute; reflexivity|].
  split; [reflexivity|].
  split; [vm_compute; reflexivity|].
  split; [reflexivity|]. split; [reflexivity|]. split; [discriminate|].
  split; cbn; tauto.
Qed.

Lemma failed_rebuild_keeps_revision_witness :
  exists w',
    runner_iteration (env_with 5 launch_updated) "/repo" "/plugins" "/logs" 1
      v_aaa w_aaa
    = Some (Ok (mkLocals "aaa" "first commit" 2 1), w') /\
    commit_wrapper w' !! 0%nat = Some (PStr "aaa") /\
    commit_wrapper w' !! 2%nat = Some (PStr "first commit") /\
    commit_wrapper w' !! 3%nat = Some (PStr (msg_update_repo "ccc")) /\
    commit_wrapper
      (started (env_with 5 launch_updated) "/repo" "/logs" v_aaa w_aaa) !! 4%nat
      = Some (PInt 4242) /\
    commit_wrapper w' !! 4%nat = Some (PStr "") /\
    (exists more,
       events w' =
         events (started (env_with 5 launch_updated) "/repo" "/logs" v_aaa w_aaa)
         ++ [SendSigint; AwaitExit (Some 120); Kill]
         ++ [Release] ++ more) /\
    exists w'',
      start_attempt (env_with 5 launch_updated) "/repo" "/logs"
        (mkLocals "aaa" "first commit" 2 1) w'
      = Some (Ok (launched (mkLocals "aaa" "first commit" 2 1)), w'') /\
      commit_wrapper w'' !! 0%nat = Some (PStr "aaa") /\
      commit_wrapper w'' !! 1%nat = Some (PInt 2) /\
      commit_wrapper w'' !! 3%nat = Some (PStr "").
Proof.
  eapply (failed_rebuild_keeps_revision (env_with 5 launch_updated)
            "/repo" "/plugins" "/logs" SyncRepo 1 v_aaa w_aaa).
  - exact w_aaa_ready.
  - reflexivity.
  - reflexivity.
  - discriminate.
  - discriminate.
  - reflexivity.
  - vm_compute. reflexivity.
Defined.

(** C2, the claim as stated fails. The child exits with code 0 while
    nothing is on the update queue: the error field is not empty
    afterwards. *)
Lemma exit_code_zero_records_an_error :
  exit_while_running (launches (env_with 99 launch_exits_zero) 1) = Some 0 /\
  exists v' w',
    runner_iteration (env_with 99 launch_exits_zero) "/repo" "/plugins" "/logs"
      1 v_aaa w_aaa = Some (Ok v', w') /\
    commit_wrapper w' !! 3%nat = Some (PStr msg_died) /\
    commit_wrapper w' !! 3%nat <> Some (PStr "").
Proof.
  split; [reflexivity|]. do 2 eexists.
  split; [vm_compute; reflexivity|]. split; [reflexivity|discriminate].
Qed.

Lemma unplanned_exit_records_error_and_restarts_witness :
  exists w',
    runner_iteration (env_with 99 launch_exits_zero) "/repo" "/plugins" "/logs"
      1 v_aaa w_aaa
    = Some (Ok (mkLocals "aaa" "first commit" 2 1), w') /\
    commit_wrapper w' !! 3%nat = Some (PStr msg_died) /\
    commit_wrapper w' !! 0%nat = Some (PStr "aaa") /\
    events w' =
      events (started (env_with 99 launch_exits_zero) "/repo" "/logs" v_aaa w_aaa)
      ++ [Release; Put (Some "Binary failure! (Restarting in 5 minutes)");
          Sleep 300] /\
    exists w'',
      start_attempt (env_with 99 launch_exits_zero) "/repo" "/logs"
        (mkLocals "aaa" "first commit" 2 1) w'
      = Some (Ok (launched (mkLocals "aaa" "first commit" 2 1)), w'') /\
      commit_wrapper w'' !! 0%nat = Some (PStr "aaa") /\
      commit_wrapper w'' !! 1%nat = Some (PInt 2) /\
      commit_wrapper w'' !! 3%nat = Some (PStr "").
Proof.
  apply (unplanned_exit_records_error_and_restarts
           (env_with 99 launch_exits_zero) "/repo" "/plugins" "/logs" 1
           v_aaa w_aaa 0 w_aaa_ready eq_refl eq_refl).
Defined.







(** C8, where the code departs from the claim. The supervisor starts on
    "aaa" with an empty log directory and numbers its first attempt 1. An
    update to "bbb" is then built: the first attempt of "bbb" is numbered
    0, in a fresh directory and also in a directory that already holds the
    logs of attempts 1 and 2, where [first_start] itself would give 3. *)
Theorem first_attempt_after_planned_restart :
  (exists v w v' w',
     binary_runner (env_with 99 launch_updated) "/repo" "/plugins" "/logs" 1 1
       initial_world = Some (Ok v, w) /\
     In (OpenW "/logs/aaa/stdout_1.txt") (events w) /\
     commit v = "bbb" /\ try_counter v = 0 /\
     start_attempt (env_with 99 launch_updated) "/repo" "/logs" v w
       = Some (Ok v', w') /\
     events w' =
       events w ++
       [OpenW "/logs/bbb/stdout_0.txt"; OpenW "/logs/bbb/stderr_0.txt";
        Put None; Acquire; StartBinary "/repo/./target/release/pumpkin" 4242]) /\
  (let old_logs : gset string :=
     {["stdout_1.txt"; "stderr_1.txt"; "stdout_2.txt"; "stderr_2.txt"]} in
   let w0 := set_log_dirs (fun _ => {["/logs/bbb" := old_logs]}) initial_world in
   (exists v w,
      binary_runner (env_with 99 launch_updated) "/repo" "/plugins" "/logs" 1 1
        w0 = Some (Ok v, w) /\
      commit v = "bbb" /\ try_counter v = 0 /\
      log_dirs w !! "/logs/bbb" = Some old_logs) /\
   (exists w,
      first_start "/logs" ("bbb", "second commit") w0 =
        Some (Ok (mkLocals "bbb" "second commit" 3 0), w))).
Proof.
  split; [|split].
  - do 4 eexists.
    split; [vm_compute; reflexivity|].
    split; [cbn; tauto|].
    split; [reflexivity|]. split; [reflexivity|].
    split; [vm_compute; reflexivity|]. reflexivity.
  - do 2 eexists.
    split; [vm_compute; reflexivity|].
    split; [reflexivity|]. split; [reflexivity|]. vm_compute. reflexivity.
  - eexists. vm_compute. reflexivity.
Qed.

(** * Further properties

    Properties of the code beyond the claims above, each read off the
    source. *)

(** ** The codec on all numbers *)

Lemma high_bits_test (n : Z) :
  0 <= n -> (Z.land n (Z.lnot 127) =? 0) = (n <? 128).
Proof.
  intros Hn. destruct (Z.ltb_spec n 128) as [Hlt|Hge].
  - apply Z.eqb_eq, high_bits_zero. lia.
  - apply Z.eqb_neq, high_bits_nonzero. exact Hge.
Qed.

Lemma continuation_byte_range (n : Z) :
  continuation_byte (Z.lor (Z.land n 127) 128).
Proof.
  assert (H : 0 <= Z.land n 127 < 128).
  { change 127 with (Z.ones 7). rewrite Z.land_ones by lia.
    apply Z.mod_pos_bound. reflexivity. }
  pose proof (Z.add_lor_land (Z.land n 127) 128) as Hadd.
  rewrite (final_byte_high _ H), Z.add_0_r in Hadd.
  unfold continuation_byte. lia.
Qed.

Lemma log2_shiftr_7 (n : Z) :
  128 <= n -> Z.log2 (Z.shiftr n 7) / 7 = Z.log2 n / 7 - 1.
Proof.
  intros Hn. rewrite Z.log2_shiftr by lia.
  assert (7 <= Z.log2 n) by (apply Z.log2_le_pow2; [lia|exact Hn]).
  rewrite Z.max_r by lia.
  replace (Z.log2 n - 7) with (Z.log2 n + (-1) * 7) by lia.
  rewrite Z.div_add by lia. lia.
Qed.

Lemma log2_small (n : Z) : 0 <= n < 128 -> Z.log2 n / 7 = 0.
Proof.
  intros Hn. apply Z.div_small. split; [apply Z.log2_nonneg|].
  destruct (Z.eq_dec n 0) as [->|Hne]; [reflexivity|].
  apply Z.log2_lt_pow2; lia.
Qed.

Lemma mc_write_var_int_loop_shape (fuel : nat) :
  forall n w w',
    0 <= n -> mc_write_var_int_loop fuel n w = Some w' ->
    exists init last,
      w' = write (init ++ [last]) w /\
      Forall continuation_byte init /\ final_byte last /\
      Z.of_nat (length init) = Z.log2 n / 7.
Proof.
  induction fuel as [|fuel IH]; intros n w w' Hn H; [discriminate|].
  cbn [mc_write_var_int_loop] in H. rewrite high_bits_test in H by exact Hn.
  destruct (Z.ltb_spec n 128) as [Hlt|Hge].
  - injection H as <-. exists [], n. split; [reflexivity|].
    split; [constructor|]. split; [unfold final_byte; lia|].
    rewrite log2_small by lia. reflexivity.
  - apply IH in H as (init & last & -> & Hinit & Hlast & Hlen).
    2:{ apply Z.shiftr_nonneg. exact Hn. }
    exists (Z.lor (Z.land n 127) 128 :: init), last.
    split; [rewrite write_write; reflexivity|].
    split; [constructor; [apply continuation_byte_range|exact Hinit]|].
    split; [exact Hlast|].
    cbn [length]. rewrite Nat2Z.inj_succ, Hlen, log2_shiftr_7 by exact Hge. lia.
Qed.

Lemma var_int_bytes_shape (n : Z) :
  0 <= n ->
  exists init last,
    var_int_bytes n = Some (init ++ [last]) /\
    Forall continuation_byte init /\ final_byte last /\
    Z.of_nat (length init) = Z.log2 n / 7 /\
    mc_var_int_length n = Some (Z.log2 n / 7 + 1).
Proof.
  intros Hn. destruct (mc_write_var_int_total n Hn) as (bytes & Hlen & Hw).
  destruct (mc_write_var_int_loop_shape (var_int_fuel n) n fresh_writer _ Hn
              (Hw fresh_writer)) as (init & last & Heq & Hinit & Hlast & Hl).
  assert (bytes = init ++ [last]) as ->.
  { apply (f_equal written) in Heq. cbn in Heq. exact Heq. }
  exists init, last. split; [|split; [|split; [|split]]]; try assumption.
  - unfold var_int_bytes. rewrite Hw. reflexivity.
  - rewrite Hlen, length_app. cbn [length]. f_equal. lia.
Qed.

(** X1. For a number that is not negative [mc_write_var_int] ends, having
    written [log2 n / 7] bytes between 128 and 255 followed by one byte
    between 0 and 127, and [mc_var_int_length] returns the number of bytes
    written. *)
Theorem mc_write_var_int_shape (n : Z) :
  0 <= n ->
  exists init last,
    var_int_bytes n = Some (init ++ [last]) /\
    Forall continuation_byte init /\ final_byte last /\
    Z.of_nat (length init) = Z.log2 n / 7 /\
    mc_var_int_length n = Some (Z.log2 n / 7 + 1).
Proof. exact (var_int_bytes_shape n). Qed.

Lemma mc_write_var_int_shape_witness :
  exists init last,
    var_int_bytes 300 = Some (init ++ [last]) /\
    Forall continuation_byte init /\ final_byte last /\
    Z.of_nat (length init) = Z.log2 300 / 7 /\
    mc_var_int_length 300 = Some (Z.log2 300 / 7 + 1).
Proof. apply (mc_write_var_int_shape 300). lia. Defined.

Lemma mc_var_int_length_negative (fuel : nat) :
  forall len num, num < 0 -> mc_var_int_length_loop fuel len num = None.
Proof.
  induction fuel as [|fuel IH]; intros len num Hneg; [reflexivity|].
  cbn [mc_var_int_length_loop].
  destruct (Z.land num (Z.lnot 127) =? 0) eqn:E.
  - apply Z.eqb_eq in E.
    assert (Z.land num (Z.lnot 127) < 0)
      by (apply Z.land_neg; split; [lia|reflexivity]).
    lia.
  - apply IH. apply Z.shiftr_neg. exact Hneg.
Qed.

(** X2. On a negative number neither [mc_write_var_int] nor
    [mc_var_int_length] ever returns: their loops have not ended after any
    number of turns. *)
Theorem var_int_negative_never_ends (n : Z) :
  n < 0 ->
  forall fuel,
    (forall w, mc_write_var_int_loop fuel n w = None) /\
    (forall len, mc_var_int_length_loop fuel len n = None).
Proof.
  intros Hn fuel. split.
  - intros w. apply mc_write_var_int_negative, Hn.
  - intros len. apply mc_var_int_length_negative, Hn.
Qed.

Lemma var_int_negative_never_ends_witness :
  (forall w, mc_write_var_int_loop 1000 (-1) w = None) /\
  (forall len, mc_var_int_length_loop 1000 len (-1) = None).
Proof. apply (var_int_negative_never_ends (-1)). lia. Defined.

Lemma lor_below_pow2 (a b k : Z) :
  0 <= a < 2 ^ k -> 0 <= b < 2 ^ k -> 0 <= Z.lor a b < 2 ^ k.
Proof.
  intros Ha Hb. assert (Hnn : 0 <= Z.lor a b) by (apply Z.lor_nonneg; lia).
  split; [exact Hnn|].
  destruct (Z.eq_dec (Z.lor a b) 0) as [->|Hne]; [lia|].
  assert (Hk : 0 < k).
  { destruct (Z_lt_le_dec 0 k) as [Hk|Hk]; [exact Hk|].
    assert (2 ^ k <= 1).
    { destruct (Z.eq_dec k 0) as [->|Hk0]; [cbn; lia|].
      rewrite Z.pow_neg_r by lia. lia. }
    assert (a = 0) as -> by lia. assert (b = 0) as -> by lia.
    contradiction Hne. reflexivity. }
  apply Z.log2_lt_pow2; [lia|].
  rewrite Z.log2_lor by lia.
  apply Z.max_lub_lt.
  - destruct (Z.eq_dec a 0) as [->|Ha0]; [cbn; lia|].
    apply Z.log2_lt_pow2; lia.
  - destruct (Z.eq_dec b 0) as [->|Hb0]; [cbn; lia|].
    apply Z.log2_lt_pow2; lia.
Qed.

Lemma low_seven_shifted (b position : Z) :
  0 <= position ->
  0 <= Z.shiftl (Z.land b 127) position < 2 ^ (position + 7).
Proof.
  intros Hp.
  assert (H : 0 <= Z.land b 127 < 128).
  { change 127 with (Z.ones 7). rewrite Z.land_ones by lia.
    apply Z.mod_pos_bound. reflexivity. }
  rewrite Z.shiftl_mul_pow2, Z.pow_add_r by lia.
  change (2 ^ 7) with 128. nia.
Qed.

Lemma read_one (r r' : StreamReader) (data : list Z) :
  read 1 r = (data, r') ->
  (data = [] /\ pending r = [] /\ pending r' = []) \/
  (exists b, data = [b] /\ pending r = b :: pending r').
Proof.
  intros H. pose proof (read_pending 1 r r' data H) as Hp.
  pose proof (read_length 1 r r' data ltac:(lia) H) as Hl.
  destruct data as [|b [|b' data]]; [left|right|cbn in Hl; lia].
  - destruct (pending r) as [|b rest] eqn:E.
    + split; [reflexivity|]. split; [reflexivity|]. symmetry. exact Hp.
    + destruct (read_one_cons r b rest E) as (r1 & Hr & _). congruence.
  - exists b. split; [reflexivity|exact Hp].
Qed.

Lemma mc_read_var_int_loop_outcomes (fuel : nat) :
  forall value position bytes_read r out r',
    0 <= position < 32 -> 0 <= value < 2 ^ position ->
    mc_read_var_int_loop fuel value position bytes_read r = Some (out, r') ->
    exists init,
      Forall has_continuation_bit init /\
      match out with
      | Ok (n, len) =>
          exists last,
            pending r = init ++ last :: pending r' /\
            ~ has_continuation_bit last /\
            len = bytes_read + Z.of_nat (length init) + 1 /\
            position + 7 * Z.of_nat (length init) < 32 /\
            0 <= n < 2 ^ (position + 7 * Z.of_nat (length init) + 7)
      | Raise e =>
          pending r = init ++ pending r' /\
          ((e = IndexError /\ pending r' = [] /\
            position + 7 * Z.of_nat (length init) < 32) \/
           (e = MCException VarIntTooBig /\
            32 <= position + 7 * Z.of_nat (length init) < 39))
      end.
Proof.
  induction fuel as [|fuel IH]; intros value position bytes_read r out r' Hp Hv H;
    [discriminate|].
  cbn [mc_read_var_int_loop] in H.
  destruct (read 1 r) as [data r1] eqn:Hread.
  apply read_one in Hread as [(-> & Hr & Hr1)|(b & -> & Hr)].
  - injection H as <- <-. exists []. split; [constructor|].
    split; [rewrite Hr, Hr1; reflexivity|]. left. cbn [length]. split; [reflexivity|].
    split; [exact Hr1|lia].
  - assert (Hval : 0 <= Z.lor value (Z.shiftl (Z.land b 127) position)
                   < 2 ^ (position + 7)).
    { apply lor_below_pow2; [|apply low_seven_shifted; lia].
      split; [lia|]. apply Z.lt_le_trans with (2 ^ position); [lia|].
      apply Z.pow_le_mono_r; lia. }
    destruct (Z.land b 128 =? 0) eqn:Eb.
    + injection H as <- <-. exists []. split; [constructor|].
      exists b. cbn [length app]. split; [exact Hr|].
      split; [unfold has_continuation_bit; apply Z.eqb_eq in Eb; lia|].
      split; [lia|]. split; [lia|].
      replace (position + 7 * Z.of_nat 0 + 7) with (position + 7) by lia.
      exact Hval.
    + apply Z.eqb_neq in Eb.
      destruct (32 <=? position + 7) eqn:E32.
      * injection H as <- <-. apply Z.leb_le in E32.
        exists [b]. split; [repeat constructor; exact Eb|].
        split; [exact Hr|]. right. cbn [length]. split; [reflexivity|lia].
      * apply Z.leb_gt in E32.
        apply IH in H as (init & Hinit & Hout); [|lia|exact Hval].
        exists (b :: init). split; [constructor; [exact Eb|exact Hinit]|].
        cbn [length]. rewrite Nat2Z.inj_succ.
        destruct out as [[n len]|e].
        -- destruct Hout as (last & Hr1 & Hlast & -> & Hlt & Hn).
           exists last. split; [rewrite Hr, Hr1; reflexivity|].
           split; [exact Hlast|]. split; [lia|]. split; [lia|].
           replace (position + 7 * Z.succ (Z.of_nat (length init)) + 7)
             with (position + 7 + 7 * Z.of_nat (length init) + 7) by lia.
           exact Hn.
        -- destruct Hout as (Hr1 & Hcase).
           split; [rewrite Hr, Hr1; reflexivity|].
           destruct Hcase as [(-> & Hnil & Hlt)|(-> & Hge)];
             [left|right]; repeat split; try assumption; lia.
Qed.

(** X3. Whatever the stream holds, [mc_read_var_int] consumes a run of
    bytes that have the high bit set and then either returns at the first
    byte without it, which is at most the fifth byte read, with the count of
    bytes read and a value below 2^(7 * count); or raises [IndexError]
    because the stream ends after at most four such bytes; or raises
    "VarInt too big" after exactly five of them. What it has not consumed
    stays on the stream. *)
Theorem mc_read_var_int_outcomes (r r' : StreamReader) (out : result (Z * Z)) :
  mc_read_var_int r = (out, r') ->
  exists init,
    Forall has_continuation_bit init /\
    match out with
    | Ok (n, len) =>
        exists last,
          pending r = init ++ last :: pending r' /\
          ~ has_continuation_bit last /\
          len = Z.of_nat (length init) + 1 /\
          (length init <= 4)%nat /\
          0 <= n < 2 ^ (7 * len)
    | Raise e =>
        pending r = init ++ pending r' /\
        ((e = IndexError /\ pending r' = [] /\ (length init <= 4)%nat) \/
         (e = MCException VarIntTooBig /\ length init = 5%nat))
    end.
Proof.
  intros H. pose proof (mc_read_var_int_unfold r) as Hu. rewrite H in Hu.
  apply mc_read_var_int_loop_outcomes in Hu as (init & Hinit & Hout);
    [|lia|cbn; lia].
  exists init. split; [exact Hinit|].
  destruct out as [[n len]|e].
  - destruct Hout as (last & Hp & Hlast & -> & Hlt & Hn).
    exists last. repeat split; try assumption; try lia.
    replace (7 * (0 + Z.of_nat (length init) + 1))
      with (0 + 7 * Z.of_nat (length init) + 7) by lia.
    lia.
  - destruct Hout as (Hp & Hcase). split; [exact Hp|].
    destruct Hcase as [(-> & Hnil & Hlt)|(-> & Hge)]; [left|right];
      repeat split; try assumption; lia.
Qed.

Lemma mc_read_var_int_outcomes_witness :
  exists init,
    Forall has_continuation_bit init /\
    [0x81; 0x82] = init ++ [] /\
    ((IndexError = IndexError /\ @nil Z = [] /\ (length init <= 4)%nat) \/
     (IndexError = MCException VarIntTooBig /\ length init = 5%nat)).
Proof.
  apply (mc_read_var_int_outcomes (mkReader [0x81] [[0x82]]) (mkReader [] [])
           (Raise IndexError)).
  reflexivity.
Defined.

Lemma continuation_byte_has_bit (b : Z) :
  continuation_byte b -> has_continuation_bit b.
Proof.
  intros [Hlo Hhi]. unfold has_continuation_bit.
  rewrite <- (low_seven_and_rest b).
  replace (Z.shiftr b 7) with 1.
  - apply continuation_byte_high.
  - rewrite Z.shiftr_div_pow2 by lia. change (2 ^ 7) with 128.
    apply Z.div_unique with (b - 128); lia.
Qed.

(** X4. A number from 2^35 on is written as six bytes or more, and
    reading these bytes back raises "VarInt too big": the decoder refuses
    what the encoder writes. *)
Theorem var_int_beyond_35_bits_is_rejected (n : Z) (bytes rest : list Z)
    (r : StreamReader) :
  2 ^ 35 <= n ->
  var_int_bytes n = Some bytes ->
  pending r = bytes ++ rest ->
  (6 <= length bytes)%nat /\
  exists r', mc_read_var_int r = (Raise (MCException VarIntTooBig), r').
Proof.
  intros Hn Hbytes Hpend.
  destruct (var_int_bytes_shape n ltac:(lia))
    as (init & last & Hb & Hinit & _ & Hlen & _).
  rewrite Hbytes in Hb. injection Hb as ->.
  assert (H5 : 5 <= Z.log2 n / 7).
  { apply Z.div_le_lower_bound; [lia|]. apply Z.log2_le_pow2; lia. }
  split; [rewrite length_app; cbn [length]; lia|].
  destruct init as [|b1 [|b2 [|b3 [|b4 [|b5 init]]]]]; cbn [length] in Hlen;
    try lia.
  repeat match goal with
    | H : Forall _ (_ :: _) |- _ => apply Forall_cons_1 in H as [? H]
    end.
  destruct (mc_read_var_int_five_continuations r b1 b2 b3 b4 b5
              ((init ++ [last]) ++ rest)) as (r' & Hr & _);
    try (apply continuation_byte_has_bit; assumption).
  - rewrite Hpend. rewrite <- !app_assoc. reflexivity.
  - exists r'. exact Hr.
Qed.

Lemma var_int_beyond_35_bits_is_rejected_witness :
  (6 <= length [128; 128; 128; 128; 128; 1])%nat /\
  exists r',
    mc_read_var_int (mkReader [128; 128; 128] [[128; 128; 1; 7]])
      = (Raise (MCException VarIntTooBig), r').
Proof.
  apply (var_int_beyond_35_bits_is_rejected (2 ^ 35) [128; 128; 128; 128; 128; 1]
           [7] (mkReader [128; 128; 128] [[128; 128; 1; 7]]));
    [lia|vm_compute; reflexivity|reflexivity].
Defined.

(** X5. Every number from 0 to 2^35 - 1 is written as one to five bytes,
    [mc_var_int_length] gives their count, and [mc_read_var_int] returns the
    number and that count from any stream that starts with these bytes,
    leaving what follows them unread. *)
Theorem var_int_codec_round_trip (n : Z) :
  0 <= n < 2 ^ 35 ->
  exists bytes,
    var_int_bytes n = Some bytes /\
    (1 <= length bytes <= 5)%nat /\
    mc_var_int_length n = Some (Z.of_nat (length bytes)) /\
    forall r rest, pending r = bytes ++ rest ->
      decodes r n (Z.of_nat (length bytes)) rest.
Proof. exact (var_int_round_trip n). Qed.

Lemma var_int_codec_round_trip_witness :
  exists bytes,
    var_int_bytes 25565 = Some bytes /\
    (1 <= length bytes <= 5)%nat /\
    mc_var_int_length 25565 = Some (Z.of_nat (length bytes)) /\
    forall r rest, pending r = bytes ++ rest ->
      decodes r 25565 (Z.of_nat (length bytes)) rest.
Proof. apply (var_int_codec_round_trip 25565). lia. Defined.

(** ** The answers of [handle_mc] *)

Section ReplyPacket.

Variable json_dumps : mc_data -> string.

Lemma respond_packet (data : mc_data) (r : StreamReader) (w : StreamWriter)
    (printed : list exn) :
  exists packet,
    reply_packet (json_dumps data) packet /\
    respond json_dumps data (mkConn r w printed)
    = Some (if connection_lost w then Raise OSError else Ok tt,
            mkConn r (write packet w) printed).
Proof.
  unfold respond. cbv zeta.
  set (n := str_len (json_dumps data)).
  assert (Hn : 0 <= n) by (unfold n, str_len; lia).
  destruct (mc_write_var_int_total n Hn) as (bn & Hln & Hwn).
  destruct (mc_write_var_int_total (1 + Z.of_nat (length bn) + n) ltac:(lia))
    as (bt & _ & Hwt).
  exists (bt ++ [0] ++ bn ++ str_encode (json_dumps data)). split.
  - exists bt, bn. fold n. split; [|split; [|reflexivity]].
    + unfold var_int_bytes. rewrite Hwn. reflexivity.
    + unfold var_int_bytes. rewrite Hwt. reflexivity.
  - unfold bind, from_option, on_writer, ret.
    change (mc_var_int_length 0) with (Some 1). rewrite Hln.
    cbn [conn_writer conn_reader conn_printed].
    rewrite Hwt. cbn [conn_writer conn_reader conn_printed].
    change (mc_write_var_int 0 (write bt w)) with (Some (write [0] (write bt w))).
    cbn [conn_writer conn_reader conn_printed]. rewrite Hwn.
    cbn [conn_writer conn_reader conn_printed].
    rewrite !write_write. unfold await_drain.
    cbn [conn_writer conn_reader conn_printed write connection_lost].
    destruct (connection_lost w); reflexivity.
Qed.

End ReplyPacket.

Lemma reads_only_ret {A} (a : A) (post : A -> Prop) :
  post a -> reads_only (ret a) post.
Proof. intros H c. exists (Ok a), c. auto. Qed.

Lemma reads_only_raise {A} (e : exn) (post : A -> Prop) :
  is_Exception e = true -> reads_only (raise e) post.
Proof. intros H c. exists (Raise e), c. auto. Qed.

Lemma reads_only_bind {A B} (m : M connection A) (k : A -> M connection B)
    (mid : A -> Prop) (post : B -> Prop) :
  reads_only m mid -> (forall a, mid a -> reads_only (k a) post) ->
  reads_only (bind m k) post.
Proof.
  intros Hm Hk c. destruct (Hm c) as (out & c1 & E & Hw & Hp & Hout).
  unfold bind. rewrite E. destruct out as [a|e].
  - destruct (Hk a Hout c1) as (out' & c' & E' & Hw' & Hp' & Hout').
    exists out', c'. rewrite E'. repeat split; [congruence|congruence|exact Hout'].
  - exists (Raise e), c1. auto.
Qed.

Lemma reads_only_await_read (n : Z) : reads_only (await_read n) (fun _ => True).
Proof.
  intros c. unfold await_read. destruct (read n (conn_reader c)) as [data r].
  eexists _, _. split; [reflexivity|]. cbn. auto.
Qed.

Lemma reads_only_await_mc_read_var_int :
  reads_only await_mc_read_var_int (fun _ => True).
Proof.
  intros c. unfold await_mc_read_var_int.
  destruct (mc_read_var_int (conn_reader c)) as [out r] eqn:E.
  eexists _, _. split; [reflexivity|]. cbn. split; [reflexivity|].
  split; [reflexivity|]. destruct out as [a|e]; [exact I|].
  eapply mc_read_var_int_raises, E.
Qed.

Section HandleMCAnswers.

Variable json_dumps : mc_data -> string.

Lemma answers_or_raises_bind {A} (current_error : string) (m : M connection A)
    (k : A -> M connection unit) (mid : A -> Prop) :
  reads_only m mid -> (forall a, mid a -> answers_or_raises json_dumps current_error (k a)) ->
  answers_or_raises json_dumps current_error (bind m k).
Proof.
  intros Hm Hk c. destruct (Hm c) as (out & c1 & E & Hw & Hp & Hout).
  unfold bind. rewrite E. destruct out as [a|e].
  - destruct (Hk a Hout c1) as (out' & c' & E' & Hp' & Hout').
    exists out', c'. rewrite E'. split; [reflexivity|]. split; [congruence|].
    rewrite <- Hw. exact Hout'.
  - exists (Raise e), c1. split; [reflexivity|]. split; [exact Hp|].
    left. exists e. auto.
Qed.

Lemma answers_or_raises_respond (current_error : string) (data : mc_data) :
  answers current_error data ->
  answers_or_raises json_dumps current_error (respond json_dumps data).
Proof.
  intros Hdata [r w printed].
  destruct (respond_packet json_dumps data r w printed) as (packet & Hpacket & E).
  eexists _, (mkConn r (write packet w) printed).
  split; [exact E|]. split; [reflexivity|]. right. exists data, packet. auto.
Qed.

(** X6. Whatever the client sends, [handle_mc] returns without an
    exception and with the writer closed, and it has either printed one
    exception and written nothing, or written exactly one reply packet,
    whose text is [json.dumps] of the plain text answer or of the status
    answer, both carrying the current error. In the second case it has
    printed nothing, unless the connection is lost by the time of the
    drain: it has then printed the exception the drain raised. *)
Theorem handle_mc_answers_once_or_not_at_all (current_error : string)
    (c : connection) :
  exists c',
    handle_mc json_dumps current_error c = Some (Ok tt, c') /\
    closed (conn_writer c') = true /\
    ((exists e, conn_printed c' = conn_printed c ++ [e] /\
                written (conn_writer c') = written (conn_writer c)) \/
     (exists data packet,
        answers current_error data /\
        reply_packet (json_dumps data) packet /\
        written (conn_writer c') = written (conn_writer c) ++ packet /\
        conn_printed c' =
          conn_printed c
          ++ (if connection_lost (conn_writer c) then [OSError] else []))).
Proof.
  assert (Hbody : answers_or_raises json_dumps current_error
    (packet <- await_mc_read_var_int ;;
     let packet_length := fst packet in
     packet <- await_mc_read_var_int ;;
     let '(packet_id, id_bytes) := packet in
     let data := TextData current_error in
     data <-
       (if packet_id =? 0 then
          protocol_version <- await_mc_read_var_int ;;
          server_address_length <- await_mc_read_var_int ;;
          if 255 <? fst server_address_length
          then raise (MCException ServerAddressTooBig)
          else
            await_read (fst server_address_length) ;;
            await_read 2 ;;
            next_state <- await_mc_read_var_int ;;
            let real_packet_length :=
              id_bytes + snd protocol_version
              + snd server_address_length + fst server_address_length
              + 2 + snd next_state in
            if negb (real_packet_length =? packet_length)
            then raise (MCException
                          (BadPacketLength real_packet_length packet_length))
            else if fst next_state =? 1 then
              await_read 2 ;;
              ret (StatusData (fst protocol_version) current_error)
            else ret data
        else ret data) ;;
     respond json_dumps data)).
  { eapply answers_or_raises_bind; [apply reads_only_await_mc_read_var_int|].
    intros packet0 _. cbv zeta.
    eapply answers_or_raises_bind; [apply reads_only_await_mc_read_var_int|].
    intros [packet_id id_bytes] _.
    eapply answers_or_raises_bind with (mid := answers current_error);
      [|intros data Hdata; apply answers_or_raises_respond, Hdata].
    destruct (packet_id =? 0); [|apply reads_only_ret; left; reflexivity].
    eapply reads_only_bind; [apply reads_only_await_mc_read_var_int|].
    intros protocol_version _.
    eapply reads_only_bind; [apply reads_only_await_mc_read_var_int|].
    intros server_address_length _.
    destruct (255 <? fst server_address_length);
      [apply reads_only_raise; reflexivity|].
    eapply reads_only_bind; [apply reads_only_await_read|]. intros _ _.
    eapply reads_only_bind; [apply reads_only_await_read|]. intros _ _.
    eapply reads_only_bind; [apply reads_only_await_mc_read_var_int|].
    intros next_state _.
    destruct (negb _); [apply reads_only_raise; reflexivity|].
    destruct (fst next_state =? 1); [|apply reads_only_ret; left; reflexivity].
    eapply reads_only_bind; [apply reads_only_await_read|]. intros _ _.
    apply reads_only_ret. right. eexists. reflexivity. }
  destruct (Hbody c) as (out & c1 & E & Hp & Hout).
  unfold handle_mc, try_finally, try_except.
  unfold respond in E. rewrite E.
  destruct Hout as [(e & -> & He & Hw)|(data & packet & Hdata & Hpacket & Hw & ->)].
  - rewrite He.
    unfold print_exn, modify, on_writer. cbn [conn_reader conn_writer conn_printed].
    eexists. split; [reflexivity|]. cbn [conn_writer conn_printed closed close written].
    split; [reflexivity|]. left. exists e. rewrite Hw, Hp. auto.
  - destruct (connection_lost (conn_writer c)).
    + cbn [is_Exception].
      unfold print_exn, modify, on_writer. cbn [conn_reader conn_writer conn_printed].
      eexists. split; [reflexivity|].
      cbn [conn_writer conn_printed closed close written].
      split; [reflexivity|]. right. exists data, packet.
      rewrite Hw, Hp. auto.
    + unfold on_writer. cbn [conn_reader conn_writer conn_printed].
      eexists. split; [reflexivity|].
      cbn [conn_writer conn_printed closed close written].
      split; [reflexivity|]. right. exists data, packet.
      rewrite Hw, Hp, app_nil_r. auto.
Qed.

End HandleMCAnswers.

Lemma str_encode_length (s : string) :
  Z.of_nat (length (str_encode s)) = str_len s.
Proof.
  unfold str_encode, str_len. rewrite length_map. f_equal.
  induction s as [|a s IH]; [reflexivity|]. cbn. f_equal. exact IH.
Qed.

Lemma var_int_decodes (n : Z) (bytes rest : list Z) (r : StreamReader) :
  0 <= n < 2 ^ 35 -> var_int_bytes n = Some bytes -> pending r = bytes ++ rest ->
  (1 <= length bytes <= 5)%nat /\
  exists r', mc_read_var_int r = (Ok (n, Z.of_nat (length bytes)), r')
             /\ pending r' = rest.
Proof.
  intros Hn Hb Hp.
  destruct (var_int_round_trip n Hn) as (bytes' & Hb' & Hlen & _ & Hdec).
  rewrite Hb in Hb'. injection Hb' as <-. split; [exact Hlen|].
  exact (Hdec r rest Hp).
Qed.

(** X7. The reply of [handle_mc] is well framed, for a text of less than
    2^34 characters: a client that reads it with [mc_read_var_int] gets the
    number of bytes that follow the length prefix, then the packet id 0,
    then the length of the text, and is left with the text followed by
    whatever came after the packet. *)
Theorem reply_packet_parses (text : string) (packet rest : list Z)
    (r : StreamReader) :
  reply_packet text packet ->
  str_len text < 2 ^ 34 ->
  pending r = packet ++ rest ->
  exists r1 r2 r3 n1 n3,
    mc_read_var_int r = (Ok (Z.of_nat (length packet) - n1, n1), r1) /\
    mc_read_var_int r1 = (Ok (0, 1), r2) /\
    mc_read_var_int r2 = (Ok (Z.of_nat (length (str_encode text)), n3), r3) /\
    pending r3 = str_encode text ++ rest.
Proof.
  intros (lp & tp & Htp & Hlp & ->) Hsmall Hpend.
  assert (Hlen : 0 <= str_len text) by (unfold str_len; lia).
  rewrite <- !app_assoc in Hpend.
  assert (Htp5 : (length tp <= 5)%nat).
  { destruct (var_int_decodes (str_len text) tp [] (mkReader tp [])
                ltac:(lia) Htp) as (H & _); [|lia].
    unfold pending. cbn. rewrite !app_nil_r. reflexivity. }
  assert (Hbig : 0 <= 1 + Z.of_nat (length tp) + str_len text < 2 ^ 35).
  { change (2 ^ 35) with (2 * 2 ^ 34). lia. }
  destruct (var_int_decodes _ lp _ r Hbig Hlp Hpend)
    as (_ & r1 & Hr1 & Hp1).
  assert (H0 : var_int_bytes 0 = Some [0]) by reflexivity.
  destruct (var_int_decodes 0 [0] _ r1 ltac:(lia) H0 Hp1)
    as (_ & r2 & Hr2 & Hp2).
  destruct (var_int_decodes (str_len text) tp _ r2 ltac:(lia) Htp Hp2)
    as (_ & r3 & Hr3 & Hp3).
  exists r1, r2, r3, (Z.of_nat (length lp)), (Z.of_nat (length tp)).
  split; [|split; [exact Hr2|split; [|exact Hp3]]].
  - rewrite Hr1. do 2 f_equal. f_equal.
    rewrite !length_app. cbn [length].
    pose proof (str_encode_length text). lia.
  - rewrite Hr3, str_encode_length. reflexivity.
Qed.

Lemma reply_packet_parses_witness :
  exists r1 r2 r3 n1 n3,
    mc_read_var_int (mkReader [4; 0; 2] [[104; 105; 9]])
      = (Ok (Z.of_nat (length [4; 0; 2; 104; 105]) - n1, n1), r1) /\
    mc_read_var_int r1 = (Ok (0, 1), r2) /\
    mc_read_var_int r2 = (Ok (Z.of_nat (length (str_encode "hi")), n3), r3) /\
    pending r3 = str_encode "hi" ++ [9].
Proof.
  apply (reply_packet_parses "hi" [4; 0; 2; 104; 105] [9]
           (mkReader [4; 0; 2] [[104; 105; 9]])).
  - exists [4], [2]. repeat split; reflexivity.
  - vm_compute. reflexivity.
  - reflexivity.
Defined.

(** Buffered readers *)

Lemma read_buffered (n : Z) (data rest : list Z) (chunks : list (list Z)) :
  Z.of_nat (length data) = n ->
  read n (mkReader (data ++ rest) chunks) = (data, mkReader rest chunks).
Proof.
  intros Hn. unfold read.
  destruct (n =? 0) eqn:E0.
  - apply Z.eqb_eq in E0. destruct data; [reflexivity|cbn in Hn; lia].
  - apply Z.eqb_neq in E0.
    destruct (n <? 0) eqn:Eneg; [apply Z.ltb_lt in Eneg; lia|].
    destruct data as [|b data]; [cbn in Hn; lia|].
    cbn [buffer feed app]. rewrite <- Hn, Nat2Z.id.
    change (b :: data ++ rest) with ((b :: data) ++ rest).
    rewrite take_app_length, drop_app_length. reflexivity.
Qed.

Lemma mc_read_var_int_loop_buffered (fuel : nat) :
  forall value position bytes_read buf chunks n len r',
    mc_read_var_int_loop fuel value position bytes_read (mkReader buf chunks)
      = Some (Ok (n, len), r') ->
    0 <= len - bytes_read <= Z.of_nat (length buf) ->
    r' = mkReader (drop (Z.to_nat (len - bytes_read)) buf) chunks.
Proof.
  induction fuel as [|fuel IH];
    intros value position bytes_read buf chunks n len r' H Hk; [discriminate|].
  cbn [mc_read_var_int_loop] in H.
  destruct buf as [|b buf].
  - exfalso. cbn [length] in Hk.
    destruct (read 1 (mkReader [] chunks)) as [data r1] eqn:Hread.
    destruct data as [|b data]; [discriminate|].
    destruct (Z.land b 128 =? 0).
    + injection H as _ <- _. lia.
    + destruct (32 <=? position + 7); [discriminate|].
      apply mc_read_var_int_loop_consumed in H as (bytes & _ & ->). lia.
  - change (b :: buf) with ([b] ++ buf) in H.
    rewrite (read_buffered 1 [b] buf chunks eq_refl) in H.
    destruct (Z.land b 128 =? 0).
    + injection H as _ <- <-.
      replace (bytes_read + 1 - bytes_read) with 1 by lia. reflexivity.
    + destruct (32 <=? position + 7); [discriminate|].
      pose proof H as Hc.
      apply mc_read_var_int_loop_consumed in Hc as (bytes & _ & Hlen).
      apply IH in H; [|cbn [length] in Hk; lia].
      rewrite H. f_equal.
      replace (Z.to_nat (len - bytes_read))
        with (S (Z.to_nat (len - (bytes_read + 1)))) by lia.
      reflexivity.
Qed.

Lemma var_int_buffered (n : Z) (bytes rest : list Z) (chunks : list (list Z)) :
  0 <= n < 2 ^ 35 -> var_int_bytes n = Some bytes ->
  (1 <= length bytes <= 5)%nat /\
  mc_read_var_int (mkReader (bytes ++ rest) chunks)
    = (Ok (n, Z.of_nat (length bytes)), mkReader rest chunks).
Proof.
  intros Hn Hb.
  destruct (var_int_decodes n bytes (rest ++ concat chunks)
              (mkReader (bytes ++ rest) chunks) Hn Hb)
    as (Hlen & r' & Hr & _).
  { unfold pending. cbn [buffer feed]. rewrite <- app_assoc. reflexivity. }
  split; [exact Hlen|]. rewrite Hr. f_equal.
  pose proof (mc_read_var_int_unfold (mkReader (bytes ++ rest) chunks)) as Hu.
  rewrite Hr in Hu.
  apply mc_read_var_int_loop_buffered in Hu.
  - rewrite Hu. f_equal. rewrite Z.sub_0_r, Nat2Z.id. apply drop_app_length.
  - rewrite length_app. lia.
Qed.

Section HandleMCHandshake.

Variable json_dumps : mc_data -> string.

(** X8. A well-framed handshake that is wholly buffered (packet id 0,
    protocol version and next state below 2^35, an address of at most 255
    bytes, a port of two bytes) is answered: with the status answer carrying
    the client's protocol version when the next state is 1, after one more
    read of at most two bytes, and with the plain text answer otherwise, the
    bytes after the frame being left unread. Nothing is printed, unless the
    connection is lost by the time of the drain: the handler then prints
    the exception the drain raised. *)
Theorem handle_mc_accepts_handshake (current_error : string)
    (protocol_version next_state : Z) (server_address port frame more : list Z)
    (chunks : list (list Z)) (w : StreamWriter) (printed : list exn) :
  0 <= protocol_version < 2 ^ 35 ->
  0 <= next_state < 2 ^ 35 ->
  (length server_address <= 255)%nat ->
  length port = 2%nat ->
  handshake_frame protocol_version server_address port next_state = Some frame ->
  exists packet,
    handle_mc json_dumps current_error
      (mkConn (mkReader (frame ++ more) chunks) w printed)
    = Some (Ok tt,
            mkConn (if next_state =? 1
                    then snd (read 2 (mkReader more chunks))
                    else mkReader more chunks)
              (close (write packet w))
              (if connection_lost w then printed ++ [OSError] else printed)) /\
    reply_packet
      (json_dumps (if next_state =? 1
                   then StatusData protocol_version current_error
                   else TextData current_error)) packet.
Proof.
  intros Hpv Hns Haddr Hport Hframe.
  unfold handshake_frame in Hframe.
  destruct (var_int_bytes protocol_version) as [pv|] eqn:Epv; [|discriminate].
  destruct (var_int_bytes (Z.of_nat (length server_address))) as [al|] eqn:Eal;
    [|discriminate].
  destruct (var_int_bytes next_state) as [ns|] eqn:Ens; [|discriminate].
  cbn [mbind option_bind] in Hframe.
  destruct (var_int_bytes (Z.of_nat (length ([0] ++ pv ++ al ++ server_address
                                             ++ port ++ ns)))) as [lp|] eqn:Elp;
    [|discriminate].
  cbn [mbind option_bind] in Hframe. injection Hframe as <-.
  destruct (var_int_buffered 0 [0] (pv ++ al ++ server_address ++ port ++ ns ++ more)
              chunks ltac:(lia) eq_refl) as (_ & R0).
  destruct (var_int_buffered _ pv (al ++ server_address ++ port ++ ns ++ more)
              chunks Hpv Epv) as (Lpv & Rpv).
  destruct (var_int_buffered (Z.of_nat (length server_address)) al
              (server_address ++ port ++ ns ++ more) chunks ltac:(lia) Eal)
    as (Lal & Ral).
  destruct (var_int_buffered _ ns more chunks Hns Ens) as (Lns & Rns).
  assert (Hbody : Z.of_nat (length ([0] ++ pv ++ al ++ server_address ++ port ++ ns))
                  = 1 + Z.of_nat (length pv) + Z.of_nat (length al)
                    + Z.of_nat (length server_address) + 2 + Z.of_nat (length ns)).
  { rewrite !length_app. cbn [length]. lia. }
  assert (Hsmall : 0 <= Z.of_nat (length ([0] ++ pv ++ al ++ server_address
                                           ++ port ++ ns)) < 2 ^ 35)
    by (rewrite Hbody; lia).
  destruct (var_int_buffered _ lp
              ([0] ++ pv ++ al ++ server_address ++ port ++ ns ++ more) chunks
              Hsmall Elp) as (_ & Rlp).
  destruct (respond_packet json_dumps
              (if next_state =? 1
               then StatusData protocol_version current_error
               else TextData current_error)
              (if next_state =? 1
               then snd (read 2 (mkReader more chunks))
               else mkReader more chunks) w printed)
    as (packet & Hpacket & Hrespond).
  exists packet.
  split; [|exact Hpacket].
  - unfold handle_mc, try_finally, try_except, bind, await_mc_read_var_int,
      await_read.
    cbn [conn_reader conn_writer conn_printed].
    match goal with
    | |- context [mkReader ?b chunks] =>
        replace b
          with (lp ++ [0] ++ pv ++ al ++ server_address ++ port ++ ns ++ more)
          by (cbn [app];
              repeat first [rewrite <- app_assoc | rewrite <- app_comm_cons];
              reflexivity)
    end.
    rewrite Rlp. cbn [conn_reader conn_writer conn_printed fst snd].
    rewrite R0. cbn [conn_reader conn_writer conn_printed fst snd Z.eqb].
    rewrite Rpv. cbn [conn_reader conn_writer conn_printed fst snd].
    rewrite Ral. cbn [conn_reader conn_writer conn_printed fst snd].
    replace (255 <? Z.of_nat (length server_address)) with false
      by (symmetry; apply Z.ltb_ge; lia).
    cbn [conn_reader conn_writer conn_printed fst snd].
    rewrite (read_buffered _ server_address _ chunks eq_refl).
    cbn [conn_reader conn_writer conn_printed fst snd].
    rewrite (read_buffered 2 port _ chunks) by (rewrite Hport; reflexivity).
    cbn [conn_reader conn_writer conn_printed fst snd].
    rewrite Rns. cbn [conn_reader conn_writer conn_printed fst snd].
    replace (_ =? Z.of_nat (length ([0] ++ pv ++ al ++ server_address ++ port ++ ns)))
      with true by (symmetry; apply Z.eqb_eq; rewrite Hbody; cbn [length]; lia).
    cbn [negb]. unfold respond, bind in Hrespond.
    destruct (next_state =? 1).
    + cbn [conn_reader conn_writer conn_printed].
      destruct (read 2 (mkReader more chunks)) as [request r8].
      cbn [snd] in Hrespond. unfold ret. rewrite Hrespond.
      destruct (connection_lost w); cbn [is_Exception];
        unfold print_exn, modify, on_writer;
        cbn [conn_reader conn_writer conn_printed]; reflexivity.
    + unfold ret. rewrite Hrespond.
      destruct (connection_lost w); cbn [is_Exception];
        unfold print_exn, modify, on_writer;
        cbn [conn_reader conn_writer conn_printed]; reflexivity.
Qed.

(** X9. A packet whose id is not 0 is answered with the plain text answer
    without anything more being read: its declared length is not checked and
    its body is left on the stream. Nothing is printed, unless the
    connection is lost by the time of the drain: the handler then prints
    the exception the drain raised. *)
Theorem handle_mc_other_packet_ids (current_error : string) (c : connection)
    (packet_length length_bytes packet_id id_bytes : Z) (r1 r2 : StreamReader) :
  mc_read_var_int (conn_reader c) = (Ok (packet_length, length_bytes), r1) ->
  mc_read_var_int r1 = (Ok (packet_id, id_bytes), r2) ->
  packet_id <> 0 ->
  exists packet,
    reply_packet (json_dumps (TextData current_error)) packet /\
    handle_mc json_dumps current_error c
    = Some (Ok tt, mkConn r2 (close (write packet (conn_writer c)))
                     (if connection_lost (conn_writer c)
                      then conn_printed c ++ [OSError]
                      else conn_printed c)).
Proof.
  intros H0 H1 Hid.
  destruct (respond_packet json_dumps (TextData current_error) r2
              (conn_writer c) (conn_printed c)) as (packet & Hpacket & Hrespond).
  exists packet. split; [exact Hpacket|].
  unfold handle_mc, try_finally, try_except, bind, await_mc_read_var_int.
  rewrite H0. cbn [conn_reader conn_writer conn_printed fst snd].
  rewrite H1. cbn [conn_reader conn_writer conn_printed fst snd].
  apply Z.eqb_neq in Hid. rewrite Hid.
  unfold respond, bind in Hrespond. unfold ret. rewrite Hrespond.
  destruct (connection_lost (conn_writer c)); cbn [is_Exception];
    unfold print_exn, modify, on_writer;
    cbn [conn_reader conn_writer conn_printed]; reflexivity.
Qed.

End HandleMCHandshake.

(** The probe of the deadlock checker is a handshake for protocol 0 with an
    empty address, port 0 and next state 1, followed by a status request. *)
Lemma handle_mc_accepts_handshake_witness :
  handshake_frame 0 [] [0; 0] 1 = Some [6; 0; 0; 0; 0; 0; 1] /\
  probe_bytes = [6; 0; 0; 0; 0; 0; 1] ++ [1; 0] /\
  exists packet,
    handle_mc tag_dumps "Booting up"
      (mkConn (mkReader probe_bytes []) fresh_writer [])
    = Some (Ok tt, mkConn (mkReader [] []) (close (write packet fresh_writer)) []) /\
    reply_packet (tag_dumps (StatusData 0 "Booting up")) packet.
Proof.
  split; [reflexivity|]. split; [reflexivity|].
  apply (handle_mc_accepts_handshake tag_dumps "Booting up" 0 1 [] [0; 0]
           [6; 0; 0; 0; 0; 0; 1] [1; 0] [] fresh_writer []);
    [lia|lia|cbn; lia|reflexivity|reflexivity].
Defined.

Lemma handle_mc_other_packet_ids_witness :
  exists packet,
    reply_packet (tag_dumps (TextData "Booting up")) packet /\
    handle_mc tag_dumps "Booting up"
      (mkConn (mkReader [0xFE; 0x01; 0xFA; 0x00; 0x0B] []) fresh_writer [])
    = Some (Ok tt, mkConn (mkReader [0x0B] []) (close (write packet fresh_writer)) []).
Proof.
  apply (handle_mc_other_packet_ids tag_dumps "Booting up"
           (mkConn (mkReader [0xFE; 0x01; 0xFA; 0x00; 0x0B] []) fresh_writer [])
           254 2 122 2 (mkReader [0xFA; 0x00; 0x0B] []) (mkReader [0x0B] []));
    [reflexivity|reflexivity|discriminate].
Defined.

(** ** Log file names and the start-up scan *)

Lemma string_app_cons (x : ascii) (a b : string) :
  String x a +:+ b = String x (a +:+ b).
Proof. reflexivity. Qed.

Lemma string_app_assoc (a b c : string) : (a +:+ b) +:+ c = a +:+ (b +:+ c).
Proof.
  induction a as [|x a IH]; [reflexivity|].
  rewrite !string_app_cons, IH. reflexivity.
Qed.

Lemma string_app_nil_r (a : string) : a +:+ "" = a.
Proof.
  induction a as [|x a IH]; [reflexivity|].
  rewrite string_app_cons, IH. reflexivity.
Qed.

Lemma string_length_app (a b : string) :
  String.length (a +:+ b) = (String.length a + String.length b)%nat.
Proof.
  induction a as [|x a IH]; [reflexivity|].
  rewrite string_app_cons. cbn [String.length]. rewrite IH. reflexivity.
Qed.

Lemma string_app_inj_length (a b c d : string) :
  String.length a = String.length b -> a +:+ c = b +:+ d -> a = b /\ c = d.
Proof.
  revert b. induction a as [|x a IH]; intros [|y b] Hlen H; try discriminate.
  - split; [reflexivity|exact H].
  - rewrite !string_app_cons in H. injection H as -> H. injection Hlen as Hlen.
    destruct (IH b Hlen H) as [-> ->]. split; reflexivity.
Qed.

Lemma string_app_inj_r (a b c : string) : a +:+ c = b +:+ c -> a = b.
Proof.
  intros H. apply (string_app_inj_length a b c c); [|exact H].
  apply (f_equal String.length) in H. rewrite !string_length_app in H. lia.
Qed.

Lemma all_chars_app (p : ascii -> bool) (a b : string) :
  all_chars p (a +:+ b) = all_chars p a && all_chars p b.
Proof.
  induction a as [|x a IH]; [reflexivity|].
  rewrite string_app_cons. cbn [all_chars]. rewrite IH.
  apply andb_assoc.
Qed.

Lemma all_chars_impl (p q : ascii -> bool) (s : string) :
  (forall c, p c = true -> q c = true) ->
  all_chars p s = true -> all_chars q s = true.
Proof.
  intros Hpq. induction s as [|c s IH]; [reflexivity|]. cbn [all_chars].
  intros [Hc Hs]%andb_prop. rewrite (Hpq c Hc), (IH Hs). reflexivity.
Qed.

Lemma pretty_N_char_digit (d : N) :
  (d < 10)%N ->
  Py.is_digit (pretty_N_char d) = true /\
  Z.of_N (N_of_ascii (pretty_N_char d)) - 48 = Z.of_N d.
Proof.
  intros Hd.
  assert (d = 0 \/ d = 1 \/ d = 2 \/ d = 3 \/ d = 4 \/ d = 5 \/ d = 6 \/ d = 7
          \/ d = 8 \/ d = 9)%N as H by lia.
  repeat (destruct H as [->|H]; [split; reflexivity|]).
  subst d. split; reflexivity.
Qed.

(** The digits [pretty_N_go] puts in front of its accumulator. *)
Lemma pretty_N_go_digits (x : N) :
  (0 < x)%N ->
  exists ds p,
    (forall s, pretty_N_go x s = ds +:+ s) /\
    ds <> "" /\
    all_chars Py.is_digit ds = true /\
    forall acc b t, Py.digits acc b (ds +:+ t) = Py.digits (acc * p + Z.of_N x) true t.
Proof.
  induction (N.lt_wf_0 x) as [x _ IH]. intros Hx.
  destruct (pretty_N_char_digit (x mod 10)%N) as (Hdig & Hval);
    [apply N.mod_lt; lia|].
  destruct (N.eq_dec (x / 10)%N 0%N) as [Hq|Hq].
  - exists (String (pretty_N_char (x mod 10)%N) ""), 10.
    split; [|split; [discriminate|split]].
    + intros s. rewrite pretty_N_go_step by exact Hx. rewrite Hq.
      reflexivity.
    + cbn [all_chars]. rewrite Hdig. reflexivity.
    + intros acc b t. rewrite string_app_cons. cbn [Py.digits].
      rewrite Hdig, Hval.
      f_equal. pose proof (N.div_mod x 10%N ltac:(lia)) as Hdm.
      apply (f_equal Z.of_N) in Hdm.
      rewrite N2Z.inj_add, N2Z.inj_mul, Hq in Hdm.
      change (Z.of_N 10) with 10 in Hdm. change (Z.of_N 0) with 0 in Hdm.
      revert Hdm. generalize (Z.of_N (x mod 10)%N), (Z.of_N x).
      intros m z ->. ring.
  - destruct (IH (x / 10)%N) as (ds & p & Hgo & Hne & Hall & Hdigits).
    { apply N.div_lt; lia. }
    { apply N.neq_0_lt_0. exact Hq. }
    exists (ds +:+ String (pretty_N_char (x mod 10)%N) ""), (10 * p).
    split; [|split; [|split]].
    + intros s. rewrite pretty_N_go_step by exact Hx. rewrite Hgo.
      rewrite string_app_assoc. reflexivity.
    + destruct ds; [contradiction|discriminate].
    + rewrite all_chars_app, Hall. cbn [all_chars]. rewrite Hdig. reflexivity.
    + intros acc b t. rewrite string_app_assoc, Hdigits.
      rewrite string_app_cons. cbn [Py.digits]. rewrite Hdig, Hval. f_equal.
      pose proof (N.div_mod x 10%N ltac:(lia)) as Hdm.
      apply (f_equal Z.of_N) in Hdm.
      rewrite N2Z.inj_add, N2Z.inj_mul in Hdm.
      change (Z.of_N 10) with 10 in Hdm.
      revert Hdm.
      generalize (Z.of_N (x mod 10)%N), (Z.of_N x), (Z.of_N (x / 10)%N).
      intros m z q ->. ring.
Qed.

Lemma pretty_N_digits (x : N) :
  pretty x <> "" /\
  all_chars Py.is_digit (pretty x) = true /\
  Py.digits 0 false (pretty x) = Some (Z.of_N x).
Proof.
  unfold pretty, pretty_N. destruct (decide (x = 0%N)) as [->|Hx].
  - split; [discriminate|]. split; reflexivity.
  - destruct (pretty_N_go_digits x ltac:(lia)) as (ds & p & Hgo & Hne & Hall & Hd).
    rewrite Hgo, string_app_nil_r. split; [exact Hne|]. split; [exact Hall|].
    rewrite <- (string_app_nil_r ds), Hd. cbn. reflexivity.
Qed.

Lemma numeral_char_facts (c : ascii) :
  numeral_char c = true ->
  Py.is_space c = false /\ c <> "s"%char /\ c <> "."%char.
Proof.
  destruct c as [[] [] [] [] [] [] [] []]; cbn; intros H;
    try discriminate H; repeat split; discriminate.
Qed.

Lemma digit_char_facts (c : ascii) :
  Py.is_digit c = true -> numeral_char c = true /\ c <> "-"%char /\ c <> "+"%char.
Proof.
  destruct c as [[] [] [] [] [] [] [] []]; cbn; intros H;
    try discriminate H; repeat split; discriminate.
Qed.

(** [str(n)] is an optional minus sign followed by digits that [int] reads
    back as [n]. *)
Lemma str_numeral (n : Z) :
  all_chars numeral_char (Py.str n) = true /\ Py.int (Py.str n) = Some n.
Proof.
  assert (Hstrip : forall s, all_chars numeral_char s = true ->
                     Py.lstrip (Py.rstrip s) = s).
  { intros s Hs.
    assert (Hr : Py.rstrip s = s).
    { induction s as [|c s IH]; [reflexivity|]. cbn [all_chars] in Hs.
      apply andb_prop in Hs as [Hc Hs]. cbn [Py.rstrip]. rewrite (IH Hs).
      destruct (numeral_char_facts c Hc) as (-> & _).
      destruct s; reflexivity. }
    rewrite Hr. destruct s as [|c s]; [reflexivity|]. cbn [all_chars] in Hs.
    apply andb_prop in Hs as [Hc _]. cbn [Py.lstrip].
    destruct (numeral_char_facts c Hc) as (-> & _). reflexivity. }
  assert (Hnat : forall x : N,
            all_chars numeral_char (pretty x) = true /\
            Py.int (pretty x) = Some (Z.of_N x)).
  { intros x. destruct (pretty_N_digits x) as (Hne & Hall & Hd).
    assert (Hnum : all_chars numeral_char (pretty x) = true).
    { eapply all_chars_impl; [|exact Hall].
      intros c Hc. apply digit_char_facts, Hc. }
    split; [exact Hnum|]. unfold Py.int. rewrite (Hstrip _ Hnum).
    destruct (pretty x) as [|c s]; [contradiction|].
    cbn [all_chars] in Hall. apply andb_prop in Hall as [Hc _].
    destruct (digit_char_facts c Hc) as (_ & Hm & Hp).
    destruct c as [[] [] [] [] [] [] [] []]; try exact Hd;
      contradiction. }
  unfold Py.str, pretty, pretty_Z. destruct n as [|p|p].
  - split; reflexivity.
  - apply (Hnat (N.pos p)).
  - destruct (Hnat (N.pos p)) as (Hall & Hint).
    destruct (pretty_N_digits (N.pos p)) as (Hne & Hdig & Hd).
    change ("-" +:+ pretty p) with (String "-"%char (pretty (N.pos p))).
    split; [exact Hall|].
    unfold Py.int. rewrite Hstrip by exact Hall.
    rewrite Hd. reflexivity.
Qed.

Lemma prefix_app (a b : string) : String.prefix a (a +:+ b) = true.
Proof.
  induction a as [|x a IH]; [destruct b; reflexivity|].
  rewrite string_app_cons. cbn [String.prefix].
  destruct (ascii_dec x x); [exact IH|contradiction].
Qed.

Lemma substring_app (a b : string) :
  String.substring (String.length a)
    (String.length (a +:+ b) - String.length a) (a +:+ b) = b.
Proof.
  rewrite string_length_app.
  replace (String.length a + String.length b - String.length a)%nat
    with (String.length b) by lia.
  induction a as [|x a IH].
  - cbn [String.length]. change ("" +:+ b) with b.
    induction b as [|y b IHb]; [reflexivity|].
    cbn [String.length String.substring]. rewrite IHb. reflexivity.
  - rewrite string_app_cons. cbn [String.length String.substring]. exact IH.
Qed.

(** A string without the first character of [old] has no occurrence of
    [old]. *)
Lemma replace_loop_absent (o : ascii) (old' new : string) (fuel : nat) :
  forall s,
    all_chars (fun c => negb (Ascii.eqb c o)) s = true ->
    Py.replace_loop fuel (String o old') new s = s.
Proof.
  induction fuel as [|fuel IH]; intros s Hs; [reflexivity|].
  cbn [Py.replace_loop]. destruct s as [|c s]; [reflexivity|].
  cbn [all_chars] in Hs. apply andb_prop in Hs as [Hc Hs].
  cbn [String.prefix]. destruct (ascii_dec o c) as [->|Hne].
  - rewrite Ascii.eqb_refl in Hc. discriminate.
  - rewrite (IH s Hs). reflexivity.
Qed.

Lemma replace_loop_skip (o : ascii) (old' new : string) (d : string) :
  forall fuel tail,
    all_chars (fun c => negb (Ascii.eqb c o)) d = true ->
    Py.replace_loop (String.length d + fuel) (String o old') new (d +:+ tail)
    = d +:+ Py.replace_loop fuel (String o old') new tail.
Proof.
  induction d as [|c d IH]; intros fuel tail Hd; [reflexivity|].
  cbn [all_chars] in Hd. apply andb_prop in Hd as [Hc Hd].
  rewrite !string_app_cons. cbn [String.length Nat.add Py.replace_loop].
  cbn [String.prefix]. destruct (ascii_dec o c) as [->|Hne].
  - rewrite Ascii.eqb_refl in Hc. discriminate.
  - rewrite (IH fuel tail Hd). reflexivity.
Qed.

Lemma numeral_no_s (d : string) :
  all_chars numeral_char d = true ->
  all_chars (fun c => negb (Ascii.eqb c "s")) d = true /\
  all_chars (fun c => negb (Ascii.eqb c ".")) d = true.
Proof.
  intros H. split; (eapply all_chars_impl; [|exact H]); intros c Hc;
    destruct (numeral_char_facts c Hc) as (_ & Hs & Hdot);
    apply negb_true_iff, Ascii.eqb_neq; assumption.
Qed.

(** The number in the name of a log file, as line 592 reads it. *)
Lemma attempt_number_of_log_file (counter : Z) :
  Py.startswith (log_file_name counter false) "stdout_" = true /\
  Py.int (Py.replace (Py.replace (log_file_name counter false) "stdout_" "")
            ".txt" "") = Some counter.
Proof.
  destruct (str_numeral counter) as (Hnum & Hint).
  destruct (numeral_no_s _ Hnum) as (Hs & Hdot).
  unfold log_file_name.
  change ("stdout" +:+ "_" +:+ Py.str counter +:+ ".txt")
    with ("stdout_" +:+ (Py.str counter +:+ ".txt")).
  split; [apply prefix_app|].
  assert (H1 : Py.replace ("stdout_" +:+ (Py.str counter +:+ ".txt")) "stdout_" ""
               = Py.str counter +:+ ".txt").
  { unfold Py.replace. cbn [Py.replace_loop].
    rewrite prefix_app, substring_app.
    change ("" +:+ ?x) with x. apply replace_loop_absent.
    rewrite all_chars_app, Hs. reflexivity. }
  rewrite H1.
  assert (H2 : Py.replace (Py.str counter +:+ ".txt") ".txt" "" = Py.str counter).
  { unfold Py.replace. rewrite string_length_app.
    replace (S (String.length (Py.str counter) + String.length ".txt"))
      with (String.length (Py.str counter) + 5)%nat by (cbn; lia).
    rewrite replace_loop_skip by exact Hdot.
    change (Py.replace_loop 5 ".txt" "" ".txt") with "".
    apply string_app_nil_r. }
  rewrite H2. exact Hint.
Qed.

Lemma log_file_name_inj (c1 c2 : Z) (e1 e2 : bool) :
  log_file_name c1 e1 = log_file_name c2 e2 -> c1 = c2 /\ e1 = e2.
Proof.
  unfold log_file_name. intros H.
  assert (He : e1 = e2).
  { destruct e1, e2; try reflexivity; rewrite !string_app_cons in H;
      discriminate H. }
  subst e2. split; [|reflexivity].
  rewrite <- !string_app_assoc in H.
  apply string_app_inj_r in H. apply String.app_inj in H.
  apply (inj pretty). exact H.
Qed.

(** X10. Within the log directory of one revision, [get_log_file_path]
    gives the same path only for the same attempt number and the same
    stream: no two attempts, and no two streams of an attempt, share a log
    file. *)
Theorem log_file_paths_differ (log_dir commit : string) (c1 c2 : Z)
    (e1 e2 : bool) :
  get_log_file_path log_dir commit c1 e1 = get_log_file_path log_dir commit c2 e2 ->
  c1 = c2 /\ e1 = e2.
Proof.
  unfold get_log_file_path, Py.path_join at 1 3. intros H.
  assert (Hs : forall c e, String.prefix "/" (log_file_name c e) = false).
  { intros c e. unfold log_file_name. destruct e; reflexivity. }
  rewrite !Hs in H.
  destruct (_ || _)%bool.
  - apply String.app_inj in H. apply log_file_name_inj, H.
  - do 2 apply String.app_inj in H. apply log_file_name_inj, H.
Qed.

Lemma log_file_paths_differ_witness :
  get_log_file_path "/logs" "abc" 7 true = "/logs/abc/stderr_7.txt" /\
  (7 = 7 /\ true = true).
Proof.
  split; [vm_compute; reflexivity|].
  apply (log_file_paths_differ "/logs" "abc" 7 7 true true). reflexivity.
Defined.

Lemma fold_left_max_ge (xs : list Z) :
  forall a, a <= fold_left Z.max xs a /\
            forall x, In x xs -> x <= fold_left Z.max xs a.
Proof.
  induction xs as [|y xs IH]; intros a; cbn [fold_left].
  - split; [lia|intros x []].
  - destruct (IH (Z.max a y)) as (Ha & Hx). split; [lia|].
    intros x [<-|Hin]; [lia|apply Hx, Hin].
Qed.

Lemma max_default_ge (xs : list Z) (d x : Z) :
  In x xs -> x <= Py.max_default xs d.
Proof.
  destruct xs as [|y xs]; [intros []|]. cbn [Py.max_default].
  destruct (fold_left_max_ge xs y) as (Hy & Hx).
  intros [<-|Hin]; [exact Hy|apply Hx, Hin].
Qed.

Lemma attempt_numbers_spec (names : list string) :
  forall w out w',
    attempt_numbers names w = Some (out, w') ->
    w' = w /\
    match out with
    | Ok numbers =>
        forall name, In name names -> Py.startswith name "stdout_" = true ->
          exists n,
            Py.int (Py.replace (Py.replace name "stdout_" "") ".txt" "") = Some n
            /\ In n numbers
    | Raise e => e = ValueError
    end.
Proof.
  induction names as [|name names IH]; intros w out w' H; cbn [attempt_numbers] in H.
  - injection H as <- <-. split; [reflexivity|]. intros name [].
  - destruct (Py.startswith name "stdout_") eqn:Es.
    + destruct (Py.int _) as [n|] eqn:En.
      * unfold bind in H.
        destruct (attempt_numbers names w) as [[[ns|e] w1]|] eqn:E;
          [| |discriminate].
        -- injection H as <- <-. destruct (IH _ _ _ E) as (-> & Hns).
           split; [reflexivity|]. intros name' [<-|Hin] Hs.
           ++ exists n. split; [exact En|left; reflexivity].
           ++ destruct (Hns name' Hin Hs) as (n' & Hn' & Hin').
              exists n'. split; [exact Hn'|right; exact Hin'].
        -- injection H as <- <-. destruct (IH _ _ _ E) as (-> & ->).
           split; reflexivity.
      * injection H as <- <-. split; reflexivity.
    + destruct (IH _ _ _ H) as (-> & Hout). split; [reflexivity|].
      destruct out as [numbers|e]; [|exact Hout].
      intros name' [<-|Hin] Hs; [congruence|apply Hout; assumption].
Qed.

(** X11. When the supervisor starts, the attempt number it picks for the
    revision is above the number of every [stdout_<n>.txt] in the revision's
    log directory, so the stdout log of the first attempt does not exist
    yet. *)
Theorem first_start_picks_unused_number (log_dir : string)
    (description : string * string) (w w' : world) (v : locals) :
  first_start log_dir description w = Some (Ok v, w') ->
  commit v = fst description /\
  exists names,
    log_dirs w' !! Py.path_join log_dir (commit v) = Some names /\
    (forall n, log_file_name n false ∈ names -> n < try_counter v) /\
    log_file_name (try_counter v) false ∉ names.
Proof.
  destruct description as [commit' name']. unfold first_start. intros H.
  apply bind_Ok_inv in H as ([] & w1 & Hmk & H).
  apply bind_Ok_inv in H as (names & w2 & Hscan & H).
  apply bind_Ok_inv in H as (numbers & w3 & Hnum & H).
  apply bind_Ok_inv in H as ([] & w4 & Hset0 & H).
  apply bind_Ok_inv in H as ([] & w5 & Hset2 & H).
  injection H as <- <-. cbn [commit try_counter fst].
  split; [reflexivity|].
  unfold scandir in Hscan.
  destruct (log_dirs w1 !! Py.path_join log_dir commit') as [entries|] eqn:Hdir;
    [|discriminate].
  injection Hscan as <- <-.
  apply attempt_numbers_spec in Hnum as (-> & Hnumbers).
  assert (Hfs : log_dirs w5 = log_dirs w1).
  { unfold cw_set in Hset0, Hset2.
    destruct (_ <? _)%nat in Hset0; [|discriminate]. injection Hset0 as <-.
    destruct (_ <? _)%nat in Hset2; [|discriminate]. injection Hset2 as <-.
    reflexivity. }
  exists entries. rewrite Hfs. split; [exact Hdir|].
  assert (Hlt : forall n, log_file_name n false ∈ entries ->
                  n < Py.max_default numbers 0 + 1).
  { intros n Hin.
    destruct (attempt_number_of_log_file n) as (Hs & Hint).
    destruct (Hnumbers (log_file_name n false)) as (n' & Hn' & Hin').
    - apply list_elem_of_In, elem_of_elements, Hin.
    - exact Hs.
    - rewrite Hint in Hn'. injection Hn' as <-.
      pose proof (max_default_ge numbers 0 n Hin'). lia. }
  split; [exact Hlt|]. intros Hin. apply Hlt in Hin. lia.
Qed.

Lemma first_start_picks_unused_number_witness :
  let old_logs : gset string :=
    {["stdout_1.txt"; "stderr_1.txt"; "stdout_2.txt"; "stderr_2.txt"]} in
  let w0 := set_log_dirs (fun _ => {["/logs/bbb" := old_logs]}) initial_world in
  exists v w',
    first_start "/logs" ("bbb", "second commit") w0 = Some (Ok v, w') /\
    try_counter v = 3 /\
    commit v = "bbb" /\
    exists names,
      log_dirs w' !! Py.path_join "/logs" (commit v) = Some names /\
      (forall n, log_file_name n false ∈ names -> n < try_counter v) /\
      log_file_name (try_counter v) false ∉ names.
Proof.
  intros old_logs w0. do 2 eexists.
  split; [vm_compute; reflexivity|]. split; [reflexivity|].
  eapply (first_start_picks_unused_number "/logs" ("bbb", "second commit") w0).
  vm_compute. reflexivity.
Defined.




(** X13. The start-up scan reads back the attempt numbers of the log
    files the supervisor writes: from the names of the stdout and stderr
    files of any list of counters, negative ones included, it gets exactly
    these counters, in order. *)
Theorem attempt_numbers_of_own_logs (counters : list Z) (w : world) :
  attempt_numbers
    (flat_map (fun c => [log_file_name c false; log_file_name c true]) counters) w
  = Some (Ok counters, w).
Proof.
  induction counters as [|c counters IH]; [reflexivity|].
  cbn [flat_map app attempt_numbers].
  destruct (attempt_number_of_log_file c) as (Hs & Hint).
  rewrite Hs, Hint.
  replace (Py.startswith (log_file_name c true) "stdout_") with false
    by reflexivity.
  unfold bind. rewrite IH. reflexivity.
Qed.

(** ** The planned restart *)

Lemma differ_only_in_error_refl (w : world) : differ_only_in_error w w.
Proof. unfold differ_only_in_error. auto 10. Qed.

Lemma same_but_error_refl {A} (r : option (result A * world)) :
  same_but_error r r.
Proof.
  destruct r as [[out w]|]; [|exact I]. split; [reflexivity|].
  apply differ_only_in_error_refl.
Qed.

Lemma same_but_error_bind {A B} (m : M world A) (k1 k2 : A -> M world B)
    (w : world) :
  (forall a u, same_but_error (k1 a u) (k2 a u)) ->
  same_but_error (bind m k1 w) (bind m k2 w).
Proof.
  intros Hk. unfold bind. destruct (m w) as [[[a|e] u]|].
  - apply Hk.
  - apply same_but_error_refl.
  - exact I.
Qed.

(** The two handlers of a guarded step may differ in the error text they
    store. *)
Lemma same_but_error_attempt_step {B} (step h1 h2 : M world unit)
    (k1 k2 : bool -> M world B) (w : world) :
  (forall u, same_but_error (h1 u) (h2 u)) ->
  (forall u1 u2, differ_only_in_error u1 u2 ->
     same_but_error (k1 false u1) (k2 false u2)) ->
  (forall u, same_but_error (k1 true u) (k2 true u)) ->
  same_but_error (bind (attempt_step step h1) k1 w)
    (bind (attempt_step step h2) k2 w).
Proof.
  intros Hh Hfalse Htrue. unfold attempt_step, try_except, bind, ret.
  destruct (step w) as [[[[]|e] u]|]; [apply Htrue| |exact I].
  destruct (is_SubprocessError e); [|apply same_but_error_refl].
  specialize (Hh u). unfold same_but_error in Hh.
  destruct (h1 u) as [[[[]|e1] u1]|], (h2 u) as [[[[]|e2] u2]|];
    try contradiction; try (destruct Hh; discriminate).
  - apply Hfalse, Hh.
  - destruct Hh as [[= ->] Hd]. split; [reflexivity|exact Hd].
  - exact I.
Qed.

Lemma same_but_error_cw_set (text1 text2 : string) (u : world) :
  same_but_error (cw_set 3 (PStr text1) u) (cw_set 3 (PStr text2) u).
Proof.
  unfold cw_set. destruct (3 <? length (commit_wrapper u))%nat;
    [|apply same_but_error_refl].
  split; [reflexivity|]. unfold differ_only_in_error, set_commit_wrapper.
  cbn [commit_wrapper can_access_mc mc_lock update_queue log_dirs commands_run
       events].
  rewrite !length_insert. repeat split.
  intros i Hi. rewrite !list_lookup_insert_ne by congruence. reflexivity.
Qed.

Lemma same_but_error_put_cw_set (message text1 text2 : string) (u : world) :
  same_but_error
    ((mc_queue_put (Some message) ;; cw_set 3 (PStr text1)) u)
    ((mc_queue_put (Some message) ;; cw_set 3 (PStr text2)) u).
Proof.
  apply same_but_error_bind. intros _ u'. apply same_but_error_cw_set.
Qed.

Section PlannedRestartProperties.

Variable env : environment.
Variables repo_dir plugins_dir log_dir : string.

(** X14. The revision id taken from the update queue has no influence on
    a planned restart but for the error text: from the same state, two
    planned restarts for different revision ids end with the same result and
    leave worlds that differ at most in the error field of the board; they
    run the same commands and publish the same messages. *)
Theorem pushed_revision_only_names_the_error (fuel : nat) (v : locals)
    (new_commit1 new_commit2 : string) (w : world) :
  same_but_error
    (planned_restart env repo_dir plugins_dir log_dir fuel v new_commit1 w)
    (planned_restart env repo_dir plugins_dir log_dir fuel v new_commit2 w).
Proof.
  unfold planned_restart.
  apply same_but_error_attempt_step;
    [intros u; apply same_but_error_cw_set
    |intros u1 u2 Hu; split; [reflexivity|exact Hu]
    |intros u1; cbn [negb]].
  apply same_but_error_attempt_step;
    [intros u; apply same_but_error_refl
    |intros u1' u2 Hu; split; [reflexivity|exact Hu]
    |intros u2; cbn [negb]].
  apply same_but_error_attempt_step;
    [intros u; apply same_but_error_put_cw_set
    |intros u1' u2' Hu; split; [reflexivity|exact Hu]
    |intros u3; cbn [negb]].
  apply same_but_error_bind. intros _ u4.
  apply same_but_error_attempt_step;
    [intros u; apply same_but_error_refl
    |intros u1' u2' Hu; split; [reflexivity|exact Hu]
    |intros u5; cbn [negb]].
  apply same_but_error_attempt_step;
    [intros u; apply same_but_error_put_cw_set
    |intros u1' u2' Hu; split; [reflexivity|exact Hu]
    |intros u6; cbn [negb]].
  apply same_but_error_refl.
Qed.

(** X15. When [git log] succeeds but does not print exactly two lines,
    the unpacking of its output raises [ValueError]; a retry loop around
    [get_repo_description] handles only [SubprocessError], so it ends at its
    first turn with that exception, and its handler does not run: no
    message, no sleep. *)
Theorem malformed_description_is_not_retried (fuel : nat)
    (handler : M world unit) (w : world) :
  (repo_dir, false) ∉ scandir_plugins env plugins_dir ->
  cmd_exit env (commands_run w) = 0 ->
  length (cmd_stdout env (commands_run w)) <> 2%nat ->
  retry_until_success (S fuel) (get_commit_step env repo_dir plugins_dir) handler w
  = Some (Raise ValueError,
          add_event (Command git_log_command None)
            (set_commands_run (S (commands_run w))
               (add_event (Chdir repo_dir) w))).
Proof.
  intros Hdir Hexit Hlines.
  cbn [retry_until_success].
  unfold try_except, get_commit_step, get_repo_description, chdir, bind.
  destruct (decide ((repo_dir, false) ∈ scandir_plugins env plugins_dir));
    [contradiction|].
  unfold emit, modify. cbn [commands_run add_event].
  apply Z.eqb_eq in Hexit. rewrite Hexit.
  destruct (cmd_stdout env (commands_run w)) as [|a [|b [|c lines]]];
    try reflexivity.
  contradiction Hlines. reflexivity.
Qed.

End PlannedRestartProperties.

Lemma malformed_description_is_not_retried_witness :
  retry_until_success 1
    (get_commit_step
       (mkEnv (fun _ => 0) (fun _ => ["0123abcd"]) [] (fun _ => launch_updated))
       "/repo" "/plugins")
    (mc_queue_put (Some "Failed to get commit!") ;; sleep 600) initial_world
  = Some (Raise ValueError,
          add_event (Command git_log_command None)
            (set_commands_run 1 (add_event (Chdir "/repo") initial_world))).
Proof.
  apply (malformed_description_is_not_retried
           (mkEnv (fun _ => 0) (fun _ => ["0123abcd"]) [] (fun _ => launch_updated))
           "/repo" "/plugins" 0
           (mc_queue_put (Some "Failed to get commit!") ;; sleep 600) initial_world).
  - cbn. apply not_elem_of_nil.
  - reflexivity.
  - cbn. lia.
Defined.

(** ** [clean_binary] *)

Section CleanBinary.

Variable env : environment.
Variables repo_dir plugins_dir log_dir : string.

Lemma for_each_chdir_events (paths : list (string * bool)) :
  Forall (fun path => (fst path, false) ∉ scandir_plugins env plugins_dir) paths ->
  forall w,
    for_each paths (fun path => chdir env plugins_dir (fst path)) w
    = Some (Ok tt,
            mkWorld (commit_wrapper w) (can_access_mc w) (mc_lock w)
              (update_queue w) (log_dirs w) (commands_run w)
              (events w ++ map (fun path => Chdir (fst path)) paths)).
Proof.
  induction 1 as [|path paths Hpath _ IH]; intros w; cbn [for_each map].
  - rewrite app_nil_r. destruct w; reflexivity.
  - unfold bind, chdir.
    destruct (decide ((fst path, false) ∈ scandir_plugins env plugins_dir));
      [contradiction|].
    unfold emit, modify. rewrite IH. unfold add_event.
    cbn [commit_wrapper can_access_mc mc_lock update_queue log_dirs
         commands_run events].
    rewrite <- app_assoc. reflexivity.
Qed.

Lemma gather_clean_events (n : nat) :
  forall first w,
    exists out w',
      gather_from first (repeat (clean_current_directory env) n) w
      = Some (out, w') /\
      events w' = events w ++ repeat (Command "cargo clean" None) n.
Proof.
  induction n as [|n IH]; intros first w; cbn [repeat gather_from].
  - rewrite app_nil_r. destruct first; eexists _, _; split; reflexivity.
  - unfold clean_current_directory at 1. unfold run_command.
    destruct (cmd_exit env (commands_run w) =? 0);
      match goal with
      | |- context [gather_from ?f _ ?u] =>
          destruct (IH f u) as (out & w' & -> & Hev)
      end;
      exists out, w'; (split; [reflexivity|]); rewrite Hev;
      cbn [events add_event set_commands_run]; rewrite <- app_assoc;
      reflexivity.
Qed.

(** X16. [clean_binary] changes to the repository and runs [cargo clean]
    there; it then changes into every plugin directory in turn and only
    afterwards runs the cleans of the plugins, one for each: all of them
    run with the last plugin directory as the working directory. *)
Theorem clean_binary_cleans_in_the_last_directory (w : world) :
  (repo_dir, false) ∉ scandir_plugins env plugins_dir ->
  Forall (fun entry => snd entry = true) (plugin_entries env) ->
  cmd_exit env (commands_run w) = 0 ->
  exists out w',
    clean_binary env repo_dir plugins_dir w = Some (out, w') /\
    events w' =
      events w
      ++ [Chdir repo_dir; Command "cargo clean" None]
      ++ map (fun path => Chdir (fst path)) (scandir_plugins env plugins_dir)
      ++ repeat (Command "cargo clean" None) (length (plugin_entries env)).
Proof.
  intros Hrepo Hdirs Hexit.
  assert (Hplugins :
    Forall (fun path => (fst path, false) ∉ scandir_plugins env plugins_dir)
      (scandir_plugins env plugins_dir)).
  { apply Forall_forall. intros path _ Hin.
    unfold scandir_plugins in Hin. apply list_elem_of_fmap in Hin as (entry & Heq & Hin).
    injection Heq as _ Hfalse.
    rewrite Forall_forall in Hdirs.
    rewrite (Hdirs entry Hin) in Hfalse. discriminate. }
  unfold clean_binary, bind, chdir.
  destruct (decide ((repo_dir, false) ∈ scandir_plugins env plugins_dir));
    [contradiction|].
  unfold emit, modify, clean_current_directory at 1, run_command.
  cbn [commands_run add_event]. apply Z.eqb_eq in Hexit. rewrite Hexit.
  rewrite (for_each_chdir_events _ Hplugins).
  replace (map (fun _ => clean_current_directory env) (scandir_plugins env plugins_dir))
    with (repeat (clean_current_directory env) (length (plugin_entries env))).
  2:{ unfold scandir_plugins. generalize (plugin_entries env).
      intros l. induction l as [|x l IH]; [reflexivity|].
      cbn [length repeat map]. rewrite IH. reflexivity. }
  unfold gather.
  match goal with
  | |- context [gather_from ?f _ ?u] =>
      destruct (gather_clean_events (length (plugin_entries env)) f u)
        as (out & w' & -> & Hev)
  end.
  exists out, w'. split; [reflexivity|]. rewrite Hev.
  cbn [events add_event set_commands_run]. rewrite <- !app_assoc. reflexivity.
Qed.

End CleanBinary.

Lemma clean_binary_cleans_in_the_last_directory_witness :
  exists out w',
    clean_binary
      (mkEnv (fun _ => 0) (fun _ => []) [("a", true); ("b", true)]
         (fun _ => launch_updated))
      "/repo" "/plugins" initial_world = Some (out, w') /\
    events w' =
      events initial_world
      ++ [Chdir "/repo"; Command "cargo clean" None]
      ++ [Chdir "/plugins/a"; Chdir "/plugins/b"]
      ++ [Command "cargo clean" None; Command "cargo clean" None].
Proof.
  apply (clean_binary_cleans_in_the_last_directory
           (mkEnv (fun _ => 0) (fun _ => []) [("a", true); ("b", true)]
              (fun _ => launch_updated))
           "/repo" "/plugins" initial_world).
  - cbn. intros H. repeat (apply elem_of_cons in H as [H|H]; [discriminate H|]).
    apply elem_of_nil in H. exact H.
  - repeat constructor.
  - reflexivity.
Defined.

(** ** The clean of every fiftieth start *)

Section AddsOnly.

Variable P : event -> Prop.

Lemma adds_only_nothing {A} (m : M world A) :
  (forall w out w', m w = Some (out, w') -> events w' = events w) ->
  adds_only P m.
Proof.
  intros H w out w' E. exists []. rewrite (H w out w' E).
  split; [symmetry; apply app_nil_r|constructor].
Qed.

Lemma adds_only_ret {A} (a : A) : adds_only P (ret a).
Proof. apply adds_only_nothing. intros w out w' [= <- <-]. reflexivity. Qed.

Lemma adds_only_raise {A} (e : exn) : adds_only P (@raise world A e).
Proof. apply adds_only_nothing. intros w out w' [= <- <-]. reflexivity. Qed.

Lemma adds_only_then (w1 w2 w3 : world) :
  (exists more, events w2 = events w1 ++ more /\ Forall P more) ->
  (exists more, events w3 = events w2 ++ more /\ Forall P more) ->
  exists more, events w3 = events w1 ++ more /\ Forall P more.
Proof.
  intros (m1 & E1 & F1) (m2 & E2 & F2). exists (m1 ++ m2).
  split; [rewrite E2, E1, app_assoc; reflexivity|apply Forall_app; auto].
Qed.

Lemma adds_only_bind {A B} (m : M world A) (k : A -> M world B) :
  adds_only P m -> (forall a, adds_only P (k a)) -> adds_only P (bind m k).
Proof.
  intros Hm Hk w out w'. unfold bind.
  destruct (m w) as [[[a|e] w1]|] eqn:E; [| |discriminate].
  - intros H. eapply adds_only_then; [eapply Hm, E|eapply Hk, H].
  - intros [= <- <-]. eapply Hm, E.
Qed.

Lemma adds_only_try_except {A} (m : M world A) (catches : exn -> bool)
    (handler : exn -> M world A) :
  adds_only P m -> (forall e, adds_only P (handler e)) ->
  adds_only P (try_except m catches handler).
Proof.
  intros Hm Hh w out w'. unfold try_except.
  destruct (m w) as [[[a|e] w1]|] eqn:E; [| |discriminate].
  - intros [= <- <-]. eapply Hm, E.
  - destruct (catches e).
    + intros H. eapply adds_only_then; [eapply Hm, E|eapply Hh, H].
    + intros [= <- <-]. eapply Hm, E.
Qed.

Lemma adds_only_emit (e : event) : P e -> adds_only P (emit e).
Proof.
  intros He w out w' [= <- <-]. exists [e].
  split; [reflexivity|]. repeat constructor. exact He.
Qed.

Lemma adds_only_for_each {A} (xs : list A) (body : A -> M world unit) :
  (forall x, adds_only P (body x)) -> adds_only P (for_each xs body).
Proof.
  intros Hb. induction xs as [|x xs IH]; cbn [for_each].
  - apply adds_only_ret.
  - apply adds_only_bind; [apply Hb|intros _; exact IH].
Qed.

Lemma adds_only_gather (tasks : list (M world unit)) :
  Forall (adds_only P) tasks -> adds_only P (gather tasks).
Proof.
  intros H. unfold gather. generalize (@None exn).
  induction H as [|task tasks Ht _ IH]; intros first; cbn [gather_from].
  - destruct first; [apply adds_only_raise|apply adds_only_ret].
  - intros w out w'.
    destruct (task w) as [[[a|e] w1]|] eqn:E; [| |discriminate];
      intros H; (eapply adds_only_then; [eapply Ht, E|eapply IH, H]).
Qed.

Lemma adds_only_cw_set (i : nat) (x : pyval) : adds_only P (cw_set i x).
Proof.
  apply adds_only_nothing. intros w out w'. unfold cw_set.
  destruct (i <? length (commit_wrapper w))%nat; intros [= <- <-]; reflexivity.
Qed.

Lemma adds_only_makedirs (path : string) : adds_only P (makedirs path).
Proof. apply adds_only_nothing. intros w out w' [= <- <-]. reflexivity. Qed.

Lemma adds_only_retry_until_success {A} (body : M world A)
    (handler : M world unit) :
  adds_only P body -> adds_only P handler ->
  forall fuel, adds_only P (retry_until_success fuel body handler).
Proof.
  intros Hb Hh. induction fuel as [|fuel IH]; cbn [retry_until_success].
  - intros w out w' H. discriminate H.
  - apply adds_only_try_except; [exact Hb|]. intros _.
    apply adds_only_bind; [exact Hh|intros _; exact IH].
Qed.

Lemma adds_only_attempt_step (step on_failure : M world unit) :
  adds_only P step -> adds_only P on_failure ->
  adds_only P (attempt_step step on_failure).
Proof.
  intros Hs Hf. unfold attempt_step.
  apply adds_only_try_except.
  - apply adds_only_bind; [exact Hs|intros _; apply adds_only_ret].
  - intros _. apply adds_only_bind; [exact Hf|intros _; apply adds_only_ret].
Qed.

End AddsOnly.

Lemma adds_only_impl (P Q : event -> Prop) {A} (m : M world A) :
  (forall e, P e -> Q e) -> adds_only P m -> adds_only Q m.
Proof.
  intros HPQ Hm w out w' E. destruct (Hm w out w' E) as (more & Hmore & F).
  exists more. split; [exact Hmore|]. eapply Forall_impl; [exact F|exact HPQ].
Qed.

(** One guarded step of the planned restart: the step raises, or the
    restart goes on with what the step returned. *)
Lemma guarded_step_cases (P : event -> Prop) (step on_failure : M world unit)
    (body : bool -> M world locals) (w w' : world) (out : result locals) :
  adds_only P step -> adds_only P on_failure ->
  bind (attempt_step step on_failure) body w = Some (out, w') ->
  (exists more, events w' = events w ++ more /\ Forall P more) \/
  (exists ok w1 more,
     events w1 = events w ++ more /\ Forall P more /\
     body ok w1 = Some (out, w')).
Proof.
  intros Hs Hf H. unfold bind in H.
  destruct (attempt_step step on_failure w) as [[[ok|e] w1]|] eqn:E;
    [| |discriminate].
  - pose proof (adds_only_attempt_step P step on_failure Hs Hf w _ w1 E)
      as (more & Hmore & F).
    right. exists ok, w1, more. auto.
  - left. injection H as <- <-.
    apply (adds_only_attempt_step P step on_failure Hs Hf w _ w1 E).
Qed.

Create HintDb adds_only.
#[export] Hint Resolve adds_only_ret adds_only_raise adds_only_bind
  adds_only_try_except adds_only_for_each adds_only_cw_set adds_only_makedirs
  adds_only_attempt_step : adds_only.

Lemma no_clean_put (message : option string) :
  adds_only not_a_clean (mc_queue_put message).
Proof. apply adds_only_emit. discriminate. Qed.

Lemma no_clean_sleep (seconds : Z) : adds_only not_a_clean (sleep seconds).
Proof. apply adds_only_emit. discriminate. Qed.

#[export] Hint Resolve no_clean_put no_clean_sleep : adds_only.

Section CleanEvery50th.

Variable env : environment.
Variables repo_dir plugins_dir log_dir : string.

Lemma adds_only_run_command (P : event -> Prop) (cmd : string)
    (rustflags : option string) :
  P (Command cmd rustflags) -> adds_only P (run_command env cmd rustflags).
Proof.
  intros HP w out w'. unfold run_command.
  destruct (cmd_exit env (commands_run w) =? 0); intros [= <- <-];
    (exists [Command cmd rustflags]; split; [reflexivity|];
     repeat constructor; exact HP).
Qed.

Lemma adds_only_chdir (P : event -> Prop) (path : string) :
  P (Chdir path) -> adds_only P (chdir env plugins_dir path).
Proof.
  intros HP. unfold chdir. destruct (decide _); [apply adds_only_raise|].
  apply adds_only_emit, HP.
Qed.

(** The three steps before the clean, and what is done when one fails. *)

Lemma early_update_git_repo (dir : string) :
  adds_only before_the_build (update_git_repo env plugins_dir dir).
Proof.
  unfold update_git_repo.
  apply adds_only_bind; [apply adds_only_chdir; split; discriminate|intros _].
  apply adds_only_bind; intros;
    apply adds_only_run_command; split; discriminate.
Qed.

Lemma early_sync_repo_step :
  adds_only before_the_build (sync_repo_step env repo_dir plugins_dir).
Proof.
  unfold sync_repo_step.
  apply adds_only_bind; [apply adds_only_emit; split; discriminate|intros _].
  apply early_update_git_repo.
Qed.

Lemma early_sync_plugins_step :
  adds_only before_the_build (sync_plugins_step env plugins_dir).
Proof.
  unfold sync_plugins_step.
  apply adds_only_bind; [apply adds_only_emit; split; discriminate|intros _].
  apply adds_only_gather, Forall_forall. intros task Hin.
  apply list_elem_of_In, in_map_iff in Hin as (path & <- & _).
  apply early_update_git_repo.
Qed.

Lemma early_update_rust : adds_only before_the_build (update_rust env).
Proof. apply adds_only_run_command. split; discriminate. Qed.

Lemma early_rust_failure (text : string) :
  adds_only before_the_build
    (mc_queue_put (Some "Failed to update rust!") ;; cw_set 3 (PStr text)).
Proof.
  apply adds_only_bind; [apply adds_only_emit; split; discriminate|intros _].
  apply adds_only_cw_set.
Qed.

Lemma no_clean_early {A} (m : M world A) :
  adds_only before_the_build m -> adds_only not_a_clean m.
Proof. apply adds_only_impl. intros e H. apply H. Qed.

Lemma no_clean_build_repo (dir : string) (native : bool) :
  adds_only not_a_clean (build_repo env plugins_dir dir native).
Proof.
  unfold build_repo.
  apply adds_only_bind; [apply adds_only_chdir; discriminate|intros _].
  apply adds_only_run_command. discriminate.
Qed.

Lemma no_clean_build_plugins_step :
  adds_only not_a_clean (build_plugins_step env plugins_dir).
Proof.
  unfold build_plugins_step, build_plugins.
  apply adds_only_bind; [auto with adds_only|intros _].
  destruct (map _ _) as [|task tasks] eqn:E; [apply adds_only_ret|].
  rewrite <- E. apply adds_only_gather, Forall_forall. intros task' Hin.
  apply list_elem_of_In, in_map_iff in Hin as (entry & <- & _).
  apply no_clean_build_repo.
Qed.

Lemma no_clean_build_binary_step :
  adds_only not_a_clean (build_binary_step env repo_dir plugins_dir).
Proof.
  unfold build_binary_step.
  apply adds_only_bind; [auto with adds_only|intros _].
  apply no_clean_build_repo.
Qed.

Lemma no_clean_get_commit_step :
  adds_only not_a_clean (get_commit_step env repo_dir plugins_dir).
Proof.
  unfold get_commit_step, get_repo_description, unpack2.
  apply adds_only_bind.
  - apply adds_only_bind; [apply adds_only_chdir; discriminate|intros _].
    intros w out w'.
    destruct (cmd_exit env (commands_run w) =? 0); intros [= <- <-];
      (eexists [_]; split; [reflexivity|]; repeat constructor; discriminate).
  - intros [|a [|b [|c lines]]]; auto with adds_only.
Qed.

Hint Resolve no_clean_build_plugins_step no_clean_build_binary_step
  no_clean_get_commit_step : adds_only.

Ltac adds_only_steps :=
  repeat first
    [ solve [auto with adds_only]
    | apply adds_only_attempt_step
    | apply adds_only_retry_until_success
    | match goal with
      | |- adds_only _ (if ?b then _ else _) => destruct b
      | |- adds_only _ (let '(_, _) := ?d in _) => destruct d
      end
    | apply adds_only_bind; [|intros ?]
    | apply adds_only_try_except; [|intros ?] ].

Lemma no_clean_planned_restart (fuel : nat) (v : locals) (new_commit : string) :
  total_counter v mod 50 <> 0 ->
  adds_only not_a_clean
    (planned_restart env repo_dir plugins_dir log_dir fuel v new_commit).
Proof.
  intros Hmod. apply Z.eqb_neq in Hmod. unfold planned_restart. rewrite Hmod.
  pose proof (no_clean_early _ early_sync_repo_step).
  pose proof (no_clean_early _ early_sync_plugins_step).
  pose proof (no_clean_early _ early_update_rust).
  adds_only_steps.
Qed.

(** The clean itself: it stops at once on a [repo_dir] that is no
    directory, and runs [cargo clean] there otherwise. *)
Lemma clean_binary_cases (w w' : world) (out : result unit) :
  try_except (clean_binary env repo_dir plugins_dir) is_SubprocessError
    (fun _ => ret tt) w = Some (out, w') ->
  (out = Raise OSError /\ w' = w) \/
  exists after,
    events w' = events w ++ Chdir repo_dir :: Command "cargo clean" None :: after.
Proof.
  unfold try_except, clean_binary, chdir at 1.
  destruct (decide ((repo_dir, false) ∈ scandir_plugins env plugins_dir)).
  - unfold bind, raise. cbn [is_SubprocessError]. intros [= <- <-]. left. auto.
  - intros H. right. unfold bind at 1 in H. unfold emit, modify in H.
    unfold bind at 1 in H. unfold clean_current_directory at 1 in H.
    unfold run_command at 1 in H. cbn [commands_run add_event] in H.
    set (w1 := add_event (Command "cargo clean" None) _) in H.
    assert (Hrest : adds_only (fun _ => True)
              (for_each (scandir_plugins env plugins_dir)
                 (fun path => chdir env plugins_dir (fst path)) ;;
               gather (map (fun _ => clean_current_directory env)
                         (scandir_plugins env plugins_dir)))).
    { apply adds_only_bind.
      - apply adds_only_for_each. intros x. apply adds_only_chdir. exact I.
      - intros _. apply adds_only_gather, Forall_forall. intros task Hin.
        apply list_elem_of_In, in_map_iff in Hin as (path & <- & _).
        apply adds_only_run_command. exact I. }
    assert (E1 : events w1 = events w ++ [Chdir repo_dir; Command "cargo clean" None]).
    { subst w1. cbn [events add_event set_commands_run]. rewrite <- app_assoc.
      reflexivity. }
    destruct (cmd_exit env (commands_run w) =? 0).
    + match type of H with
      | match ?x with _ => _ end = _ =>
          destruct x as [[[[]|e] w2]|] eqn:E2; [| |discriminate]
      end.
      * injection H as <- <-. destruct (Hrest _ _ _ E2) as (more & Hmore & _).
        exists more. rewrite Hmore, E1, <- app_assoc. reflexivity.
      * destruct (Hrest _ _ _ E2) as (more & Hmore & _).
        exists more.
        destruct (is_SubprocessError e); injection H as <- <-;
          rewrite Hmore, E1, <- app_assoc; reflexivity.
    + cbn [is_SubprocessError] in H. injection H as <- <-.
      exists []. exact E1.
Qed.

(** X17. A planned restart runs no [cargo clean] unless the count of
    starts is a multiple of 50; when it is, a restart that gets as far as
    building the plugins has run [cargo clean] before. *)
Theorem cargo_clean_only_every_50th_start (fuel : nat) (v : locals)
    (new_commit : string) (w w' : world) (out : result locals) :
  planned_restart env repo_dir plugins_dir log_dir fuel v new_commit w
    = Some (out, w') ->
  exists more,
    events w' = events w ++ more /\
    (total_counter v mod 50 <> 0 -> Command "cargo clean" None ∉ more) /\
    (total_counter v mod 50 = 0 ->
     Put (Some "Building Plugins...") ∈ more ->
     exists before after,
       more = before ++ Command "cargo clean" None :: after /\
       Put (Some "Building Plugins...") ∉ before).
Proof.
  intros H.
  assert (Hearly : forall more,
            Forall before_the_build more ->
            Put (Some "Building Plugins...") ∉ more).
  { intros more F Hin. rewrite Forall_forall in F.
    apply (proj2 (F _ Hin)). reflexivity. }
  destruct (Z.eq_dec (total_counter v mod 50) 0) as [Hmod|Hmod].
  - unfold planned_restart in H.
    destruct (guarded_step_cases before_the_build _ _ _ _ _ _
                early_sync_repo_step (adds_only_cw_set _ _ _) H)
      as [(more & E & F)|([|] & w1 & more1 & E1 & F1 & H1)]; cbn [negb] in *.
    { exists more. split; [exact E|]. split; [contradiction|].
      intros _ Hin. destruct (Hearly more F Hin). }
    2:{ injection H1 as <- <-. exists more1. split; [exact E1|].
        split; [contradiction|]. intros _ Hin. destruct (Hearly more1 F1 Hin). }
    destruct (guarded_step_cases before_the_build _ _ _ _ _ _
                early_sync_plugins_step (adds_only_cw_set _ _ _) H1)
      as [(more & E & F)|([|] & w2 & more2 & E2 & F2 & H2)]; cbn [negb] in *.
    { exists (more1 ++ more). split; [rewrite E, E1, app_assoc; reflexivity|].
      split; [contradiction|]. intros _ Hin.
      destruct (Hearly (more1 ++ more)
                  ltac:(repeat (apply Forall_app; split); assumption) Hin). }
    2:{ injection H2 as <- <-. exists (more1 ++ more2).
        split; [rewrite E2, E1, app_assoc; reflexivity|].
        split; [contradiction|]. intros _ Hin.
        destruct (Hearly (more1 ++ more2)
                    ltac:(repeat (apply Forall_app; split); assumption) Hin). }
    destruct (guarded_step_cases before_the_build _ _ _ _ _ _
                early_update_rust (early_rust_failure _) H2)
      as [(more & E & F)|([|] & w3 & more3 & E3 & F3 & H3)]; cbn [negb] in *.
    { exists (more1 ++ more2 ++ more).
      split; [rewrite E, E2, E1, !app_assoc; reflexivity|].
      split; [contradiction|]. intros _ Hin.
      destruct (Hearly (more1 ++ more2 ++ more)
                  ltac:(repeat (apply Forall_app; split); assumption) Hin). }
    2:{ injection H3 as <- <-. exists (more1 ++ more2 ++ more3).
        split; [rewrite E3, E2, E1, !app_assoc; reflexivity|].
        split; [contradiction|]. intros _ Hin.
        destruct (Hearly (more1 ++ more2 ++ more3)
                    ltac:(repeat (apply Forall_app; split); assumption) Hin). }
    clear H H1 H2. rename H3 into H.
    assert (E123 : events w3 = events w ++ (more1 ++ more2 ++ more3))
      by (rewrite E3, E2, E1, !app_assoc; reflexivity).
    assert (F123 : Forall before_the_build (more1 ++ more2 ++ more3))
      by (repeat (apply Forall_app; split); assumption).
    clear E1 E2 E3 F1 F2 F3. generalize dependent (more1 ++ more2 ++ more3).
    intros early E123 F123.
    apply Z.eqb_eq in Hmod as Hmod'. rewrite Hmod' in H.
    unfold bind at 1 in H.
    destruct (try_except _ _ _ w3) as [[[[]|e] w4]|] eqn:Ec; [| |discriminate].
    + apply clean_binary_cases in Ec as [[? _]|(after & E4)]; [discriminate|].
      match type of H with
      | ?tail w4 = _ => assert (Htail : adds_only not_a_clean tail)
      end.
      { adds_only_steps. }
      destruct (Htail _ _ _ H) as (more5 & E5 & _).
      exists (early ++ Chdir repo_dir :: Command "cargo clean" None
                :: after ++ more5).
      split.
      { rewrite E5, E4, E123. rewrite <- !app_assoc. reflexivity. }
      split; [contradiction|]. intros _ _.
      exists (early ++ [Chdir repo_dir]), (after ++ more5).
      split; [rewrite <- app_assoc; reflexivity|].
      intros Hin. apply elem_of_app in Hin as [Hin|Hin].
      * destruct (Hearly early F123 Hin).
      * apply list_elem_of_singleton in Hin. discriminate Hin.
    + injection H as <- <-.
      apply clean_binary_cases in Ec as [[_ ->]|(after & E4)].
      * exists early. split; [exact E123|]. split; [contradiction|].
        intros _ Hin. destruct (Hearly early F123 Hin).
      * exists (early ++ Chdir repo_dir :: Command "cargo clean" None :: after).
        split; [rewrite E4, E123, <- app_assoc; reflexivity|].
        split; [contradiction|]. intros _ _.
        exists (early ++ [Chdir repo_dir]), after.
        split; [rewrite <- app_assoc; reflexivity|].
        intros Hin. apply elem_of_app in Hin as [Hin|Hin].
        -- destruct (Hearly early F123 Hin).
        -- apply list_elem_of_singleton in Hin. discriminate Hin.
  - destruct (no_clean_planned_restart fuel v new_commit Hmod w out w' H)
      as (more & E & F).
    exists more. split; [exact E|]. split; [|contradiction].
    intros _ Hin. rewrite Forall_forall in F. apply (F _ Hin). reflexivity.
Qed.

End CleanEvery50th.

Lemma cargo_clean_only_every_50th_start_witness :
  exists out w',
    planned_restart (env_with 99 launch_updated) "/repo" "/plugins" "/logs" 1
      (mkLocals "aaa" "first commit" 1 50) "bbb" w_aaa = Some (out, w') /\
    exists more,
      events w' = events w_aaa ++ more /\
      (50 mod 50 <> 0 -> Command "cargo clean" None ∉ more) /\
      (50 mod 50 = 0 ->
       Put (Some "Building Plugins...") ∈ more ->
       exists before after,
         more = before ++ Command "cargo clean" None :: after /\
         Put (Some "Building Plugins...") ∉ before).
Proof.
  do 2 eexists. split; [vm_compute; reflexivity|].
  eapply (cargo_clean_only_every_50th_start (env_with 99 launch_updated)
            "/repo" "/plugins" "/logs" 1 (mkLocals "aaa" "first commit" 1 50)
            "bbb" w_aaa).
  vm_compute. reflexivity.
Defined.

(** ** Invariants of the supervisor *)

Lemma gate_run_app (evs1 evs2 : list event) :
  forall g g', gate_run g evs1 = Some g' ->
    gate_run g (evs1 ++ evs2) = gate_run g' evs2.
Proof.
  induction evs1 as [|e evs1 IH]; intros g g' H; cbn [gate_run app] in *.
  - injection H as <-. reflexivity.
  - destruct (gate_step g e) as [g1|]; [|discriminate]. apply IH, H.
Qed.

Lemma gate_run_build (evs : list event) :
  Forall build_event evs -> gate_run Free evs = Some Free.
Proof.
  induction 1 as [|e evs He _ IH]; [reflexivity|].
  cbn [gate_run]. rewrite He. exact IH.
Qed.

Lemma gate_run_child (evs : list event) :
  Forall child_event evs -> gate_run Held evs = Some Held.
Proof.
  induction 1 as [|e evs He _ IH]; [reflexivity|].
  cbn [gate_run]. rewrite He. exact IH.
Qed.

Lemma steady_same (w : world) :
  length (commit_wrapper w) = length (commit_wrapper w) /\
  can_access_mc w = can_access_mc w /\
  mc_lock w = mc_lock w /\
  (forall d, is_Some (log_dirs w !! d) -> is_Some (log_dirs w !! d)) /\
  exists more, events w = events w ++ more /\ Forall build_event more.
Proof.
  repeat split; auto. exists []. split; [symmetry; apply app_nil_r|constructor].
Qed.

Lemma steady_ret {A} (a : A) : steady (ret a).
Proof. intros w out w' [= <- <-]. apply steady_same. Qed.

Lemma steady_raise {A} (e : exn) : steady (@raise world A e).
Proof. intros w out w' [= <- <-]. apply steady_same. Qed.

Lemma steady_trans (w1 w2 w3 : world) :
  (length (commit_wrapper w2) = length (commit_wrapper w1) /\
   can_access_mc w2 = can_access_mc w1 /\
   mc_lock w2 = mc_lock w1 /\
   (forall d, is_Some (log_dirs w1 !! d) -> is_Some (log_dirs w2 !! d)) /\
   exists more, events w2 = events w1 ++ more /\ Forall build_event more) ->
  (length (commit_wrapper w3) = length (commit_wrapper w2) /\
   can_access_mc w3 = can_access_mc w2 /\
   mc_lock w3 = mc_lock w2 /\
   (forall d, is_Some (log_dirs w2 !! d) -> is_Some (log_dirs w3 !! d)) /\
   exists more, events w3 = events w2 ++ more /\ Forall build_event more) ->
  length (commit_wrapper w3) = length (commit_wrapper w1) /\
  can_access_mc w3 = can_access_mc w1 /\
  mc_lock w3 = mc_lock w1 /\
  (forall d, is_Some (log_dirs w1 !! d) -> is_Some (log_dirs w3 !! d)) /\
  exists more, events w3 = events w1 ++ more /\ Forall build_event more.
Proof.
  intros (A1 & A2 & A3 & A4 & m1 & A5 & A6) (B1 & B2 & B3 & B4 & m2 & B5 & B6).
  repeat split; try congruence; auto.
  exists (m1 ++ m2). split; [rewrite B5, A5, app_assoc; reflexivity|].
  apply Forall_app. auto.
Qed.

Lemma steady_bind {A B} (m : M world A) (k : A -> M world B) :
  steady m -> (forall a, steady (k a)) -> steady (bind m k).
Proof.
  intros Hm Hk w out w'. unfold bind.
  destruct (m w) as [[[a|e] w1]|] eqn:E; [| |discriminate].
  - intros H. eapply steady_trans; [eapply Hm, E|eapply Hk, H].
  - intros [= <- <-]. eapply Hm, E.
Qed.

Lemma steady_try_except {A} (m : M world A) (catches : exn -> bool)
    (handler : exn -> M world A) :
  steady m -> (forall e, steady (handler e)) -> steady (try_except m catches handler).
Proof.
  intros Hm Hh w out w'. unfold try_except.
  destruct (m w) as [[[a|e] w1]|] eqn:E; [| |discriminate].
  - intros [= <- <-]. eapply Hm, E.
  - destruct (catches e).
    + intros H. eapply steady_trans; [eapply Hm, E|eapply Hh, H].
    + intros [= <- <-]. eapply Hm, E.
Qed.

Lemma steady_emit (e : event) : build_event e -> steady (emit e).
Proof.
  intros He w out w' [= <- <-]. repeat split; auto.
  exists [e]. split; [reflexivity|]. repeat constructor. exact He.
Qed.

Lemma steady_for_each {A} (xs : list A) (body : A -> M world unit) :
  (forall x, steady (body x)) -> steady (for_each xs body).
Proof.
  intros Hb. induction xs as [|x xs IH]; cbn [for_each].
  - apply steady_ret.
  - apply steady_bind; [apply Hb|intros _; exact IH].
Qed.

Lemma steady_gather (tasks : list (M world unit)) :
  Forall steady tasks -> steady (gather tasks).
Proof.
  intros H. unfold gather. generalize (@None exn).
  induction H as [|task tasks Ht _ IH]; intros first; cbn [gather_from].
  - destruct first; [apply steady_raise|apply steady_ret].
  - intros w out w'.
    destruct (task w) as [[[a|e] w1]|] eqn:E; [| |discriminate];
      intros H; (eapply steady_trans; [eapply Ht, E|eapply IH, H]).
Qed.

Lemma steady_cw_set (i : nat) (x : pyval) : steady (cw_set i x).
Proof.
  intros w out w'. unfold cw_set.
  destruct (i <? length (commit_wrapper w))%nat; intros [= <- <-];
    [|apply steady_same].
  unfold set_commit_wrapper.
  cbn [commit_wrapper can_access_mc mc_lock log_dirs events].
  rewrite length_insert. repeat split; auto.
  exists []. split; [symmetry; apply app_nil_r|constructor].
Qed.

Lemma steady_makedirs (path : string) : steady (makedirs path).
Proof.
  intros w out w' [= <- <-]. unfold set_log_dirs.
  cbn [commit_wrapper can_access_mc mc_lock log_dirs events].
  repeat split; auto.
  - intros d Hd. destruct (log_dirs w !! path) eqn:E; [exact Hd|].
    destruct (decide (path = d)) as [->|Hne].
    + rewrite lookup_insert_eq. eauto.
    + rewrite lookup_insert_ne by exact Hne. exact Hd.
  - exists []. split; [symmetry; apply app_nil_r|constructor].
Qed.

Lemma steady_retry_until_success {A} (body : M world A) (handler : M world unit) :
  steady body -> steady handler ->
  forall fuel, steady (retry_until_success fuel body handler).
Proof.
  intros Hb Hh. induction fuel as [|fuel IH]; cbn [retry_until_success].
  - intros w out w' H. discriminate H.
  - apply steady_try_except; [exact Hb|]. intros _.
    apply steady_bind; [exact Hh|intros _; exact IH].
Qed.

Create HintDb steady.
#[export] Hint Resolve steady_ret steady_raise steady_bind steady_try_except
  steady_for_each steady_cw_set steady_makedirs : steady.

Lemma steady_put (message : string) : steady (mc_queue_put (Some message)).
Proof. apply steady_emit. reflexivity. Qed.

Lemma steady_sleep (seconds : Z) : steady (sleep seconds).
Proof. apply steady_emit. reflexivity. Qed.

#[export] Hint Resolve steady_put steady_sleep : steady.

Section SteadySupervisor.

Variable env : environment.
Variables repo_dir plugins_dir log_dir : string.

Lemma steady_run_command (cmd : string) (rustflags : option string) :
  steady (run_command env cmd rustflags).
Proof.
  intros w out w'. unfold run_command.
  destruct (cmd_exit env (commands_run w) =? 0); intros [= <- <-];
    (repeat split; auto; eexists [_]; split; [reflexivity|]);
    repeat constructor.
Qed.

Lemma steady_chdir (path : string) : steady (chdir env plugins_dir path).
Proof.
  unfold chdir. destruct (decide _); [apply steady_raise|].
  apply steady_emit. reflexivity.
Qed.

Hint Resolve steady_run_command steady_chdir : steady.

Lemma steady_update_git_repo (dir : string) :
  steady (update_git_repo env plugins_dir dir).
Proof. unfold update_git_repo. auto 10 with steady. Qed.

Lemma steady_build_repo (dir : string) (native : bool) :
  steady (build_repo env plugins_dir dir native).
Proof. unfold build_repo. auto 10 with steady. Qed.

Hint Resolve steady_update_git_repo steady_build_repo : steady.

Lemma steady_sync_repo_step : steady (sync_repo_step env repo_dir plugins_dir).
Proof. unfold sync_repo_step. auto 10 with steady. Qed.

Lemma steady_sync_plugins_step : steady (sync_plugins_step env plugins_dir).
Proof.
  unfold sync_plugins_step.
  apply steady_bind; [auto with steady|intros _].
  apply steady_gather, Forall_map, Forall_forall. auto with steady.
Qed.

Lemma steady_update_rust : steady (update_rust env).
Proof. unfold update_rust. auto with steady. Qed.

Lemma steady_clean_binary : steady (clean_binary env repo_dir plugins_dir).
Proof.
  unfold clean_binary, clean_current_directory.
  repeat (apply steady_bind; [auto with steady|intros _]).
  apply steady_gather, Forall_map, Forall_forall. auto with steady.
Qed.

Lemma steady_build_plugins_step : steady (build_plugins_step env plugins_dir).
Proof.
  unfold build_plugins_step, build_plugins.
  apply steady_bind; [auto with steady|intros _].
  destruct (map _ _) as [|task tasks] eqn:E; [auto with steady|].
  rewrite <- E. apply steady_gather, Forall_map, Forall_forall.
  auto with steady.
Qed.

Lemma steady_build_binary_step :
  steady (build_binary_step env repo_dir plugins_dir).
Proof. unfold build_binary_step. auto 10 with steady. Qed.

Lemma steady_get_commit_step : steady (get_commit_step env repo_dir plugins_dir).
Proof.
  unfold get_commit_step, get_repo_description, unpack2.
  apply steady_bind.
  - apply steady_bind; [apply steady_chdir|intros _].
    intros w out w'. destruct (cmd_exit env (commands_run w) =? 0);
      intros [= <- <-];
      (repeat split; auto; eexists [_]; split; [reflexivity|]);
      repeat constructor.
  - intros lines. destruct lines as [|a [|b [|c lines]]]; auto with steady.
Qed.

Hint Resolve steady_sync_repo_step steady_sync_plugins_step steady_update_rust
  steady_clean_binary steady_build_plugins_step steady_build_binary_step
  steady_get_commit_step : steady.

Lemma steady_attempt_step (step on_failure : M world unit) :
  steady step -> steady on_failure -> steady (attempt_step step on_failure).
Proof. intros Hs Hf. unfold attempt_step. auto 10 with steady. Qed.

Lemma steady_planned_restart (fuel : nat) (v : locals) (new_commit : string) :
  steady (planned_restart env repo_dir plugins_dir log_dir fuel v new_commit).
Proof.
  unfold planned_restart.
  repeat first
    [ solve [auto with steady]
    | apply steady_attempt_step
    | apply steady_retry_until_success
    | match goal with
      | |- steady (if ?b then _ else _) => destruct b
      | |- steady (let '(_, _) := ?d in _) => destruct d
      end
    | apply steady_bind; [|intros ?]
    | apply steady_try_except; [|intros ?] ].
Qed.

Lemma steady_unplanned_death (v : locals) : steady (unplanned_death v).
Proof. unfold unplanned_death. auto 10 with steady. Qed.

Lemma steady_initial_pipeline (fuel : nat) :
  steady (initial_pipeline env repo_dir plugins_dir fuel).
Proof.
  unfold initial_pipeline, pipeline_after_repo_sync, build_stages,
    update_rust_loop, build_plugins_loop, build_binary_loop, get_commit_loop.
  repeat first
    [ solve [auto with steady]
    | apply steady_retry_until_success
    | apply steady_bind; [|intros ?]
    | apply steady_try_except; [|intros ?] ].
Qed.

Lemma planned_restart_locals (fuel : nat) (v v' : locals) (new_commit : string)
    (w w' : world) :
  planned_restart env repo_dir plugins_dir log_dir fuel v new_commit w
    = Some (Ok v', w') ->
  total_counter v' = total_counter v /\
  (commit v' = commit v \/
   is_Some (log_dirs w' !! Py.path_join log_dir (commit v'))).
Proof.
  unfold planned_restart. intros H.
  repeat match type of H with
    | bind (attempt_step _ _) _ _ = Some (Ok _, _) =>
        let ok := fresh "ok" in
        let u := fresh "u" in
        apply bind_Ok_inv in H as (ok & u & _ & H); destruct ok; cbn [negb] in H;
        [|injection H as <- <-; split; [reflexivity|left; reflexivity]]
    | bind (if _ then _ else _) _ _ = Some (Ok _, _) =>
        let u := fresh "u" in
        apply bind_Ok_inv in H as (_ & u & _ & H)
    end.
  apply bind_Ok_inv in H as ([commit' name'] & x4 & _ & H).
  apply bind_Ok_inv in H as ([] & x5 & Hmk & H).
  assert (Hdir : is_Some (log_dirs x5 !! Py.path_join log_dir commit')).
  { injection Hmk as <-. unfold set_log_dirs. cbn [log_dirs].
    destruct (log_dirs x4 !! Py.path_join log_dir commit') eqn:E;
      [rewrite E; eauto|rewrite lookup_insert_eq; eauto]. }
  assert (Hrest : steady (cw_set 0 (PStr commit') ;; cw_set 1 (PInt 0) ;;
                          cw_set 2 (PStr name') ;;
                          ret (mkLocals commit' name' 0 (total_counter v))))
    by auto 10 with steady.
  pose proof (Hrest _ _ _ H) as (_ & _ & _ & Hmono & _).
  apply bind_Ok_inv in H as ([] & x6 & _ & H).
  apply bind_Ok_inv in H as ([] & x7 & _ & H).
  apply bind_Ok_inv in H as ([] & x8 & _ & H).
  injection H as <- <-. cbn [total_counter commit].
  split; [reflexivity|right]. apply Hmono, Hdir.
Qed.

Lemma supervise_child_ok (v : locals) (w w1 : world) (new_commit : option string) :
  running w ->
  supervise_child env v w = Some (Ok new_commit, w1) ->
  exists actions queue,
    w1 = stopped actions queue w /\ Forall child_event actions.
Proof.
  intros Hrun H.
  destruct (supervise_child_paths env v w Hrun) as (Hcancel & Hexit & Hnone & Hstop).
  destruct (cancelled_while_running (launches env (total_counter v))) eqn:Ec.
  { rewrite (Hcancel eq_refl) in H. discriminate. }
  destruct (exit_while_running (launches env (total_counter v))) as [rc|] eqn:Ee.
  { rewrite (Hexit rc eq_refl eq_refl) in H. injection H as <- <-.
    eexists [], _. split; [reflexivity|constructor]. }
  destruct (update_queue w ++ pushed_while_running (launches env (total_counter v)))
    as [|first rest] eqn:Eq.
  { rewrite (Hnone eq_refl eq_refl eq_refl) in H. discriminate. }
  destruct (Hstop first rest eq_refl eq_refl eq_refl) as (Hin & Hout & Hsc).
  destruct (stop (launches env (total_counter v))) as [rc| |] eqn:Es.
  - rewrite (Hin rc eq_refl) in H. injection H as <- <-.
    eexists _, _. split; [reflexivity|]. repeat constructor.
  - rewrite (Hout eq_refl) in H. injection H as <- <-.
    eexists _, _. split; [reflexivity|]. repeat constructor.
  - rewrite (Hsc eq_refl) in H. discriminate.
Qed.

(** One turn of the main loop that comes back: the state is ready again,
    one more launch has been counted, and the trace of the turn respects the
    gate. *)
Lemma runner_iteration_ready (fuel : nat) (v v' : locals) (w w' : world) :
  ready log_dir v w ->
  runner_iteration env repo_dir plugins_dir log_dir fuel v w = Some (Ok v', w') ->
  ready log_dir v' w' /\
  total_counter v' = total_counter v + 1 /\
  exists turn, events w' = events w ++ turn /\ gate_run Free turn = Some Free.
Proof.
  intros Hready H. unfold runner_iteration in H.
  rewrite (bind_Ok _ _ _ _ _ (start_attempt_ready env repo_dir log_dir v w Hready))
    in H.
  fold (launched v) in H.
  apply bind_Ok_inv in H as (new_commit & w1 & Hsup & H).
  pose proof (started_running env repo_dir log_dir v w Hready) as Hrun.
  apply supervise_child_ok in Hsup as (actions & queue & -> & Hactions);
    [|exact Hrun].
  apply bind_Ok_inv in H as ([] & w2 & Hpush & H).
  injection Hpush as <-.
  assert (Hst : steady (match new_commit with
                        | Some c => planned_restart env repo_dir plugins_dir log_dir
                                      fuel (launched v) c
                        | None => unplanned_death (launched v)
                        end)).
  { destruct new_commit; [apply steady_planned_restart|apply steady_unplanned_death]. }
  pose proof (Hst _ _ _ H) as (S1 & S2 & S3 & S4 & more & S5 & S6).
  destruct Hready as (Hcw & Hcan & Hlock & Hdir).
  unfold set_update_queue, stopped, started in S1, S2, S3, S4, S5.
  cbn [commit_wrapper can_access_mc mc_lock update_queue log_dirs commands_run
       events] in S1, S2, S3, S4, S5.
  rewrite !length_insert in S1.
  assert (Hv' : total_counter v' = total_counter v + 1 /\
                (commit v' = commit v \/
                 is_Some (log_dirs w' !! Py.path_join log_dir (commit v')))).
  { destruct new_commit as [c|].
    - apply planned_restart_locals in H. exact H.
    - unfold unplanned_death in H.
      apply bind_Ok_inv in H as ([] & u1 & _ & H).
      apply bind_Ok_inv in H as ([] & u2 & _ & H).
      apply bind_Ok_inv in H as ([] & u3 & _ & H).
      injection H as <- <-. split; [reflexivity|left; reflexivity]. }
  destruct Hv' as (Htotal & Hcommit).
  split; [|split; [exact Htotal|]].
  - unfold ready. rewrite S1, S2, S3, !length_insert.
    split; [exact Hcw|]. split; [exact Hcan|]. split; [reflexivity|].
    destruct Hcommit as [->|Hsome]; [|exact Hsome].
    apply S4. rewrite lookup_insert_eq. eauto.
  - eexists. split.
    + rewrite S5, <- !app_assoc. reflexivity.
    + cbn [gate_run gate_step app].
      rewrite (gate_run_app actions _ Held Held (gate_run_child _ Hactions)).
      cbn [gate_run gate_step app]. apply gate_run_build, S6.
Qed.

Lemma runner_loop_ready (iterations fuel : nat) :
  forall v v' w w',
    ready log_dir v w ->
    runner_loop env repo_dir plugins_dir log_dir iterations fuel v w
      = Some (Ok v', w') ->
    ready log_dir v' w' /\
    total_counter v' = total_counter v + Z.of_nat iterations /\
    exists turns, events w' = events w ++ turns /\ gate_run Free turns = Some Free.
Proof.
  induction iterations as [|iterations IH]; intros v v' w w' Hready H;
    cbn [runner_loop] in H.
  - injection H as <- <-. split; [exact Hready|]. split; [lia|].
    exists []. split; [symmetry; apply app_nil_r|reflexivity].
  - apply bind_Ok_inv in H as (v1 & w1 & Hturn & H).
    apply runner_iteration_ready in Hturn as (Hready1 & Htotal1 & t1 & E1 & G1);
      [|exact Hready].
    apply IH in H as (Hready' & Htotal' & t2 & E2 & G2); [|exact Hready1].
    split; [exact Hready'|]. split; [lia|].
    exists (t1 ++ t2). split; [rewrite E2, E1, app_assoc; reflexivity|].
    rewrite (gate_run_app t1 t2 Free Free G1). exact G2.
Qed.

Lemma steady_scandir (path : string) : steady (scandir path).
Proof.
  intros w out w'. unfold scandir.
  destruct (log_dirs w !! path); intros [= <- <-]; apply steady_same.
Qed.

Lemma steady_attempt_numbers (names : list string) :
  steady (attempt_numbers names).
Proof.
  induction names as [|name names IH]; cbn [attempt_numbers];
    [apply steady_ret|].
  destruct (Py.startswith name "stdout_"); [|exact IH].
  destruct (Py.int _); auto with steady.
Qed.

Lemma first_start_ready (description : string * string) (v : locals)
    (w w' : world) :
  first_start log_dir description w = Some (Ok v, w') ->
  total_counter v = 0 /\
  is_Some (log_dirs w' !! Py.path_join log_dir (commit v)) /\
  length (commit_wrapper w') = length (commit_wrapper w) /\
  can_access_mc w' = can_access_mc w /\
  mc_lock w' = mc_lock w /\
  events w' = events w.
Proof.
  destruct description as [commit' name']. unfold first_start. intros H.
  apply bind_Ok_inv in H as ([] & u1 & Hmk & H).
  assert (Hdir : is_Some (log_dirs u1 !! Py.path_join log_dir commit')).
  { injection Hmk as <-. unfold set_log_dirs. cbn [log_dirs].
    destruct (log_dirs w !! Py.path_join log_dir commit') eqn:E;
      [rewrite E; eauto|rewrite lookup_insert_eq; eauto]. }
  assert (Hu1 : length (commit_wrapper u1) = length (commit_wrapper w) /\
                can_access_mc u1 = can_access_mc w /\
                mc_lock u1 = mc_lock w /\ events u1 = events w).
  { injection Hmk as <-. auto. }
  destruct Hu1 as (M1 & M2 & M3 & M4).
  apply bind_Ok_inv in H as (names & u2 & Hscan & H).
  assert (u2 = u1) as ->.
  { unfold scandir in Hscan. destruct (log_dirs u1 !! _); [|discriminate].
    injection Hscan as _ <-. reflexivity. }
  apply bind_Ok_inv in H as (numbers & u3 & Hnum & H).
  assert (u3 = u1) as ->.
  { clear -Hnum. revert numbers Hnum.
    induction names as [|name names IH]; intros numbers H;
      cbn [attempt_numbers] in H.
    - injection H as _ <-. reflexivity.
    - destruct (Py.startswith name "stdout_"); [|eapply IH, H].
      destruct (Py.int _); [|discriminate].
      apply bind_Ok_inv in H as (ns & u & H & Hret).
      injection Hret as _ <-. eapply IH, H. }
  assert (Hrest : steady (cw_set 0 (PStr commit') ;; cw_set 2 (PStr name') ;;
                          ret (mkLocals commit' name'
                                 (Py.max_default numbers 0 + 1) 0)))
    by auto 10 with steady.
  pose proof (Hrest _ _ _ H) as (R1 & R2 & R3 & R4 & _).
  apply bind_Ok_inv in H as ([] & u4 & Hs0 & H).
  apply bind_Ok_inv in H as ([] & u5 & Hs2 & H).
  injection H as <- <-. cbn [commit total_counter].
  split; [reflexivity|]. split; [apply R4, Hdir|].
  rewrite R1, M1, R2, M2, R3, M3. repeat split.
  unfold cw_set in Hs0, Hs2.
  destruct (_ <? _)%nat in Hs0; [|discriminate]. injection Hs0 as <-.
  destruct (_ <? _)%nat in Hs2; [|discriminate]. injection Hs2 as <-.
  exact M4.
Qed.

(** A run of the supervisor that is cut after some turns of its main loop:
    it is in a ready state, it has counted one launch per turn, and its
    trace respects the gate. *)
Lemma binary_runner_run (iterations fuel : nat) (v : locals) (w0 w : world) :
  length (commit_wrapper w0) = 5%nat ->
  length (can_access_mc w0) = 1%nat ->
  mc_lock w0 = false ->
  binary_runner env repo_dir plugins_dir log_dir iterations fuel w0
    = Some (Ok v, w) ->
  ready log_dir v w /\
  total_counter v = Z.of_nat iterations /\
  exists trace, events w = events w0 ++ trace /\ gate_run Free trace = Some Free.
Proof.
  intros Hcw Hcan Hlock H. unfold binary_runner in H.
  apply bind_Ok_inv in H as (description & w1 & Hpipe & H).
  apply bind_Ok_inv in H as (v1 & w2 & Hfirst & H).
  pose proof (steady_initial_pipeline fuel _ _ _ Hpipe)
    as (P1 & P2 & P3 & _ & t0 & P5 & P6).
  apply first_start_ready in Hfirst as (Hzero & Hdir & F1 & F2 & F3 & F4).
  assert (Hready : ready log_dir v1 w2).
  { unfold ready. rewrite F1, P1, F2, P2, F3, P3. auto. }
  apply runner_loop_ready in H as (Hready' & Htotal & t1 & E1 & G1);
    [|exact Hready].
  split; [exact Hready'|]. split; [lia|].
  exists (t0 ++ t1). split; [rewrite E1, F4, P5, app_assoc; reflexivity|].
  rewrite (gate_run_app t0 t1 Free Free (gate_run_build _ P6)). exact G1.
Qed.

(** X18. However the commands and the children behave, when the main loop
    of [binary_runner] has made a number of turns the board still has its
    five fields and [can_access_mc] its one, the lock is free, the log
    directory of the current revision exists, and [total_counter] is the
    number of turns made. *)
Theorem binary_runner_keeps_ready (iterations fuel : nat) (v : locals)
    (w0 w : world) :
  length (commit_wrapper w0) = 5%nat ->
  length (can_access_mc w0) = 1%nat ->
  mc_lock w0 = false ->
  binary_runner env repo_dir plugins_dir log_dir iterations fuel w0
    = Some (Ok v, w) ->
  ready log_dir v w /\ total_counter v = Z.of_nat iterations.
Proof.
  intros Hcw Hcan Hlock H.
  destruct (binary_runner_run iterations fuel v w0 w Hcw Hcan Hlock H)
    as (Hready & Htotal & _).
  split; assumption.
Qed.

(** X19. With at most one entry in the plugin directory, where
    [asyncio.gather] has no two tasks to interleave and leaves none running
    behind, the events of every run of [binary_runner] follow the gate
    protocol: commands, log files, sleeps and status messages happen only
    while the lock is not held; the lock is acquired right after the stop
    request has been put on the status channel; a child is started,
    signalled, killed or awaited only while the lock is held; and after each
    turn of the main loop the lock is free again. *)
Theorem binary_runner_respects_the_gate (iterations fuel : nat) (v : locals)
    (w0 w : world) :
  (length (plugin_entries env) <= 1)%nat ->
  length (commit_wrapper w0) = 5%nat ->
  length (can_access_mc w0) = 1%nat ->
  mc_lock w0 = false ->
  binary_runner env repo_dir plugins_dir log_dir iterations fuel w0
    = Some (Ok v, w) ->
  exists trace, events w = events w0 ++ trace /\ gate_run Free trace = Some Free.
Proof.
  intros _ Hcw Hcan Hlock H.
  destruct (binary_runner_run iterations fuel v w0 w Hcw Hcan Hlock H)
    as (_ & _ & Htrace).
  exact Htrace.
Qed.

End SteadySupervisor.

Lemma binary_runner_keeps_ready_witness :
  exists v w,
    binary_runner (env_with 99 launch_updated) "/repo" "/plugins" "/logs" 2 1
      initial_world = Some (Ok v, w) /\
    ready "/logs" v w /\ total_counter v = Z.of_nat 2.
Proof.
  do 2 eexists. split; [vm_compute; reflexivity|].
  eapply (binary_runner_keeps_ready (env_with 99 launch_updated) "/repo"
            "/plugins" "/logs" 2 1 _ initial_world);
    [reflexivity|reflexivity|reflexivity|vm_compute; reflexivity].
Defined.

Lemma binary_runner_respects_the_gate_witness :
  exists v w,
    binary_runner (env_with 99 launch_updated) "/repo" "/plugins" "/logs" 2 1
      initial_world = Some (Ok v, w) /\
    exists trace,
      events w = events initial_world ++ trace /\ gate_run Free trace = Some Free.
Proof.
  do 2 eexists. split; [vm_compute; reflexivity|].
  eapply (binary_runner_respects_the_gate (env_with 99 launch_updated) "/repo"
            "/plugins" "/logs" 2 1 _ initial_world);
    [cbn; lia|reflexivity|reflexivity|reflexivity|vm_compute; reflexivity].
Defined.

(** ** The deadlock checker *)

(** X20. A cycle of the deadlock checker never raises. When the binary is
    not believed reachable or the connection cannot be opened, it only
    sleeps; otherwise it sends the probe, closes the connection, and changes
    at most the error field of the board, to the empty text or to the
    deadlock indicator. *)
Theorem deadlock_checker_touches_only_the_error (p : probe_env) (w : world) :
  can_access_mc w <> [] ->
  exists w',
    deadlock_checker_iteration p w = Some (Ok tt, w') /\
    (w' = add_event (Sleep 600) w \/
     (can_access_mc w !! 0%nat = Some true /\ probe_connects p = true /\
      probe_closed_with [PStr ""; PStr deadlock_indicator] (probe_resumes p w) w')).
Proof.
  intros Hcan.
  unfold deadlock_checker_iteration, await_probe_reply, get_can_access_mc,
    sleep, emit, try_except, try_finally, bind, modify, ret, raise.
  cbn [can_access_mc add_event].
  destruct (can_access_mc w) as [|believed rest] eqn:Ecan; [contradiction|].
  cbn [lookup list_lookup]. destruct believed; cbn [negb]; [|eauto].
  destruct (probe_connects p); [|cbn [is_Exception]; eauto].
  fold (probe_resumes p w). set (wr := probe_resumes p w).
  assert (Hsame : probe_closed_with [PStr ""; PStr deadlock_indicator] wr
                    (add_event ProbeClosed wr)).
  { unfold probe_closed_with. cbn. auto 10. }
  assert (Hset : forall error,
            In error [PStr ""; PStr deadlock_indicator] ->
            probe_closed_with [PStr ""; PStr deadlock_indicator] wr
              (add_event ProbeClosed (set_commit_wrapper <[3%nat := error]> wr))).
  { intros error Hin. unfold probe_closed_with. cbn.
    split; [right; exists error; auto|auto 10]. }
  destruct (probe_reply_of p).
  - unfold cw_get. destruct (commit_wrapper wr !! 3%nat) as [error|];
      [|cbn [is_TimeoutError is_Exception]; eauto 10].
    destruct (decide (error = PStr deadlock_indicator)); [|eauto 10].
    unfold cw_set. destruct (3 <? length (commit_wrapper wr))%nat;
      [|cbn [is_TimeoutError is_Exception]; eauto 10].
    eexists. split; [reflexivity|]. right. split; [reflexivity|].
    split; [reflexivity|]. apply Hset. left. reflexivity.
  - cbn [is_TimeoutError].
    destruct (can_access_mc wr !! 0%nat) as [[|]|];
      [|eauto 10|cbn [is_Exception]; eauto 10].
    unfold cw_set. destruct (3 <? length (commit_wrapper wr))%nat;
      [|cbn [is_Exception]; eauto 10].
    eexists. split; [reflexivity|]. right. split; [reflexivity|].
    split; [reflexivity|]. apply Hset. right. left. reflexivity.
  - cbn [is_TimeoutError is_Exception]. eauto 10.
Qed.

Lemma deadlock_checker_touches_only_the_error_witness :
  exists w',
    deadlock_checker_iteration (mkProbe true ReadFailed id)
      (mkWorld [PStr "abc"; PInt 2; PStr "name"; PStr ""; PInt 77]
         [true] true [] ∅ 0 []) = Some (Ok tt, w') /\
    (w' = add_event (Sleep 600)
            (mkWorld [PStr "abc"; PInt 2; PStr "name"; PStr ""; PInt 77]
               [true] true [] ∅ 0 []) \/
     ([true] !! 0%nat = Some true /\ true = true /\
      probe_closed_with [PStr ""; PStr deadlock_indicator]
        (probe_resumes (mkProbe true ReadFailed id)
           (mkWorld [PStr "abc"; PInt 2; PStr "name"; PStr ""; PInt 77]
              [true] true [] ∅ 0 [])) w')).
Proof.
  apply (deadlock_checker_touches_only_the_error (mkProbe true ReadFailed id)
           (mkWorld [PStr "abc"; PInt 2; PStr "name"; PStr ""; PInt 77]
              [true] true [] ∅ 0 [])).
  discriminate.
Defined.

(** ** The placeholder's runner *)

Lemma port_run_app (evs1 evs2 : list notifier_event) :
  forall p p', port_run p evs1 = Some p' ->
    port_run p (evs1 ++ evs2) = port_run p' evs2.
Proof.
  induction evs1 as [|e evs1 IH]; intros p p' H; cbn [port_run app] in *.
  - injection H as <-. reflexivity.
  - destruct (port_step p e) as [p1|]; [|discriminate]. apply IH, H.
Qed.

Section MinecraftRunnerProperties.

Variable bind_fails : nat -> bool.

(** The retry loop of the bind: [k] failures, each followed by a sleep of
    300 seconds, then the bind. *)
Lemma start_server_loop_after (k : nat) :
  forall fuel s,
    (k < fuel)%nat ->
    (forall i, (i < k)%nat -> bind_fails (nt_starts s + i) = true) ->
    bind_fails (nt_starts s + k) = false ->
    start_server_loop bind_fails fuel s =
      Some (Ok tt,
            mkNotifier (nt_message s) (nt_lock s) true (S (nt_starts s + k))
              (nt_events s
               ++ concat (repeat [NtStartServer false; NtSleep 300] k)
               ++ [NtStartServer true])).
Proof.
  induction k as [|k IH]; intros fuel s Hfuel Hfail Hok;
    (destruct fuel as [|fuel]; [lia|]); cbn [start_server_loop];
    unfold try_except, start_server.
  - rewrite Nat.add_0_r in Hok. rewrite Hok. rewrite Nat.add_0_r. reflexivity.
  - pose proof (Hfail 0%nat ltac:(lia)) as H0. rewrite Nat.add_0_r in H0.
    rewrite H0. cbn [is_OSError]. unfold bind, nt_emit, modify.
    rewrite IH; cbn [nt_starts nt_events nt_message nt_lock nt_serving].
    + do 3 f_equal; [lia|]. cbn [repeat concat]. rewrite <- !app_assoc.
      reflexivity.
    + lia.
    + intros i Hi. specialize (Hfail (S i) ltac:(lia)).
      replace (S (nt_starts s) + i)%nat with (nt_starts s + S i)%nat by lia.
      exact Hfail.
    + replace (S (nt_starts s) + k)%nat with (nt_starts s + S k)%nat by lia.
      exact Hok.
Qed.

(** The first call that binds, among those from the n-th on. *)
Lemma first_bind (fuel : nat) :
  forall n,
    (exists k, (k < fuel)%nat /\ bind_fails (n + k) = false) ->
    exists k, (k < fuel)%nat /\ bind_fails (n + k) = false /\
              forall i, (i < k)%nat -> bind_fails (n + i) = true.
Proof.
  induction fuel as [|fuel IH]; intros n (k & Hk & Hok); [lia|].
  destruct (bind_fails n) eqn:E.
  - destruct k as [|k]; [rewrite Nat.add_0_r in Hok; congruence|].
    destruct (IH (S n)) as (k' & Hk' & Hok' & Hfail').
    { exists k. split; [lia|].
      replace (S n + k)%nat with (n + S k)%nat by lia. exact Hok. }
    exists (S k'). split; [lia|]. split.
    + replace (n + S k')%nat with (S n + k')%nat by lia. exact Hok'.
    + intros [|i] Hi; [rewrite Nat.add_0_r; exact E|].
      replace (n + S i)%nat with (S n + i)%nat by lia. apply Hfail'. lia.
  - exists 0%nat. split; [lia|]. split; [rewrite Nat.add_0_r; exact E|].
    intros i Hi. lia.
Qed.

Lemma open_server_at_rest (fuel : nat) (s : notifier) :
  binds_within bind_fails fuel ->
  at_rest true s ->
  exists s',
    open_server bind_fails fuel s = Some (Ok tt, s') /\
    at_rest false s' /\ nt_message s' = nt_message s.
Proof.
  intros Hbinds (Hlock & Hserving & Hport). cbn [negb] in Hlock, Hserving.
  destruct (first_bind fuel (nt_starts s) (Hbinds _)) as (k & Hk & Hok & Hfail).
  unfold open_server, bind, nt_acquire. rewrite Hlock.
  rewrite (start_server_loop_after k fuel); cbn [nt_starts]; try assumption.
  eexists. split; [reflexivity|].
  cbn [nt_lock nt_serving nt_events nt_message]. split; [|reflexivity].
  unfold at_rest. cbn [nt_lock nt_serving nt_events negb].
  split; [reflexivity|]. split; [reflexivity|].
  rewrite <- app_assoc. rewrite (port_run_app _ _ _ _ Hport).
  cbn [port_run port_step app].
  rewrite (port_run_app _ [NtStartServer true] Locked Locked); [reflexivity|].
  clear. induction k as [|k IH]; [reflexivity|]. cbn [repeat concat app port_run port_step].
  exact IH.
Qed.

Lemma serve_at_rest (fuel : nat) (items : list (option string)) :
  binds_within bind_fails fuel ->
  forall stopped s,
    at_rest stopped s ->
    exists s',
      serve bind_fails fuel items stopped s = Some (Ok tt, s') /\
      at_rest (stopped_after items stopped) s' /\
      nt_message s' = last_text items (nt_message s).
Proof.
  intros Hbinds. induction items as [|[text|] items IH]; intros stopped s Hrest;
    cbn [serve stopped_after last_text].
  - exists s. auto.
  - unfold bind at 1. unfold nt_set_message, modify.
    set (s1 := mkNotifier text (nt_lock s) (nt_serving s) (nt_starts s)
                 (nt_events s)).
    assert (Hrest1 : at_rest stopped s1) by exact Hrest.
    destruct stopped.
    + unfold bind at 1. unfold server_close, modify.
      set (s2 := mkNotifier _ _ _ _ _).
      assert (Hrest2 : at_rest true s2).
      { destruct Hrest1 as (Hl & Hs & Hp). unfold at_rest. subst s2.
        cbn [nt_lock nt_serving nt_events negb] in *.
        split; [exact Hl|]. split; [reflexivity|].
        rewrite (port_run_app _ _ _ _ Hp). reflexivity. }
      destruct (open_server_at_rest fuel s2 Hbinds Hrest2) as (s3 & E3 & Hrest3 & Hm3).
      unfold bind at 1. rewrite E3.
      destruct (IH false s3 Hrest3) as (s' & E & Hrest' & Hm).
      exists s'. split; [exact E|]. split; [exact Hrest'|].
      rewrite Hm, Hm3. reflexivity.
    + destruct (IH false s1 Hrest1) as (s' & E & Hrest' & Hm).
      exists s'. auto.
  - destruct stopped; cbn [negb].
    + unfold bind at 1. unfold ret at 1.
      destruct (IH true s Hrest) as (s' & E & Hrest' & Hm). exists s'. auto.
    + destruct Hrest as (Hl & Hs & Hp). cbn [negb] in Hl, Hs.
      unfold bind at 1. unfold bind at 1. unfold server_close, modify, nt_release.
      cbn [nt_lock]. rewrite Hl.
      match goal with
      | |- context [serve _ _ _ true ?u] =>
          destruct (IH true u) as (s' & E & Hrest' & Hm)
      end.
      { unfold at_rest. cbn [nt_lock nt_serving nt_events negb].
        split; [reflexivity|]. split; [reflexivity|].
        rewrite <- app_assoc. rewrite (port_run_app _ _ _ _ Hp). reflexivity. }
      exists s'. auto.
Qed.

Lemma minecraft_runner_at_rest (fuel : nat) (items : list (option string)) :
  binds_within bind_fails fuel ->
  exists s',
    minecraft_runner bind_fails fuel items initial_notifier = Some (Ok tt, s') /\
    at_rest (stopped_after items false) s' /\
    nt_message s' = last_text items "Booting up".
Proof.
  intros Hbinds. unfold minecraft_runner.
  unfold bind at 1. unfold nt_set_message, modify.
  set (s0 := mkNotifier _ _ _ _ _).
  destruct (open_server_at_rest fuel s0 Hbinds) as (s1 & E1 & Hrest1 & Hm1).
  { unfold at_rest. repeat split. }
  unfold bind at 1. rewrite E1.
  destruct (serve_at_rest fuel items Hbinds false s1 Hrest1) as (s' & E & Hrest & Hm).
  exists s'. split; [exact E|]. split; [exact Hrest|].
  rewrite Hm, Hm1. reflexivity.
Qed.

End MinecraftRunnerProperties.

Section MinecraftRunnerTheorems.

Variable bind_fails : nat -> bool.

(** X21. Provided the port can always be bound after a bounded number of
    tries, the runner of the placeholder gets through any sequence of
    messages: afterwards it listens exactly if the last message was not the
    stop request, it holds the lock exactly when it listens, and the text it
    shows is the last text received, "Booting up" if there was none. *)
Theorem minecraft_runner_serves_until_stopped (fuel : nat)
    (items : list (option string)) :
  binds_within bind_fails fuel ->
  exists s',
    minecraft_runner bind_fails fuel items initial_notifier = Some (Ok tt, s') /\
    nt_serving s' = negb (stopped_after items false) /\
    nt_lock s' = nt_serving s' /\
    nt_message s' = last_text items "Booting up".
Proof.
  intros Hbinds.
  destruct (minecraft_runner_at_rest bind_fails fuel items Hbinds)
    as (s' & E & (Hl & Hs & _) & Hm).
  exists s'. split; [exact E|]. split; [exact Hs|]. split; [congruence|exact Hm].
Qed.

(** X22. The actions of the runner follow the port protocol: it binds the
    port only while it holds the lock, it closes the server before it
    releases the lock, and it acquires the lock only when it does not hold
    it. *)
Theorem minecraft_runner_listens_only_with_the_lock (fuel : nat)
    (items : list (option string)) :
  binds_within bind_fails fuel ->
  exists s',
    minecraft_runner bind_fails fuel items initial_notifier = Some (Ok tt, s') /\
    port_run Unlocked (nt_events s')
    = Some (if stopped_after items false then Unlocked else Listening).
Proof.
  intros Hbinds.
  destruct (minecraft_runner_at_rest bind_fails fuel items Hbinds)
    as (s' & E & (_ & _ & Hp) & _).
  exists s'. split; [exact E|exact Hp].
Qed.

(** X23. A bind of the port that fails with [OSError] is tried again after
    300 seconds, for ever: after k failures followed by a success the
    placeholder serves, having slept 300 seconds after each failure, and as
    long as every try fails the loop does not end. *)
Theorem start_server_loop_retries_every_300s (s : notifier) :
  (forall k fuel,
     (k < fuel)%nat ->
     (forall i, (i < k)%nat -> bind_fails (nt_starts s + i) = true) ->
     bind_fails (nt_starts s + k) = false ->
     exists s',
       start_server_loop bind_fails fuel s = Some (Ok tt, s') /\
       nt_serving s' = true /\
       nt_events s' =
         nt_events s ++ concat (repeat [NtStartServer false; NtSleep 300] k)
         ++ [NtStartServer true]) /\
  ((forall i, bind_fails (nt_starts s + i) = true) ->
   forall fuel, start_server_loop bind_fails fuel s = None).
Proof.
  split.
  - intros k fuel Hfuel Hfail Hok.
    rewrite (start_server_loop_after bind_fails k fuel s Hfuel Hfail Hok).
    eexists. split; [reflexivity|]. split; reflexivity.
  - intros Hfail fuel. revert s Hfail.
    induction fuel as [|fuel IH]; intros s Hfail; [reflexivity|].
    cbn [start_server_loop]. unfold try_except, start_server.
    pose proof (Hfail 0%nat) as H0. rewrite Nat.add_0_r in H0. rewrite H0.
    cbn [is_OSError]. unfold bind, nt_emit, modify. apply IH.
    intros i. cbn [nt_starts]. specialize (Hfail (S i)).
    replace (S (nt_starts s) + i)%nat with (nt_starts s + S i)%nat by lia.
    exact Hfail.
Qed.

End MinecraftRunnerTheorems.

(** The first two binds fail. *)
Lemma two_failed_binds : binds_within (fun n => (n <? 2)%nat) 3.
Proof.
  intros [|[|n]]; [exists 2%nat|exists 1%nat|exists 0%nat];
    (split; [lia|reflexivity]).
Defined.

Lemma minecraft_runner_serves_until_stopped_witness :
  exists s',
    minecraft_runner (fun n => (n <? 2)%nat) 3
      [Some "Building Binary..."; None; None] initial_notifier
    = Some (Ok tt, s') /\
    nt_serving s' = negb (stopped_after [Some "Building Binary..."; None; None] false) /\
    nt_lock s' = nt_serving s' /\
    nt_message s' = last_text [Some "Building Binary..."; None; None] "Booting up".
Proof.
  apply (minecraft_runner_serves_until_stopped (fun n => (n <? 2)%nat) 3
           [Some "Building Binary..."; None; None] two_failed_binds).
Defined.

Lemma minecraft_runner_listens_only_with_the_lock_witness :
  exists s',
    minecraft_runner (fun n => (n <? 2)%nat) 3
      [None; Some "Updating Repo..."] initial_notifier
    = Some (Ok tt, s') /\
    port_run Unlocked (nt_events s')
    = Some (if stopped_after [None; Some "Updating Repo..."] false
            then Unlocked else Listening).
Proof.
  apply (minecraft_runner_listens_only_with_the_lock (fun n => (n <? 2)%nat) 3
           [None; Some "Updating Repo..."] two_failed_binds).
Defined.

Example minecraft_runner_trace :
  minecraft_runner (fun n => (n <? 2)%nat) 3
    [None; None; Some "Updating Repo..."] initial_notifier
  = Some (Ok tt,
          mkNotifier "Updating Repo..." true true 4
            [NtAcquire; NtStartServer false; NtSleep 300; NtStartServer false;
             NtSleep 300; NtStartServer true; NtClose; NtRelease; NtClose;
             NtAcquire; NtStartServer true]).
Proof. vm_compute. reflexivity. Qed.

Lemma start_server_loop_retries_every_300s_witness :
  exists s',
    start_server_loop (fun n => (n <? 2)%nat) 3 initial_notifier = Some (Ok tt, s') /\
    nt_serving s' = true /\
    nt_events s' =
      nt_events initial_notifier
      ++ concat (repeat [NtStartServer false; NtSleep 300] 2)
      ++ [NtStartServer true].
Proof.
  apply (proj1 (start_server_loop_retries_every_300s (fun n => (n <? 2)%nat)
                  initial_notifier) 2%nat 3%nat).
  - lia.
  - intros [|[|i]] Hi; [reflexivity|reflexivity|lia].
  - reflexivity.
Defined.

(** ** The supervisor and the placeholder together *)

Lemma gate_run_prefix (evs1 evs2 : list event) :
  forall g g', gate_run g (evs1 ++ evs2) = Some g' ->
    exists g1, gate_run g evs1 = Some g1.
Proof.
  induction evs1 as [|e evs1 IH]; intros g g' H; cbn [gate_run app] in *.
  - eauto.
  - destruct (gate_step g e) as [g1|]; [|discriminate]. eapply IH, H.
Qed.

(** While the gate is asked for or held, the last message published is the
    stop request. *)
Lemma gate_run_stop_requested (evs : list event) :
  forall g g' stopped,
    (g <> Free -> stopped = true) ->
    gate_run g evs = Some g' ->
    g' <> Free -> stopped_after (published evs) stopped = true.
Proof.
  induction evs as [|e evs IH]; intros g g' stopped Hg H Hg';
    cbn [gate_run published stopped_after] in *.
  - injection H as <-. apply Hg, Hg'.
  - destruct (gate_step g e) as [g1|] eqn:E; [|discriminate].
    destruct e as [[text|]| | | | | | | | | | | | |], g; try discriminate E;
      injection E as <-; cbn [published stopped_after];
      (eapply IH; [|exact H|exact Hg']); intros Hne;
      try reflexivity; try (contradiction Hne; reflexivity);
      try (apply Hg; discriminate).
Qed.

Section PortIsNeverShared.

Variable env : environment.
Variables repo_dir plugins_dir log_dir : string.
Variable bind_fails : nat -> bool.

(** X24. With at most one entry in the plugin directory, where
    [asyncio.gather] has no two tasks to interleave and leaves none running
    behind: at any point of a run of [binary_runner], a placeholder that has
    handled the messages published so far neither listens nor holds the
    lock whenever the supervisor has asked for the lock or holds it: the
    placeholder and the binary never own the port together. *)
Theorem port_is_never_shared (iterations fuel notifier_fuel : nat) (v : locals)
    (w0 w : world) (before after : list event) :
  (length (plugin_entries env) <= 1)%nat ->
  length (commit_wrapper w0) = 5%nat ->
  length (can_access_mc w0) = 1%nat ->
  mc_lock w0 = false ->
  binary_runner env repo_dir plugins_dir log_dir iterations fuel w0
    = Some (Ok v, w) ->
  events w = events w0 ++ before ++ after ->
  binds_within bind_fails notifier_fuel ->
  exists g s',
    gate_run Free before = Some g /\
    minecraft_runner bind_fails notifier_fuel (published before) initial_notifier
      = Some (Ok tt, s') /\
    (g <> Free -> nt_serving s' = false /\ nt_lock s' = false).
Proof.
  intros _ Hcw Hcan Hlock H Hsplit Hbinds.
  destruct (binary_runner_run env repo_dir plugins_dir log_dir
              iterations fuel v w0 w Hcw Hcan Hlock H)
    as (_ & _ & trace & Htrace & Hgate).
  rewrite Htrace in Hsplit. apply app_inv_head in Hsplit. subst trace.
  destruct (gate_run_prefix before after Free Free Hgate) as (g & Hg).
  destruct (minecraft_runner_at_rest bind_fails notifier_fuel
              (published before) Hbinds) as (s' & E & (Hl & Hs & _) & _).
  exists g, s'. split; [exact Hg|]. split; [exact E|].
  intros Hne.
  assert (Hstop : stopped_after (published before) false = true).
  { apply (gate_run_stop_requested before Free g false);
      [intros Hf; contradiction Hf; reflexivity|exact Hg|exact Hne]. }
  rewrite Hstop in Hl, Hs. cbn [negb] in Hl, Hs. auto.
Qed.

End PortIsNeverShared.

Lemma port_is_never_shared_witness :
  exists v w,
    binary_runner (env_with 99 launch_updated) "/repo" "/plugins" "/logs" 2 1
      initial_world = Some (Ok v, w) /\
    forall k, exists g s',
      gate_run Free (firstn k (events w)) = Some g /\
      minecraft_runner (fun n => (n <? 2)%nat) 3
        (published (firstn k (events w))) initial_notifier = Some (Ok tt, s') /\
      (g <> Free -> nt_serving s' = false /\ nt_lock s' = false).
Proof.
  do 2 eexists. split; [vm_compute; reflexivity|]. intros k.
  eapply (port_is_never_shared (env_with 99 launch_updated) "/repo" "/plugins"
            "/logs" (fun n => (n <? 2)%nat) 2 1 3 _ initial_world _
            (firstn k _) (skipn k _));
    [cbn; lia|reflexivity|reflexivity|reflexivity|vm_compute; reflexivity
    |symmetry; apply firstn_skipn|exact two_failed_binds].
Defined.
